(** * apispec.ext.marshmallow: schema registration and reference resolution

    A shallow embedding of [src/apispec/ext/marshmallow/__init__.py].

    Python objects that the plugin mutates or compares by identity live in
    an explicit store: schema instances are references into a heap, the
    plugin's [refs] dictionary is a finite map, and every function that
    receives [spec] threads the whole state.  Exceptions are values of an
    error type.  The collaborators that live outside this file
    ([swagger.schema2jsonschema], [swagger.schema2parameters], marshmallow's
    class registry, the class table) are parameters of the development. *)

From stdpp Require Import gmap strings list fin_maps.
From Stdlib Require Import ZArith Lia.

Open Scope string_scope.
Open Scope list_scope.

Set Warnings "-register-all,-clear-no-such-hyp".

(** ** Python values *)

(** A marshmallow [Schema] subclass, compared by identity. *)
Definition cls := nat.

(** A reference to a schema instance in the object store. *)
Definition loc := nat.

(** The result of [type(x)] for the values that can reach the plugin. *)
Inductive pytype :=
| TSchema (c : cls)
| TStr
| TDict
| TList
| TInt
| TBool
| TNoneType.

(** Keys of a literal mapping: strings, or integers (status codes). *)
Inductive dkey :=
| DStr (s : string)
| DInt (n : Z).

Inductive pyval :=
| PNone
| PBool (b : bool)
| PInt (n : Z)
| PStr (s : string)
| PList (xs : list pyval)
| PDict (kvs : list (dkey * pyval))
| PClass (c : cls)
| PInst (l : loc).

(** marshmallow fields, as far as the plugin distinguishes them:
    [fields.Nested] (whose [schema] attribute is a schema instance),
    [fields.List] (whose [container] attribute is a field) and the rest. *)
Inductive field :=
| Nested (schema : loc)
| ListOf (container : field)
| OtherField.

(** The attributes of a schema instance that the plugin reads or writes.
    [exclude] and [only] are kept in their iteration order. *)
Record schema_obj := {
  o_class : cls;
  o_exclude : list string;
  o_only : list string;
  o_many : bool;
  o_fields : list (string * field)
}.

(** The keys of the plugin's [refs] dictionary: a class object or a
    synthesised name, as [get_schema_ref] returns them, or a schema instance
    (hashed by identity).  Keys of different kinds never compare equal, as
    in Python. *)
Inductive schema_ref :=
| KType (t : pytype)
| KName (s : string)
| KInst (l : loc).

#[global] Instance pytype_eq_dec : EqDecision pytype.
Proof. solve_decision. Defined.

#[global] Instance schema_ref_eq_dec : EqDecision schema_ref.
Proof. solve_decision. Defined.

#[global] Instance dkey_eq_dec : EqDecision dkey.
Proof. solve_decision. Defined.

Definition pytype_code (t : pytype) : nat + nat :=
  match t with
  | TSchema c => inl c
  | TStr => inr 0
  | TDict => inr 1
  | TList => inr 2
  | TInt => inr 3
  | TBool => inr 4
  | TNoneType => inr 5
  end.

Definition pytype_of_code (x : nat + nat) : pytype :=
  match x with
  | inl c => TSchema c
  | inr 0 => TStr
  | inr 1 => TDict
  | inr 2 => TList
  | inr 3 => TInt
  | inr 4 => TBool
  | inr _ => TNoneType
  end.

#[global] Instance pytype_countable : Countable pytype.
Proof.
  apply (inj_countable' pytype_code pytype_of_code).
  intros []; reflexivity.
Defined.

Definition schema_ref_code (k : schema_ref) : pytype + (string + loc) :=
  match k with
  | KType t => inl t
  | KName s => inr (inl s)
  | KInst l => inr (inr l)
  end.

Definition schema_ref_of_code (x : pytype + (string + loc)) : schema_ref :=
  match x with
  | inl t => KType t
  | inr (inl s) => KName s
  | inr (inr l) => KInst l
  end.

#[global] Instance schema_ref_countable : Countable schema_ref.
Proof.
  apply (inj_countable' schema_ref_code schema_ref_of_code).
  intros []; reflexivity.
Defined.

(** ** Errors and the state *)

Inductive error :=
| AttributeError
| TypeError
| KeyError
| RegistryError
| AssertionError
| RecursionError
| InvalidReference.

Inductive result (A : Type) :=
| Ok (a : A)
| Raise (e : error).

Arguments Ok {A} a.
Arguments Raise {A} e.

Definition rbind {A B} (r : result A) (k : A -> result B) : result B :=
  match r with
  | Ok a => k a
  | Raise e => Raise e
  end.

(** Calls that leave this file, recorded in the order they happen. *)
Inductive event :=
| CallConvert (schema : pyval) (name : option string)
| CallParameters (schema_cls : cls) (default_in : pyval)
| CallResolver (key : schema_ref)
| CallDefinition (name : string) (schema : pyval).

#[global] Instance pyval_inhabited : Inhabited pyval := populate PNone.

Record state := {
  st_heap : list schema_obj;
  plug_refs : option (gmap schema_ref string);
  schema_name_resolver : option (schema_ref -> option string);
  st_trace : list event
}.

Definition M (A : Type) : Type := state -> result (A * state).

Definition ret {A} (a : A) : M A := fun st => Ok (a, st).

Definition bind {A B} (m : M A) (k : A -> M B) : M B :=
  fun st =>
    match m st with
    | Ok (a, st') => k a st'
    | Raise e => Raise e
    end.

Definition raise {A} (e : error) : M A := fun _ => Raise e.

Definition lift {A} (r : result A) : M A :=
  fun st =>
    match r with
    | Ok a => Ok (a, st)
    | Raise e => Raise e
    end.

Definition get_state : M state := fun st => Ok (st, st).

Notation "'let!' x ':=' m 'in' k" := (bind m (fun x => k))
  (at level 10, x name, m at level 100, k at level 200).
Notation "'let?' x ':=' r 'in' k" := (rbind r (fun x => k))
  (at level 10, x name, r at level 100, k at level 200).
Notation "m1 ';;!' m2" := (bind m1 (fun _ => m2))
  (at level 100, m2 at level 200, right associativity).

(** [for x in xs: body(x)] *)
Fixpoint for_each {A} (xs : list A) (body : A -> M unit) : M unit :=
  match xs with
  | [] => ret tt
  | x :: rest => body x ;;! for_each rest body
  end.

(** *** Store primitives *)

Definition deref (h : list schema_obj) (l : loc) : result schema_obj :=
  match h !! l with
  | Some o => Ok o
  | None => Raise InvalidReference
  end.

Definition emit (e : event) : M unit :=
  fun st =>
    Ok (tt, {| st_heap := st_heap st; plug_refs := plug_refs st;
               schema_name_resolver := schema_name_resolver st;
               st_trace := st_trace st ++ [e] |}).

Definition set_plug_refs (r : gmap schema_ref string) : M unit :=
  fun st =>
    Ok (tt, {| st_heap := st_heap st; plug_refs := Some r;
               schema_name_resolver := schema_name_resolver st;
               st_trace := st_trace st |}).

(** Allocation of a new schema instance; its reference is the next free
    slot of the store. *)
Definition alloc (o : schema_obj) : M loc :=
  fun st =>
    Ok (length (st_heap st),
        {| st_heap := st_heap st ++ [o]; plug_refs := plug_refs st;
           schema_name_resolver := schema_name_resolver st;
           st_trace := st_trace st |}).

Definition with_many (o : schema_obj) (b : bool) : schema_obj :=
  {| o_class := o_class o; o_exclude := o_exclude o; o_only := o_only o;
     o_many := b; o_fields := o_fields o |}.

(** [obj.many = b] *)
Definition set_many (l : loc) (b : bool) : M unit :=
  fun st =>
    match st_heap st !! l with
    | Some o =>
        Ok (tt, {| st_heap := <[l := with_many o b]> (st_heap st);
                   plug_refs := plug_refs st;
                   schema_name_resolver := schema_name_resolver st;
                   st_trace := st_trace st |})
    | None => Raise InvalidReference
    end.

(** [if 'refs' not in plug: plug['refs'] = {}] *)
Definition ensure_refs : M unit :=
  fun st =>
    match plug_refs st with
    | Some _ => Ok (tt, st)
    | None => set_plug_refs ∅ st
    end.

(** [plug.get('refs', {})] *)
Definition refs_or_empty (st : state) : gmap schema_ref string :=
  match plug_refs st with
  | Some r => r
  | None => ∅
  end.

(** ** Literal mappings *)

Fixpoint dict_get (d : list (dkey * pyval)) (k : dkey) : option pyval :=
  match d with
  | [] => None
  | (k', v) :: rest => if decide (k' = k) then Some v else dict_get rest k
  end.

Definition dict_mem (d : list (dkey * pyval)) (k : dkey) : bool :=
  match dict_get d k with Some _ => true | None => false end.

(** [d[k] = v]: replaces the value of an existing key in place, appends a
    new key at the end. *)
Fixpoint dict_set (d : list (dkey * pyval)) (k : dkey) (v : pyval)
  : list (dkey * pyval) :=
  match d with
  | [] => [(k, v)]
  | (k', v') :: rest =>
      if decide (k' = k) then (k, v) :: rest else (k', v') :: dict_set rest k v
  end.

Definition is_dict (v : pyval) : bool :=
  match v with PDict _ => true | _ => false end.

(** [schema.get('type') == 'array'] *)
Definition type_is_array (d : list (dkey * pyval)) : bool :=
  match dict_get d (DStr "type") with
  | Some (PStr s) => bool_decide (s = "array")
  | _ => false
  end.

(** [d[k] = f(d[k])] for a key [k] of [d], with the state threaded
    through [f]; a mapping without the key is left as it is. *)
Fixpoint dict_update_with (k : dkey) (f : pyval -> M pyval)
    (d : list (dkey * pyval)) : M (list (dkey * pyval)) :=
  match d with
  | [] => ret []
  | (k', v) :: rest =>
      if decide (k' = k) then
        let! v' := f v in ret ((k', v') :: rest)
      else
        let! rest' := dict_update_with k f rest in ret ((k', v) :: rest')
  end.

(** [for k, v in d.items(): d[k] = f(v)] *)
Fixpoint dict_map_values (f : pyval -> M pyval) (d : list (dkey * pyval))
  : M (list (dkey * pyval)) :=
  match d with
  | [] => ret []
  | (k, v) :: rest =>
      let! v' := f v in
      let! rest' := dict_map_values f rest in
      ret ((k, v') :: rest')
  end.

(** Truth value of a string, of a collection and of a [refs] key. *)
Definition str_truthy (s : string) : bool := negb (bool_decide (s = "")).

Definition coll_truthy {A} (xs : list A) : bool :=
  match xs with [] => false | _ :: _ => true end.

Definition key_truthy (k : schema_ref) : bool :=
  match k with
  | KType _ => true
  | KName s => str_truthy s
  | KInst _ => true
  end.

(** Truth value of what a naming policy returns: [None] and the empty
    string are false. *)
Definition name_truthy (n : option string) : option string :=
  match n with
  | Some s => if str_truthy s then Some s else None
  | None => None
  end.

(** Iteration over a Python value. *)
Fixpoint chars (s : string) : list pyval :=
  match s with
  | EmptyString => []
  | String a rest => PStr (String a EmptyString) :: chars rest
  end.

Definition dkey_val (k : dkey) : pyval :=
  match k with DStr s => PStr s | DInt n => PInt n end.

Definition py_iter (v : pyval) : result (list pyval) :=
  match v with
  | PList xs => Ok xs
  | PDict d => Ok (map (fun kv => dkey_val kv.1) d)
  | PStr s => Ok (chars s)
  | _ => Raise TypeError
  end.

(** ['schema' in s] for a string [s]. *)
Definition str_contains (needle s : string) : bool :=
  match String.index 0 needle s with Some _ => true | None => false end.

(** ['schema' in xs] for a list [xs]. *)
Definition list_contains_str (needle : string) (xs : list pyval) : bool :=
  existsb (fun x => match x with
                    | PStr s => bool_decide (s = needle)
                    | _ => false
                    end) xs.

(** ** The plugin

    The functions of the module, in the order of the source.  [spec] is
    the host object that registered the plugin, so [spec.plugins[NAME]]
    exists and [spec] is true wherever it is tested; the state stands for
    it.  [schema_path_helper], which reads no schema, follows the section. *)

Section Plugin.

(** [schema.__name__] of a schema class. *)
Variable cls_name : cls -> string.

(** The [fields] of the instance that calling a schema class creates. *)
Variable cls_fields : cls -> list (string * field).

(** [marshmallow.class_registry.get_class]; [None] when no class is
    registered under the name. *)
Variable get_class : string -> option cls.

(** [swagger.schema2jsonschema(schema, spec=spec, name=name, dump=dump)],
    the converter of the sibling module [swagger.py], as a function of the
    state and of its arguments: what it returns for a schema class or a
    schema instance.  [resolve_schema_dict] calls it on classes and
    instances only.  What the converter does with a value that is neither
    (it raises) is not modelled; the statements that a declaration succeeds
    whenever its key can be computed are made for schema classes and
    instances. *)
Variable schema2jsonschema : state -> pyval -> option string -> bool -> pyval.

(** [swagger.schema2parameters(schema_cls, default_in=..., spec=spec)]. *)
Variable schema2parameters : state -> cls -> pyval -> list pyval.

(** [schema()]: a new instance with the constructor's defaults. *)
Definition new_instance (c : cls) : schema_obj :=
  {| o_class := c; o_exclude := []; o_only := []; o_many := false;
     o_fields := cls_fields c |}.

Definition get_schema_instance (schema : pyval) : M pyval :=
  match schema with
  | PClass c => let! l := alloc (new_instance c) in ret (PInst l)
  | _ => ret schema
  end.

(** [class_name += tag; for elem in elems: class_name += '_';
    class_name += elem] *)
Definition add_suffix (tag : string) (elems : list string)
    (class_name : string) : string :=
  fold_left (fun acc elem => (acc +:+ "_") +:+ elem) elems (class_name +:+ tag).

Definition get_schema_ref (h : list schema_obj) (schema : pyval)
  : result schema_ref :=
  match schema with
  | PClass c => Ok (KType (TSchema c))
  | PInst l =>
      let? o := deref h l in
      let parent_schema := o_class o in
      let class_name := "" in
      let exclude := o_exclude o in
      let only := o_only o in
      let class_name :=
        if coll_truthy exclude then add_suffix "Without" exclude class_name
        else class_name in
      let class_name :=
        if coll_truthy only then add_suffix "Only" only class_name
        else class_name in
      if str_truthy class_name then
        Ok (KName (cls_name parent_schema +:+ class_name))
      else Ok (KType (TSchema (o_class o)))
  | PStr _ => Ok (KType TStr)
  | PDict _ => Ok (KType TDict)
  | PList _ => Ok (KType TList)
  | PInt _ => Ok (KType TInt)
  | PBool _ => Ok (KType TBool)
  | PNone => Ok (KType TNoneType)
  end.

Definition resolve_schema_cls (h : list schema_obj) (schema : pyval)
  : result cls :=
  match schema with
  | PClass c => Ok c
  | PInst l => let? o := deref h l in Ok (o_class o)
  | PStr s =>
      match get_class s with
      | Some c => Ok c
      | None => Raise RegistryError
      end
  | PList _ | PDict _ => Raise TypeError
  | _ => Raise RegistryError
  end.

(** [original_schema_instance.fields.items()] *)
Definition schema_fields (schema : pyval) : M (list (string * field)) :=
  fun st =>
    match schema with
    | PInst l => let? o := deref (st_heap st) l in Ok (o_fields o, st)
    | _ => Raise AttributeError
    end.

(** [getattr(schema, 'many', False)] *)
Definition schema_many (h : list schema_obj) (schema : pyval) : result bool :=
  match schema with
  | PInst l => let? o := deref h l in Ok (o_many o)
  | _ => Ok false
  end.

(** [copy.copy(schema)] of a schema instance. *)
Definition copy_copy (l : loc) : M loc :=
  let! st := get_state in
  let! o := lift (deref (st_heap st) l) in
  alloc o.

(** The first part of the loop body of
    [inspect_schema_for_auto_referencing]: the nested schema of a field
    and its key.  A [fields.List] has a [container] and no [schema]
    attribute, so reading [field.schema] on it raises. *)
Definition nested_of_field (h : list schema_obj) (fld : field)
  : result (option (loc * schema_ref)) :=
  match fld with
  | Nested l =>
      let? nested_schema_ref := get_schema_ref h (PInst l) in
      Ok (Some (l, nested_schema_ref))
  | ListOf (Nested _) => Raise AttributeError
  | _ => Ok None
  end.

(** The body of the loop of [inspect_schema_for_auto_referencing];
    [definition] stands for [spec.definition]. *)
Definition inspect_field (definition : string -> pyval -> M unit)
    (item : string * field) : M unit :=
  let! st := get_state in
  let! nested := lift (nested_of_field (st_heap st) item.2) in
  match nested with
  | Some (nested_schema, nested_schema_ref) =>
      if key_truthy nested_schema_ref then
        match plug_refs st with
        | None => raise KeyError
        | Some refs =>
            if decide (refs !! nested_schema_ref = None) then
              match schema_name_resolver st with
              | None => raise TypeError
              | Some resolver =>
                  emit (CallResolver nested_schema_ref) ;;!
                  let definition_name := resolver nested_schema_ref in
                  let! many := lift (schema_many (st_heap st) (PInst nested_schema)) in
                  let! nested_schema :=
                    if many : bool then
                      let! c := copy_copy nested_schema in
                      set_many c false ;;! ret c
                    else ret nested_schema in
                  match name_truthy definition_name with
                  | Some name => definition name (PInst nested_schema)
                  | None => ret tt
                  end
              end
            else ret tt
        end
      else ret tt
  | None => ret tt
  end.

Definition inspect_schema_for_auto_referencing
    (definition : string -> pyval -> M unit)
    (original_schema_instance : pyval) : M unit :=
  let! st := get_state in
  match schema_name_resolver st with
  | None => raise AssertionError
  | Some _ =>
      ensure_refs ;;!
      let! fields := schema_fields original_schema_instance in
      for_each fields (inspect_field definition)
  end.

(** Modelled from the spec: [APISpec.definition] of the host
    ([apispec.core], not part of this file).  The host "invokes the core's
    entry points" at definition declaration, so a definition declared
    during discovery "recursively call[s] register for the nested schema
    under that name". *)
Definition spec_definition (helper : string -> pyval -> M pyval)
    (name : string) (schema : pyval) : M unit :=
  emit (CallDefinition name schema) ;;!
  let! _ := helper name schema in
  ret tt.

(** [depth] bounds the nesting of calls, as the interpreter's recursion
    limit does. *)
Fixpoint schema_definition_helper (depth : nat) (name : string)
    (schema : pyval) : M pyval :=
  match depth with
  | O => raise RecursionError
  | S depth' =>
      let! st := get_state in
      let! schema_ref := lift (get_schema_ref (st_heap st) schema) in
      let! schema_instance := get_schema_instance schema in
      ensure_refs ;;!
      let! st := get_state in
      set_plug_refs (<[schema_ref := name]> (refs_or_empty st)) ;;!
      let! st := get_state in
      emit (CallConvert schema_instance (Some name)) ;;!
      let json_schema := schema2jsonschema st schema_instance (Some name) true in
      (match schema_name_resolver st with
       | Some _ =>
           inspect_schema_for_auto_referencing
             (spec_definition (schema_definition_helper depth'))
             schema_instance
       | None => ret tt
       end) ;;!
      ret json_schema
  end.

(** The loop body of [resolve_parameters]: what one parameter
    contributes to [resolved]. *)
Definition resolve_parameter (parameter : pyval) : M (list pyval) :=
  match parameter with
  | PDict p =>
      let schema := default (PDict []) (dict_get p (DStr "schema")) in
      if is_dict schema then ret [parameter]
      else
        let! st := get_state in
        let! schema_cls := lift (resolve_schema_cls (st_heap st) schema) in
        match dict_get p (DStr "in") with
        | Some default_in =>
            emit (CallParameters schema_cls default_in) ;;!
            ret (schema2parameters st schema_cls default_in)
        | None => ret [parameter]
        end
  | _ => raise AttributeError
  end.

Fixpoint resolve_parameters_loop (parameters : list pyval) : M (list pyval) :=
  match parameters with
  | [] => ret []
  | parameter :: rest =>
      let! r := resolve_parameter parameter in
      let! resolved := resolve_parameters_loop rest in
      ret (r ++ resolved)
  end.

Definition resolve_parameters (parameters : pyval) : M pyval :=
  let! ps := lift (py_iter parameters) in
  let! resolved := resolve_parameters_loop ps in
  ret (PList resolved).

Definition ref_schema (name : string) : pyval :=
  PDict [(DStr "$ref", PStr ("#/definitions/" +:+ name))].

Definition array_of (items : pyval) : pyval :=
  PDict [(DStr "type", PStr "array"); (DStr "items", items)].

(** The part of [resolve_schema_dict] after the test for a literal
    mapping. *)
Definition resolve_schema_ref (schema : pyval) (dump use_instances : bool)
  : M pyval :=
  let! st := get_state in
  let h := st_heap st in
  let! schema_cls :=
    lift (match schema with
          | PInst _ =>
              if use_instances then Ok schema
              else let? c := resolve_schema_cls h schema in Ok (PClass c)
          | _ => let? c := resolve_schema_cls h schema in Ok (PClass c)
          end) in
  let! schema_ref := lift (get_schema_ref h schema) in
  let schema_ref :=
    if key_truthy schema_ref then schema_ref
    else match schema_cls with
         | PInst l => KInst l
         | PClass c => KType (TSchema c)
         | _ => schema_ref
         end in
  match refs_or_empty st !! schema_ref with
  | Some name =>
      let! many := lift (schema_many h schema) in
      if many : bool then ret (array_of (ref_schema name))
      else ret (ref_schema name)
  | None =>
      let schema := match schema with PInst _ => schema | _ => schema_cls end in
      emit (CallConvert schema None) ;;!
      ret (schema2jsonschema st schema None dump)
  end.

Fixpoint resolve_schema_dict (schema : pyval) (dump use_instances : bool)
    {struct schema} : M pyval :=
  match schema with
  | PDict d =>
      if type_is_array d && dict_mem d (DStr "items") then
        let! d' := dict_update_with (DStr "items")
                     (fun items => resolve_schema_dict items true use_instances)
                     d in
        ret (PDict d')
      else ret (PDict d)
  | _ => resolve_schema_ref schema dump use_instances
  end.

(** [if 'schema' in response: response['schema'] = ...] *)
Definition resolve_response (response : pyval) : M pyval :=
  match response with
  | PDict r =>
      if dict_mem r (DStr "schema") then
        let! r' := dict_update_with (DStr "schema")
                     (fun s => resolve_schema_dict s true false) r in
        ret (PDict r')
      else ret response
  | PStr s =>
      if str_contains "schema" s then raise TypeError else ret response
  | PList xs =>
      if list_contains_str "schema" xs then raise TypeError else ret response
  | _ => raise TypeError
  end.

(** The body of the loop of [schema_operation_resolver]; the operation is
    updated in place, which the returned value stands for. *)
Definition resolve_operation (operation : pyval) : M pyval :=
  match operation with
  | PDict op =>
      let! op :=
        if dict_mem op (DStr "parameters") then
          dict_update_with (DStr "parameters") resolve_parameters op
        else ret op in
      match dict_get op (DStr "responses") with
      | Some (PDict responses) =>
          let! responses := dict_map_values resolve_response responses in
          ret (PDict (dict_set op (DStr "responses") (PDict responses)))
      | Some _ => raise AttributeError
      | None => ret (PDict op)
      end
  | _ => ret operation
  end.

Definition schema_operation_resolver (operations : list (dkey * pyval))
  : M (list (dkey * pyval)) :=
  dict_map_values resolve_operation operations.

End Plugin.

Arguments new_instance cls_fields c /.

(** ** The path helper *)

(** A view, as far as [schema_path_helper] reads it: its [__doc__]. *)
Record view := { view_doc : option string }.

(** Truth value of an optional mapping: [None] and the empty mapping are
    false. *)
Definition mapping_truthy (d : option (list (dkey * pyval))) : bool :=
  match d with
  | Some (_ :: _) => true
  | _ => false
  end.

Section PathHelper.

(** [Path(operations=...)] of the host ([apispec.core], not part of this
    file): whatever the constructor does with the operations it is given,
    as a function of them. *)
Variable path : Type.
Variable Path : list (dkey * pyval) -> path.

(** [apispec.utils.load_operations_from_docstring]: the operations read
    from a docstring, or [None]. *)
Variable load_operations_from_docstring :
  option string -> option (list (dkey * pyval)).

(** [operations] is [kwargs.get('operations')], a mapping or [None]; the
    copy that the helper takes of the mapping is the mapping as a value.
    The result is [None] when the helper returns without building a
    [Path]. *)
Definition schema_path_helper (view : option view)
    (operations : option (list (dkey * pyval))) : option path :=
  let operations :=
    if mapping_truthy operations then operations
    else match view with
         | Some v => load_operations_from_docstring (view_doc v)
         | None => None
         end in
  match operations with
  | Some (item :: rest) => Some (Path (item :: rest))
  | _ => None
  end.

End PathHelper.

(** ** Vocabulary of the statements *)

(** The field names of a restriction, each preceded by the separator. *)
Fixpoint joined (elems : list string) : string :=
  match elems with
  | [] => ""
  | e :: rest => "_" +:+ e +:+ joined rest
  end.

(** The key of a schema instance, as a function of its attributes. *)
Definition instance_ref (cls_name : cls -> string) (o : schema_obj) : schema_ref :=
  match o_exclude o, o_only o with
  | [], [] => KType (TSchema (o_class o))
  | _ :: _, [] =>
      KName (cls_name (o_class o) +:+ "Without" +:+ joined (o_exclude o))
  | [], _ :: _ =>
      KName (cls_name (o_class o) +:+ "Only" +:+ joined (o_only o))
  | _ :: _, _ :: _ =>
      KName (cls_name (o_class o) +:+ "Without" +:+ joined (o_exclude o)
             +:+ "Only" +:+ joined (o_only o))
  end.

(** The state after an event is recorded. *)
Definition with_event (st : state) (e : event) : state :=
  {| st_heap := st_heap st; plug_refs := plug_refs st;
     schema_name_resolver := schema_name_resolver st;
     st_trace := st_trace st ++ [e] |}.

(** The state after an object is added to the store. *)
Definition with_object (st : state) (o : schema_obj) : state :=
  {| st_heap := st_heap st ++ [o]; plug_refs := plug_refs st;
     schema_name_resolver := schema_name_resolver st;
     st_trace := st_trace st |}.

(** The state after [plug['refs']] is replaced. *)
Definition with_refs (st : state) (r : gmap schema_ref string) : state :=
  {| st_heap := st_heap st; plug_refs := Some r;
     schema_name_resolver := schema_name_resolver st;
     st_trace := st_trace st |}.

(** [st'] is reached from [st] by allocation and by calls only: every
    object of [st] is still there with the same attributes, the naming
    policy is the same and the trace has only grown. *)
Record extends (st st' : state) : Prop := {
  ext_heap : forall l o, st_heap st !! l = Some o -> st_heap st' !! l = Some o;
  ext_resolver : schema_name_resolver st' = schema_name_resolver st;
  ext_trace : exists evs, st_trace st' = st_trace st ++ evs
}.

(** The name that the naming policy of [st] gives to a key, when it
    gives one. *)
Definition policy_name (st : state) (k : schema_ref) : option string :=
  match schema_name_resolver st with
  | Some resolver => name_truthy (resolver k)
  | None => None
  end.

(** Between [st] and [st'] the key [k] either kept its entry, or had none
    and was registered under the name the policy gives it. *)
Definition discovered (st st' : state) (k : schema_ref) : Prop :=
  refs_or_empty st' !! k = refs_or_empty st !! k
  \/ (refs_or_empty st !! k = None
      /\ is_Some (policy_name st k)
      /\ refs_or_empty st' !! k = policy_name st k).

(** A field that discovery passes over. *)
Definition plain_field (f : field) : bool :=
  match f with
  | Nested _ => false
  | ListOf (Nested _) => false
  | _ => true
  end.

(** The state in which discovery hands a nested schema to
    [spec.definition], and the reference it hands over: a schema with
    [many] set is replaced by a copy whose [many] is false. *)
Definition singular_target (cls_name : cls -> string) (st : state) (l : loc)
    (o : schema_obj) : loc * state :=
  let st1 := with_event st (CallResolver (instance_ref cls_name o)) in
  if o_many o then (length (st_heap st), with_object st1 (with_many o false))
  else (l, st1).

(** The contract of [spec.definition] that discovery relies on. *)
Definition definition_spec (cls_name : cls -> string)
    (definition : string -> pyval -> M unit) : Prop :=
  forall name schema st st',
    definition name schema st = Ok (tt, st') ->
    exists key,
      get_schema_ref cls_name (st_heap st) schema = Ok key
      /\ extends st st'
      /\ refs_or_empty st' !! key = Some name
      /\ forall k, k <> key -> discovered st st' k.

(** The same contract for the helper itself. *)
Definition helper_spec (cls_name : cls -> string)
    (helper : string -> pyval -> M pyval) : Prop :=
  forall name schema st v st',
    helper name schema st = Ok (v, st') ->
    exists key,
      get_schema_ref cls_name (st_heap st) schema = Ok key
      /\ extends st st'
      /\ refs_or_empty st' !! key = Some name
      /\ forall k, k <> key -> discovered st st' k.

(** What [get_schema_instance] returns and the state it leaves: a class
    is instantiated at the next free slot, anything else is returned as it
    is. *)
Definition instantiated (cls_fields : cls -> list (string * field))
    (st : state) (schema : pyval) : pyval * state :=
  match schema with
  | PClass c => (PInst (length (st_heap st)), with_object st (new_instance cls_fields c))
  | _ => (schema, st)
  end.

(** The state of the helper once the key is bound to the name. *)
Definition bound (cls_fields : cls -> list (string * field))
    (st : state) (key : schema_ref) (name : string) (schema : pyval) : state :=
  let st1 := (instantiated cls_fields st schema).2 in
  with_refs st1 (<[key := name]> (refs_or_empty st1)).

(** A schema class or a schema instance. *)
Definition is_schema (v : pyval) : bool :=
  match v with
  | PClass _ | PInst _ => true
  | _ => false
  end.

(** The entries of an operations mapping whose value is itself a
    mapping. *)
Definition mapping_entries (operations : list (dkey * pyval))
  : list (dkey * pyval) :=
  List.filter (fun kv => is_dict kv.2) operations.

(** Fields none of which discovery looks into. *)
Definition all_plain (items : list (string * field)) : bool :=
  forallb (fun item => plain_field item.2) items.

(** The state of the helper when it hands [inst] to the converter: the
    key is bound to the name and the call is recorded. *)
Definition declared (st : state) (key : schema_ref) (name : string)
    (inst : pyval) : state :=
  with_event (with_refs st (<[key := name]> (refs_or_empty st)))
    (CallConvert inst (Some name)).

(** A field that a new discovery would not register: discovery passes
    over it, or its schema is registered already, or the policy declines
    it. *)
Definition settled (cls_name : cls -> string) (st : state) (f : field) : Prop :=
  plain_field f = true
  \/ exists l o,
       f = Nested l /\ st_heap st !! l = Some o
       /\ (is_Some (refs_or_empty st !! instance_ref cls_name o)
           \/ policy_name st (instance_ref cls_name o) = None).

(** The number of conversions recorded in a trace. *)
Definition is_convert (e : event) : bool :=
  match e with CallConvert _ _ => true | _ => false end.

Definition conversions (t : list event) : nat :=
  length (List.filter is_convert t).

(** The number of calls of [spec.definition] recorded in a trace. *)
Definition is_definition (e : event) : bool :=
  match e with CallDefinition _ _ => true | _ => false end.

Definition definitions (t : list event) : nat :=
  length (List.filter is_definition t).

(** ** Vocabulary of the further statements *)

(** [st'] differs from [st] in its trace at most. *)
Definition same_registry (st st' : state) : Prop :=
  plug_refs st' = plug_refs st
  /\ st_heap st' = st_heap st
  /\ schema_name_resolver st' = schema_name_resolver st.

(** [n] array descriptors around a value. *)
Fixpoint nest (n : nat) (v : pyval) : pyval :=
  match n with
  | O => v
  | S m => array_of (nest m v)
  end.

(** A parameter that [resolve_parameters] appends as it is without
    looking for a class: a mapping without a [schema] member, or whose
    [schema] is itself a mapping. *)
Definition passes_through (parameter : pyval) : bool :=
  match parameter with
  | PDict p =>
      match dict_get p (DStr "schema") with
      | None => true
      | Some schema => is_dict schema
      end
  | _ => false
  end.

(** An operation in which the rewriter finds nothing to resolve: not a
    mapping, or a mapping without [parameters] whose responses, if any,
    are mappings without a [schema] member. *)
Definition plain_response (response : pyval) : bool :=
  match response with
  | PDict r => negb (dict_mem r (DStr "schema"))
  | _ => false
  end.

Definition plain_operation (operation : pyval) : bool :=
  match operation with
  | PDict op =>
      negb (dict_mem op (DStr "parameters"))
      && match dict_get op (DStr "responses") with
         | None => true
         | Some (PDict responses) =>
             forallb (fun kv => plain_response kv.2) responses
         | Some _ => false
         end
  | _ => true
  end.

(** [d'] has the keys of [d] in the same order, and the value of [d]
    under every key that is not one of [keys]. *)
Definition kept_except (keys : list dkey) (d d' : list (dkey * pyval)) : Prop :=
  map fst d' = map fst d
  /\ forall m, m ∉ keys -> dict_get d' m = dict_get d m.

(** An instance with a non-empty [exclude] or [only]. *)
Definition restricted (o : schema_obj) : bool :=
  coll_truthy (o_exclude o) || coll_truthy (o_only o).

(** The errors that a declaration can end in. *)
Definition declaration_error (e : error) : bool :=
  match e with
  | RecursionError | AttributeError | InvalidReference => true
  | _ => false
  end.

(** A field whose nested schema, if it has one, is an object of a store
    of [n] objects, and which is not a list of nested schemas. *)
Definition wf_field (n : nat) (f : field) : bool :=
  match f with
  | Nested l => bool_decide (l < n)
  | ListOf (Nested _) => false
  | _ => true
  end.

Definition wf_fields (n : nat) (items : list (string * field)) : bool :=
  forallb (fun item => wf_field n item.2) items.

(** A store all of whose objects have such fields. *)
Definition wf_heap (h : list schema_obj) : Prop :=
  forall l o, h !! l = Some o -> wf_fields (length h) (o_fields o) = true.

(** The keys of the instances of a store. *)
Definition heap_keys (cls_name : cls -> string) (h : list schema_obj)
  : gset schema_ref :=
  list_to_set (instance_ref cls_name <$> h).

(** The number of keys of the store that are not registered. *)
Definition pending (cls_name : cls -> string) (st : state) : nat :=
  size (heap_keys cls_name (st_heap st) ∖ dom (refs_or_empty st)).

(** Every object of [st'] is an object of [st] up to [many]. *)
Definition same_objects (st st' : state) : Prop :=
  forall l' o', st_heap st' !! l' = Some o' ->
    exists l o, st_heap st !! l = Some o /\ o' = with_many o (o_many o').

(** [st'] is reached from [st] by a discovery: objects are kept and
    only copied, the registry keeps its keys. *)
Definition grows (st st' : state) : Prop :=
  extends st st'
  /\ same_objects st st'
  /\ dom (refs_or_empty st) ⊆ dom (refs_or_empty st')
  /\ (is_Some (plug_refs st) -> is_Some (plug_refs st')).

(** ** A small world for the examples

    Three schema classes, [UserSchema] (0), [PetSchema] (1) and
    [CategorySchema] (2); a user has pets, a pet has a category. *)

Definition ex_cls_name (c : cls) : string :=
  match c with
  | 0 => "UserSchema"
  | 1 => "PetSchema"
  | _ => "CategorySchema"
  end.

Definition ex_get_class (s : string) : option cls :=
  if decide (s = "UserSchema") then Some 0
  else if decide (s = "PetSchema") then Some 1
  else if decide (s = "CategorySchema") then Some 2
  else None.

(** Store of the examples: the category instance (0), the pet instance
    nested in a user with [many=True] (1), a user instance (2), and two
    user instances that exclude the same two fields, given in opposite
    orders (3 and 4). *)
Definition ex_heap : list schema_obj :=
  [ {| o_class := 2; o_exclude := []; o_only := []; o_many := false;
       o_fields := [("id", OtherField); ("label", OtherField)] |};
    {| o_class := 1; o_exclude := []; o_only := []; o_many := true;
       o_fields := [("name", OtherField); ("category", Nested 0)] |};
    {| o_class := 0; o_exclude := []; o_only := []; o_many := false;
       o_fields := [("id", OtherField); ("pets", Nested 1);
                    ("tags", ListOf OtherField)] |};
    {| o_class := 0; o_exclude := ["id"; "email"]; o_only := [];
       o_many := false; o_fields := [("pets", Nested 1)] |};
    {| o_class := 0; o_exclude := ["email"; "id"]; o_only := [];
       o_many := false; o_fields := [("pets", Nested 1)] |} ].

(** The same store with one more user instance (5): it excludes the
    fields of instance 3 in the same order, and has [many] set. *)
Definition ex_heap_list : list schema_obj :=
  ex_heap ++ [ {| o_class := 0; o_exclude := ["id"; "email"]; o_only := [];
                  o_many := true; o_fields := [("pets", Nested 1)] |} ].

Definition ex_cls_fields (c : cls) : list (string * field) :=
  match c with
  | 0 => [("id", OtherField); ("pets", Nested 1); ("tags", ListOf OtherField)]
  | 1 => [("name", OtherField); ("category", Nested 0)]
  | _ => [("id", OtherField); ("label", OtherField)]
  end.

(** Modelled from the spec: [swagger.schema2jsonschema], of the sibling
    module [swagger.py], "converts one schema instance into a full
    object-type descriptor" with [type: "object"] and a [properties] map.
    The examples use the descriptor of a schema without properties. *)
Definition ex_schema2jsonschema (st : state) (schema : pyval)
    (name : option string) (dump : bool) : pyval :=
  PDict [(DStr "type", PStr "object"); (DStr "properties", PDict [])].

Definition ex_schema2parameters (st : state) (c : cls) (default_in : pyval)
  : list pyval :=
  [PDict [(DStr "in", default_in); (DStr "name", PStr "id")]].

(** A naming policy that names every class after itself and declines
    synthesised keys. *)
Definition ex_resolver (k : schema_ref) : option string :=
  match k with
  | KType (TSchema 0) => Some "User"
  | KType (TSchema 1) => Some "Pet"
  | KType (TSchema _) => Some "Category"
  | _ => None
  end.

(** The state at the start of a build, with and without a naming
    policy. *)
Definition ex_start : state :=
  {| st_heap := ex_heap; plug_refs := None;
     schema_name_resolver := Some ex_resolver; st_trace := [] |}.

Definition ex_start_plain : state :=
  {| st_heap := ex_heap; plug_refs := None;
     schema_name_resolver := None; st_trace := [] |}.

(** The state during discovery: the registry exists and is empty. *)
Definition ex_discovering : state := with_refs ex_start ∅.

(** A naming policy that declines every key. *)
Definition ex_declining : state :=
  {| st_heap := ex_heap; plug_refs := Some ∅;
     schema_name_resolver := Some (fun _ => None); st_trace := [] |}.

(** The build after [UserSchema] is declared under the name "User",
    without a naming policy. *)
Definition ex_user_declared : result (pyval * state) :=
  schema_definition_helper ex_cls_name ex_cls_fields ex_schema2jsonschema
    1 "User" (PClass 0) ex_start_plain.

(** A store in which schemas nest each other in a cycle: an author (0)
    has books, a book (1) has an author. *)
Definition ex_cyclic_heap : list schema_obj :=
  [ {| o_class := 3; o_exclude := []; o_only := []; o_many := false;
       o_fields := [("name", OtherField); ("books", Nested 1)] |};
    {| o_class := 4; o_exclude := []; o_only := []; o_many := true;
       o_fields := [("title", OtherField); ("author", Nested 0)] |} ].

Definition ex_cyclic : state :=
  {| st_heap := ex_cyclic_heap; plug_refs := None;
     schema_name_resolver := Some (fun _ => Some "Definition");
     st_trace := [] |}.

(** A store with a schema that has a list of nested schemas. *)
Definition ex_list_heap : list schema_obj :=
  ex_heap ++ [ {| o_class := 0; o_exclude := []; o_only := []; o_many := false;
                  o_fields := [("id", OtherField);
                               ("pets", ListOf (Nested 1))] |} ].

Definition ex_list_state : state :=
  {| st_heap := ex_list_heap; plug_refs := None;
     schema_name_resolver := Some ex_resolver; st_trace := [] |}.

Definition ex_list_state_plain : state :=
  {| st_heap := ex_list_heap; plug_refs := None;
     schema_name_resolver := None; st_trace := [] |}.

(** A build in which [PetSchema] is declared by hand as "Animal". *)
Definition ex_preregistered : state :=
  {| st_heap := ex_heap; plug_refs := Some {[ KType (TSchema 1) := "Animal" ]};
     schema_name_resolver := Some ex_resolver; st_trace := [] |}.

Definition ex_heap_list_state : state :=
  {| st_heap := ex_heap_list; plug_refs := None;
     schema_name_resolver := None; st_trace := [] |}.

(** A docstring loader for the examples. *)
Definition ex_load (doc : option string) : option (list (dkey * pyval)) :=
  match doc with
  | Some _ => Some [(DStr "get", PDict [(DStr "description", PStr "from docstring")])]
  | None => None
  end.

(** ** Reasoning about the monad *)

Lemma bind_inv {A B} (m : M A) (k : A -> M B) st b st' :
  bind m k st = Ok (b, st') ->
  exists a st1, m st = Ok (a, st1) /\ k a st1 = Ok (b, st').
Proof.
  unfold bind. destruct (m st) as [[a st1]|e]; [eauto | discriminate].
Qed.

Lemma lift_inv {A} (r : result A) st a st' :
  lift r st = Ok (a, st') -> r = Ok a /\ st' = st.
Proof. unfold lift. destruct r; intros H; inversion H; auto. Qed.

Lemma rbind_inv {A B} (r : result A) (k : A -> result B) b :
  rbind r k = Ok b -> exists a, r = Ok a /\ k a = Ok b.
Proof. destruct r; simpl; [eauto | discriminate]. Qed.

Lemma deref_inv h l o : deref h l = Ok o -> h !! l = Some o.
Proof. unfold deref. destruct (h !! l); intros H; inversion H; auto. Qed.

Lemma deref_ok h l o : h !! l = Some o -> deref h l = Ok o.
Proof. unfold deref. intros ->. reflexivity. Qed.

(** ** Strings *)

Lemma string_app_assoc (a b c : string) : (a +:+ b) +:+ c = a +:+ (b +:+ c).
Proof.
  induction a as [|x a IH]; [reflexivity|].
  change (String x ((a +:+ b) +:+ c) = String x (a +:+ (b +:+ c))).
  by rewrite IH.
Qed.

Lemma string_app_nil_r (a : string) : a +:+ "" = a.
Proof.
  induction a as [|x a IH]; [reflexivity|].
  change (String x (a +:+ "") = String x a). by rewrite IH.
Qed.

Lemma string_app_nil_l (a : string) : "" +:+ a = a.
Proof. reflexivity. Qed.

Lemma string_app_eq_nil (a b : string) : a +:+ b = "" -> a = "" /\ b = "".
Proof. destruct a; [auto | discriminate]. Qed.

Lemma str_truthy_app_r (a b : string) :
  str_truthy b = true -> str_truthy (a +:+ b) = true.
Proof.
  unfold str_truthy. intros Hb.
  apply negb_true_iff, bool_decide_eq_false in Hb.
  apply negb_true_iff, bool_decide_eq_false.
  intros [_ ?]%string_app_eq_nil. contradiction.
Qed.

Lemma str_truthy_app_l (a b : string) :
  str_truthy a = true -> str_truthy (a +:+ b) = true.
Proof.
  unfold str_truthy. intros Ha.
  apply negb_true_iff, bool_decide_eq_false in Ha.
  apply negb_true_iff, bool_decide_eq_false.
  intros [? _]%string_app_eq_nil. contradiction.
Qed.

Lemma fold_suffix (elems : list string) (acc : string) :
  fold_left (fun acc elem => (acc +:+ "_") +:+ elem) elems acc
  = acc +:+ joined elems.
Proof.
  revert acc. induction elems as [|e rest IH]; intros acc; simpl.
  - by rewrite string_app_nil_r.
  - rewrite IH. by rewrite !string_app_assoc.
Qed.

Lemma add_suffix_eq tag elems class_name :
  add_suffix tag elems class_name = class_name +:+ tag +:+ joined elems.
Proof. unfold add_suffix. by rewrite fold_suffix, string_app_assoc. Qed.

Lemma str_truthy_suffix tag elems class_name :
  str_truthy tag = true -> str_truthy (add_suffix tag elems class_name) = true.
Proof.
  intros Ht. rewrite add_suffix_eq.
  by apply str_truthy_app_r, str_truthy_app_l.
Qed.

(** ** The identity key *)

Section KeyFacts.

Variable cls_name : cls -> string.

Lemma get_schema_ref_inst h l o :
  h !! l = Some o ->
  get_schema_ref cls_name h (PInst l) = Ok (instance_ref cls_name o).
Proof.
  intros Hl. unfold get_schema_ref, instance_ref.
  rewrite (deref_ok _ _ _ Hl). cbn [rbind].
  destruct (o_exclude o) as [|x ex] eqn:Hex, (o_only o) as [|y on] eqn:Hon;
    cbn [coll_truthy].
  - reflexivity.
  - rewrite str_truthy_suffix by reflexivity.
    by rewrite add_suffix_eq, string_app_nil_l.
  - rewrite str_truthy_suffix by reflexivity.
    by rewrite add_suffix_eq, string_app_nil_l.
  - rewrite str_truthy_suffix by reflexivity.
    by rewrite !add_suffix_eq, string_app_nil_l, !string_app_assoc.
Qed.

Lemma get_schema_ref_inst_inv h l k :
  get_schema_ref cls_name h (PInst l) = Ok k ->
  exists o, h !! l = Some o /\ k = instance_ref cls_name o.
Proof.
  intros H. destruct (h !! l) as [o|] eqn:Hl.
  - rewrite (get_schema_ref_inst _ _ _ Hl) in H. inversion H. eauto.
  - unfold get_schema_ref, deref in H. rewrite Hl in H. discriminate.
Qed.

Lemma get_schema_ref_inst_none h l :
  h !! l = None -> get_schema_ref cls_name h (PInst l) = Raise InvalidReference.
Proof. intros Hl. unfold get_schema_ref, deref. by rewrite Hl. Qed.

Lemma instance_ref_truthy o : key_truthy (instance_ref cls_name o) = true.
Proof.
  unfold instance_ref.
  destruct (o_exclude o), (o_only o); cbn [key_truthy]; try reflexivity;
    apply str_truthy_app_r, str_truthy_app_l; reflexivity.
Qed.

Lemma get_schema_ref_truthy h v k :
  get_schema_ref cls_name h v = Ok k -> key_truthy k = true.
Proof.
  destruct v; try (intros H; inversion H; reflexivity).
  intros (o & _ & ->)%get_schema_ref_inst_inv. apply instance_ref_truthy.
Qed.

Lemma instance_ref_with_many o b :
  instance_ref cls_name (with_many o b) = instance_ref cls_name o.
Proof. reflexivity. Qed.

End KeyFacts.

(** ** States reached by a run *)

Lemma extends_refl st : extends st st.
Proof.
  split; [auto | reflexivity | exists []; by rewrite app_nil_r].
Qed.

Lemma extends_trans st1 st2 st3 :
  extends st1 st2 -> extends st2 st3 -> extends st1 st3.
Proof.
  intros [H1 R1 [e1 T1]] [H2 R2 [e2 T2]]. split.
  - auto.
  - congruence.
  - exists (e1 ++ e2). by rewrite T2, T1, app_assoc.
Qed.

Lemma extends_event st e : extends st (with_event st e).
Proof. split; simpl; [auto | reflexivity | eauto]. Qed.

Lemma extends_object st o : extends st (with_object st o).
Proof.
  split; simpl; [| reflexivity | exists []; by rewrite app_nil_r].
  intros l o' Hl. by apply lookup_app_l_Some.
Qed.

Lemma extends_refs st r : extends st (with_refs st r).
Proof.
  split; simpl; [auto | reflexivity | exists []; by rewrite app_nil_r].
Qed.

Lemma discovered_refl st k : discovered st st k.
Proof. by left. Qed.

Lemma discovered_trans st1 st2 st3 k :
  schema_name_resolver st2 = schema_name_resolver st1 ->
  discovered st1 st2 k -> discovered st2 st3 k -> discovered st1 st3 k.
Proof.
  intros HR H12 H23.
  assert (policy_name st2 k = policy_name st1 k) as HP
    by (unfold policy_name; by rewrite HR).
  destruct H12 as [E12 | (N1 & P1 & E12)], H23 as [E23 | (N2 & P2 & E23)].
  - left. congruence.
  - right. rewrite <- E12, <- HP. auto.
  - right. rewrite E23. auto.
  - rewrite E12 in N2. rewrite N2 in P1. by destruct P1.
Qed.

(** A change of state that leaves the registry and the policy alone
    does not affect what was discovered. *)
Lemma discovered_from st0 st st' k :
  refs_or_empty st0 = refs_or_empty st ->
  schema_name_resolver st0 = schema_name_resolver st ->
  discovered st st' k -> discovered st0 st' k.
Proof.
  intros Hr Hp. unfold discovered, policy_name. by rewrite Hr, Hp.
Qed.

Lemma copy_set_many_run l o st :
  st_heap st !! l = Some o ->
  (let! c := copy_copy l in set_many c false ;;! ret c) st
  = Ok (length (st_heap st), with_object st (with_many o false)).
Proof.
  intros Hl. unfold copy_copy, bind, get_state, lift, alloc, set_many, ret.
  rewrite (deref_ok _ _ _ Hl). cbn [st_heap].
  rewrite lookup_app_r by lia. rewrite Nat.sub_diag. cbn [lookup list_lookup].
  unfold with_object. cbn. do 3 f_equal.
  rewrite insert_app_r_alt by lia. by rewrite Nat.sub_diag.
Qed.

(** ** Auto-discovery *)

Section Discovery.

Variable cls_name : cls -> string.
Variable cls_fields : cls -> list (string * field).
Variable schema2jsonschema : state -> pyval -> option string -> bool -> pyval.

Lemma inspect_field_plain definition name f st :
  plain_field f = true ->
  inspect_field cls_name definition (name, f) st = Ok (tt, st).
Proof.
  intros Hf. unfold inspect_field.
  destruct f as [l|[l'|c|]|]; try discriminate; reflexivity.
Qed.

Lemma inspect_field_list_of_nested definition name l st :
  inspect_field cls_name definition (name, ListOf (Nested l)) st
  = Raise AttributeError.
Proof. reflexivity. Qed.

Lemma inspect_field_dangling definition name l st :
  st_heap st !! l = None ->
  inspect_field cls_name definition (name, Nested l) st = Raise InvalidReference.
Proof.
  intros Hl. unfold inspect_field, bind, get_state, lift.
  cbn [nested_of_field snd].
  by rewrite (get_schema_ref_inst_none _ _ _ Hl).
Qed.

(** The loop body on a nested field, up to the lookup in the registry. *)
Lemma inspect_field_nested definition name l o st :
  st_heap st !! l = Some o ->
  inspect_field cls_name definition (name, Nested l) st
  = match plug_refs st with
    | None => Raise KeyError
    | Some refs =>
        match refs !! instance_ref cls_name o with
        | Some _ => Ok (tt, st)
        | None =>
            match schema_name_resolver st with
            | None => Raise TypeError
            | Some resolver =>
                match name_truthy (resolver (instance_ref cls_name o)) with
                | Some n =>
                    definition n
                      (PInst (singular_target cls_name st l o).1)
                      (singular_target cls_name st l o).2
                | None => Ok (tt, (singular_target cls_name st l o).2)
                end
            end
        end
    end.
Proof.
  intros Hl. unfold inspect_field.
  unfold bind at 1. cbn [get_state nested_of_field snd].
  rewrite (get_schema_ref_inst _ _ _ _ Hl). cbn [rbind].
  unfold bind at 1. unfold lift at 1. rewrite instance_ref_truthy.
  destruct (plug_refs st) as [refs|]; [|reflexivity].
  destruct (decide (refs !! instance_ref cls_name o = None)) as [E|E].
  2:{ destruct (refs !! instance_ref cls_name o); [reflexivity | congruence]. }
  rewrite E.
  destruct (schema_name_resolver st) as [resolver|]; [|reflexivity].
  unfold bind at 1. unfold emit at 1.
  fold (with_event st (CallResolver (instance_ref cls_name o))).
  unfold bind at 1. unfold schema_many, lift at 1.
  rewrite (deref_ok _ _ _ Hl). cbn [rbind].
  unfold singular_target.
  destruct (o_many o) eqn:Hm.
  - unfold bind at 1.
    rewrite (copy_set_many_run l o (with_event st _)) by exact Hl.
    cbn [fst snd st_heap with_event].
    destruct (name_truthy _); reflexivity.
  - unfold bind at 1. unfold ret at 1. cbn [fst snd].
    destruct (name_truthy _); reflexivity.
Qed.

Lemma singular_target_extends st l o :
  extends st (singular_target cls_name st l o).2.
Proof.
  unfold singular_target. destruct (o_many o); cbn [snd].
  - eapply extends_trans; [apply extends_event | apply extends_object].
  - apply extends_event.
Qed.

Lemma singular_target_refs st l o :
  plug_refs (singular_target cls_name st l o).2 = plug_refs st.
Proof. unfold singular_target. by destruct (o_many o). Qed.

Lemma singular_target_lookup st l o :
  st_heap st !! l = Some o ->
  st_heap (singular_target cls_name st l o).2
    !! (singular_target cls_name st l o).1 = Some (with_many o false).
Proof.
  intros Hl. unfold singular_target. destruct (o_many o) eqn:Hm; cbn [fst snd].
  - cbn. apply list_lookup_middle. reflexivity.
  - cbn. rewrite Hl. f_equal. destruct o; cbn in *. by subst.
Qed.

Lemma singular_target_ref st l o :
  st_heap st !! l = Some o ->
  get_schema_ref cls_name (st_heap (singular_target cls_name st l o).2)
    (PInst (singular_target cls_name st l o).1)
  = Ok (instance_ref cls_name o).
Proof.
  intros Hl.
  by rewrite (get_schema_ref_inst _ _ _ _ (singular_target_lookup _ _ _ Hl)).
Qed.

(** *** What a run of discovery guarantees *)

Section WithDefinition.

Variable definition : string -> pyval -> M unit.
Hypothesis definition_ok : definition_spec cls_name definition.

Lemma inspect_field_sound item st st' :
  inspect_field cls_name definition item st = Ok (tt, st') ->
  extends st st'
  /\ (forall k, discovered st st' k)
  /\ (is_Some (plug_refs st) -> is_Some (plug_refs st')).
Proof.
  destruct item as [name f]. intros Hrun.
  destruct (plain_field f) eqn:Hf.
  { rewrite inspect_field_plain in Hrun by exact Hf.
    inversion Hrun; subst. split; [apply extends_refl | split; [by left | auto]]. }
  destruct f as [l|[l'|c|]|]; try discriminate.
  destruct (st_heap st !! l) as [o|] eqn:Hl.
  2:{ rewrite inspect_field_dangling in Hrun by exact Hl. discriminate. }
  rewrite (inspect_field_nested _ _ _ _ _ Hl) in Hrun.
  destruct (plug_refs st) as [refs|] eqn:Hp; [|discriminate].
  destruct (refs !! instance_ref cls_name o) as [n|] eqn:Hk.
  { inversion Hrun; subst. rewrite Hp.
    split; [apply extends_refl | split; [by left | auto]]. }
  destruct (schema_name_resolver st) as [resolver|] eqn:Hr; [|discriminate].
  pose proof (singular_target_extends st l o) as Hext.
  pose proof (singular_target_refs st l o) as Hrefs.
  assert (refs_or_empty (singular_target cls_name st l o).2 = refs_or_empty st)
    as Hre by (unfold refs_or_empty; by rewrite Hrefs).
  destruct (name_truthy (resolver (instance_ref cls_name o))) as [n|] eqn:Hn.
  - apply definition_ok in Hrun as (key & Hkey & Hext' & Hname & Hothers).
    rewrite singular_target_ref in Hkey by exact Hl.
    inversion Hkey; subst key.
    split; [eapply extends_trans; eauto|]. split.
    + intros k. destruct (decide (k = instance_ref cls_name o)) as [->|Hne].
      * right. unfold refs_or_empty at 1. rewrite Hp.
        unfold policy_name. rewrite Hr, Hn. eauto.
      * eapply discovered_from; [| |apply (Hothers k Hne)]; [by symmetry|].
        symmetry. apply Hext.
    + intros _. unfold refs_or_empty in Hname.
      destruct (plug_refs st'); [eauto|]. by rewrite lookup_empty in Hname.
  - inversion Hrun; subst st'. split; [exact Hext|]. split.
    + intros k. left. by rewrite Hre.
    + by rewrite Hrefs.
Qed.

Lemma inspect_fields_sound items st st' :
  for_each items (inspect_field cls_name definition) st = Ok (tt, st') ->
  extends st st'
  /\ (forall k, discovered st st' k)
  /\ (is_Some (plug_refs st) -> is_Some (plug_refs st')).
Proof.
  revert st. induction items as [|item items IH]; intros st Hrun.
  - inversion Hrun; subst. split; [apply extends_refl | split; [by left | auto]].
  - cbn [for_each] in Hrun. apply bind_inv in Hrun as ([] & st1 & H1 & H2).
    apply inspect_field_sound in H1 as (E1 & D1 & S1).
    apply IH in H2 as (E2 & D2 & S2).
    split; [eapply extends_trans; eauto|]. split; [|auto].
    intros k. eapply discovered_trans; [apply E1 | apply D1 | apply D2].
Qed.

Lemma ensure_refs_run st :
  exists st1, ensure_refs st = Ok (tt, st1)
    /\ extends st st1
    /\ refs_or_empty st1 = refs_or_empty st
    /\ plug_refs st1 = Some (refs_or_empty st)
    /\ st_heap st1 = st_heap st
    /\ st_trace st1 = st_trace st.
Proof.
  unfold ensure_refs, refs_or_empty. destruct (plug_refs st) as [r|] eqn:Hp.
  - exists st. rewrite Hp. split; [reflexivity|]. split; [apply extends_refl|].
    auto.
  - exists (with_refs st ∅). split; [reflexivity|].
    split; [apply extends_refs|]. auto.
Qed.

Lemma inspect_sound schema st st' :
  inspect_schema_for_auto_referencing cls_name definition schema st
  = Ok (tt, st') ->
  extends st st' /\ (forall k, discovered st st' k) /\ is_Some (plug_refs st').
Proof.
  unfold inspect_schema_for_auto_referencing. intros Hrun.
  apply bind_inv in Hrun as (st0 & st1 & H0 & Hrun).
  inversion H0; subst st0 st1; clear H0.
  destruct (schema_name_resolver st) as [resolver|] eqn:Hr; [|discriminate].
  apply bind_inv in Hrun as ([] & st1 & H1 & Hrun).
  apply bind_inv in Hrun as (items & st2 & H2 & Hrun).
  destruct (ensure_refs_run st) as (st1' & H1' & E1 & R1 & S1 & _).
  rewrite H1' in H1. inversion H1; subst st1'; clear H1.
  assert (st2 = st1) as ->.
  { unfold schema_fields in H2. destruct schema; try discriminate.
    destruct (deref _ _); inversion H2; reflexivity. }
  apply inspect_fields_sound in Hrun as (E2 & D2 & S2).
  split; [eapply extends_trans; eauto|]. split.
  - intros k. eapply discovered_from; [| |apply D2]; [by symmetry|].
    symmetry. apply E1.
  - apply S2. rewrite S1. eauto.
Qed.

End WithDefinition.

(** The host's [definition], bound to the helper, honours the contract
    as soon as the helper does. *)
Lemma spec_definition_ok helper :
  helper_spec cls_name helper -> definition_spec cls_name (spec_definition helper).
Proof.
  intros Hh name schema st st' Hrun. unfold spec_definition in Hrun.
  apply bind_inv in Hrun as ([] & st1 & H1 & Hrun).
  apply bind_inv in Hrun as (v & st2 & H2 & Hrun).
  inversion Hrun; subst st2; clear Hrun.
  unfold emit in H1. inversion H1; subst st1; clear H1.
  fold (with_event st (CallDefinition name schema)) in H2.
  apply Hh in H2 as (key & Hkey & Hext & Hname & Hothers).
  exists key. split; [exact Hkey|].
  split; [eapply extends_trans; [apply extends_event | exact Hext]|].
  split; [exact Hname|].
  intros k Hk. eapply discovered_from; [| |apply (Hothers k Hk)]; reflexivity.
Qed.

End Discovery.

(** ** The definition helper *)

Section Helper.

Variable cls_name : cls -> string.
Variable cls_fields : cls -> list (string * field).
Variable schema2jsonschema : state -> pyval -> option string -> bool -> pyval.

Lemma get_schema_instance_run schema st :
  get_schema_instance cls_fields schema st
  = Ok (instantiated cls_fields st schema).
Proof. destruct schema; reflexivity. Qed.

(** One level of the helper, with its intermediate states named. *)
Lemma helper_unfold depth name schema st :
  schema_definition_helper cls_name cls_fields schema2jsonschema (S depth)
    name schema st
  = match get_schema_ref cls_name (st_heap st) schema with
    | Raise e => Raise e
    | Ok key =>
        let inst := (instantiated cls_fields st schema).1 in
        let st2 := bound cls_fields st key name schema in
        let st3 := with_event st2 (CallConvert inst (Some name)) in
        let json_schema := schema2jsonschema st2 inst (Some name) true in
        match schema_name_resolver st with
        | None => Ok (json_schema, st3)
        | Some _ =>
            match inspect_schema_for_auto_referencing cls_name
                    (spec_definition
                       (schema_definition_helper cls_name cls_fields
                          schema2jsonschema depth))
                    inst st3 with
            | Ok (_, st') => Ok (json_schema, st')
            | Raise e => Raise e
            end
        end
    end.
Proof.
  cbn [schema_definition_helper].
  unfold bind at 1. cbn [get_state]. unfold bind at 1. unfold lift at 1.
  destruct (get_schema_ref cls_name (st_heap st) schema) as [key|e];
    [|reflexivity].
  unfold bind at 1.
  rewrite get_schema_instance_run.
  unfold bound.
  destruct (instantiated cls_fields st schema) as [inst st1] eqn:Hi.
  assert (schema_name_resolver st1 = schema_name_resolver st) as Hr.
  { destruct schema; inversion Hi; reflexivity. }
  cbn [fst snd]. rewrite <- Hr.
  unfold bind at 1. unfold ensure_refs at 1. unfold refs_or_empty.
  destruct (plug_refs st1) as [r|] eqn:Hp.
  - unfold bind at 1. cbn [get_state]. unfold bind at 1.
    unfold set_plug_refs at 1. unfold bind at 1. cbn [get_state].
    unfold bind at 1. unfold emit at 1.
    unfold refs_or_empty. rewrite Hp.
    cbn [st_heap plug_refs st_trace schema_name_resolver].
    unfold bind at 1.
    unfold with_event, with_refs.
    cbn [st_heap plug_refs st_trace schema_name_resolver].
    destruct (schema_name_resolver st1); [|reflexivity].
    destruct (inspect_schema_for_auto_referencing _ _ _ _) as [[[] st']|];
      reflexivity.
  - unfold set_plug_refs at 1.
    unfold bind at 1. cbn [get_state]. unfold bind at 1.
    unfold set_plug_refs at 1. unfold bind at 1. cbn [get_state].
    unfold bind at 1. unfold emit at 1.
    unfold refs_or_empty.
    cbn [st_heap plug_refs st_trace schema_name_resolver].
    unfold bind at 1.
    unfold with_event, with_refs.
    cbn [st_heap plug_refs st_trace schema_name_resolver].
    destruct (schema_name_resolver st1); [|reflexivity].
    destruct (inspect_schema_for_auto_referencing _ _ _ _) as [[[] st']|];
      reflexivity.
Qed.

Lemma instantiated_extends st schema :
  extends st (instantiated cls_fields st schema).2.
Proof.
  destruct schema; cbn [instantiated snd]; try apply extends_refl.
  apply extends_object.
Qed.

Lemma instantiated_refs st schema :
  plug_refs (instantiated cls_fields st schema).2 = plug_refs st.
Proof. by destruct schema. Qed.

Lemma instantiated_trace st schema :
  st_trace (instantiated cls_fields st schema).2 = st_trace st.
Proof. by destruct schema. Qed.

Lemma bound_extends st key name schema :
  extends st (bound cls_fields st key name schema).
Proof.
  unfold bound. eapply extends_trans; [apply instantiated_extends|].
  apply extends_refs.
Qed.

Lemma bound_refs st key name schema :
  refs_or_empty (bound cls_fields st key name schema)
  = <[key := name]> (refs_or_empty st).
Proof.
  unfold bound, refs_or_empty. cbn [with_refs plug_refs].
  by rewrite instantiated_refs.
Qed.

Lemma bound_trace st key name schema :
  st_trace (bound cls_fields st key name schema) = st_trace st.
Proof. unfold bound. cbn. apply instantiated_trace. Qed.

(** Every successful call binds its key to the given name, keeps the
    objects and the policy, and otherwise only adds entries for keys that
    had none, under the names of the policy. *)
Lemma helper_sound depth :
  helper_spec cls_name
    (schema_definition_helper cls_name cls_fields schema2jsonschema depth).
Proof.
  induction depth as [|depth IH]; intros name schema st v st' Hrun.
  { discriminate. }
  rewrite helper_unfold in Hrun.
  destruct (get_schema_ref cls_name (st_heap st) schema) as [key|] eqn:Hkey;
    [|discriminate].
  exists key. split; [reflexivity|]. cbn zeta in Hrun.
  pose proof (bound_extends st key name schema) as Hb.
  pose proof (bound_refs st key name schema) as Hbr.
  set (st2 := bound cls_fields st key name schema) in *.
  set (inst := (instantiated cls_fields st schema).1) in *.
  set (st3 := with_event st2 (CallConvert inst (Some name))) in *.
  assert (extends st st3) as H3
    by (eapply extends_trans; [exact Hb | apply extends_event]).
  assert (refs_or_empty st3 = <[key := name]> (refs_or_empty st)) as H3r
    by exact Hbr.
  destruct (schema_name_resolver st) as [resolver|] eqn:Hr.
  - destruct (inspect_schema_for_auto_referencing _ _ _ _) as [[[] st4]|] eqn:Hi;
      [|discriminate].
    inversion Hrun; subst v st4; clear Hrun.
    apply (inspect_sound cls_name _ (spec_definition_ok cls_name _ IH))
      in Hi as (E & D & _).
    split; [eapply extends_trans; eauto|]. split.
    + destruct (D key) as [Eq | (N & _)].
      * rewrite Eq, H3r. apply lookup_insert_eq.
      * rewrite H3r, lookup_insert_eq in N. discriminate.
    + intros k Hk. destruct (D k) as [Eq | (N & P & Eq)].
      * left. rewrite Eq, H3r. by apply lookup_insert_ne.
      * right. rewrite H3r, lookup_insert_ne in N by done.
        unfold policy_name in *. rewrite (ext_resolver _ _ H3) in *. eauto.
  - inversion Hrun; subst v st'; clear Hrun.
    split; [exact H3|]. split.
    + rewrite H3r. apply lookup_insert_eq.
    + intros k Hk. left. rewrite H3r. by apply lookup_insert_ne.
Qed.

(** Every successful call converts the schema it was given, whatever
    the registry held. *)
Lemma helper_converts depth name schema st v st' :
  schema_definition_helper cls_name cls_fields schema2jsonschema depth
    name schema st = Ok (v, st') ->
  exists key evs,
    get_schema_ref cls_name (st_heap st) schema = Ok key
    /\ v = schema2jsonschema (bound cls_fields st key name schema)
             (instantiated cls_fields st schema).1 (Some name) true
    /\ st_trace st'
       = st_trace st
         ++ CallConvert (instantiated cls_fields st schema).1 (Some name) :: evs.
Proof.
  destruct depth as [|depth]; [discriminate|]. intros Hrun.
  rewrite helper_unfold in Hrun.
  destruct (get_schema_ref cls_name (st_heap st) schema) as [key|] eqn:Hkey;
    [|discriminate].
  exists key. cbn zeta in Hrun.
  destruct (schema_name_resolver st) as [resolver|] eqn:Hr.
  - destruct (inspect_schema_for_auto_referencing _ _ _ _) as [[[] st4]|] eqn:Hi;
      [|discriminate].
    inversion Hrun; subst v st4; clear Hrun.
    apply (inspect_sound cls_name _
             (spec_definition_ok cls_name _ (helper_sound depth)))
      in Hi as ([_ _ [evs Ht]] & _).
    exists evs. split; [reflexivity|]. split; [reflexivity|].
    rewrite Ht. cbn [with_event st_trace]. rewrite bound_trace.
    by rewrite <- app_assoc.
  - inversion Hrun; subst v st'; clear Hrun.
    exists []. split; [reflexivity|]. split; [reflexivity|].
    cbn [with_event st_trace]. by rewrite bound_trace.
Qed.

End Helper.

(** ** The identity key: statements *)

(** C3.  [get_schema_ref] is a function of the store and of its argument
    alone, and returns a key for every class and every allocated instance:
    the class itself for a class; for an instance the class name followed
    by "Without" and the excluded names, each preceded by "_", in
    iteration order, when only [exclude] is non-empty; the same with "Only"
    when only [only] is non-empty; the "Without" suffix followed by the
    "Only" suffix when both are; and the instance's class when neither
    is. *)
Theorem get_schema_ref_cases (cls_name : cls -> string) (h : list schema_obj)
    (l : loc) (o : schema_obj) :
  h !! l = Some o ->
  (forall c, get_schema_ref cls_name h (PClass c) = Ok (KType (TSchema c)))
  /\ (o_exclude o <> [] -> o_only o = [] ->
      get_schema_ref cls_name h (PInst l)
      = Ok (KName (cls_name (o_class o) +:+ "Without" +:+ joined (o_exclude o))))
  /\ (o_exclude o = [] -> o_only o <> [] ->
      get_schema_ref cls_name h (PInst l)
      = Ok (KName (cls_name (o_class o) +:+ "Only" +:+ joined (o_only o))))
  /\ (o_exclude o <> [] -> o_only o <> [] ->
      get_schema_ref cls_name h (PInst l)
      = Ok (KName (cls_name (o_class o) +:+ "Without" +:+ joined (o_exclude o)
                   +:+ "Only" +:+ joined (o_only o))))
  /\ (o_exclude o = [] -> o_only o = [] ->
      get_schema_ref cls_name h (PInst l) = Ok (KType (TSchema (o_class o)))).
Proof.
  intros Hl. split; [reflexivity|].
  rewrite (get_schema_ref_inst _ _ _ _ Hl). unfold instance_ref.
  destruct (o_exclude o), (o_only o); repeat split; intros; congruence.
Qed.

Lemma get_schema_ref_cases_witness :
  ex_heap !! 3 = Some {| o_class := 0; o_exclude := ["id"; "email"];
                         o_only := []; o_many := false;
                         o_fields := [("pets", Nested 1)] |}
  /\ get_schema_ref ex_cls_name ex_heap (PInst 3)
     = Ok (KName "UserSchemaWithout_id_email").
Proof.
  split; [reflexivity|].
  destruct (get_schema_ref_cases ex_cls_name ex_heap 3 _ eq_refl)
    as (_ & Hwithout & _).
  apply Hwithout; [discriminate | reflexivity].
Defined.

(** C5 as stated fails: two instances of one class that
    exclude the same two fields, named in opposite orders, get different
    keys. *)
Lemma exclude_order_counterexample :
  exists o1 o2,
    ex_heap !! 3 = Some o1 /\ ex_heap !! 4 = Some o2
    /\ o_class o1 = o_class o2
    /\ (forall x, x ∈ o_exclude o1 <-> x ∈ o_exclude o2)
    /\ o_only o1 = o_only o2
    /\ get_schema_ref ex_cls_name ex_heap (PInst 3)
       <> get_schema_ref ex_cls_name ex_heap (PInst 4).
Proof.
  eexists _, _. split; [reflexivity|]. split; [reflexivity|].
  split; [reflexivity|]. split; [|split; [reflexivity | discriminate]].
  intros x. cbn. rewrite !elem_of_cons. tauto.
Qed.

(** C5, amended.  Two instances of one class whose [exclude] collections
    iterate in the same order, and whose [only] collections do, get the
    same key, whatever their [many] and their fields; hence they are
    registered, and looked up, under the same name. *)
Theorem same_restrictions_same_key (cls_name : cls -> string)
    (h : list schema_obj) (l1 l2 : loc) (o1 o2 : schema_obj)
    (refs : gmap schema_ref string) :
  h !! l1 = Some o1 -> h !! l2 = Some o2 ->
  o_class o1 = o_class o2 ->
  o_exclude o1 = o_exclude o2 ->
  o_only o1 = o_only o2 ->
  get_schema_ref cls_name h (PInst l1) = get_schema_ref cls_name h (PInst l2)
  /\ forall k1 k2,
       get_schema_ref cls_name h (PInst l1) = Ok k1 ->
       get_schema_ref cls_name h (PInst l2) = Ok k2 ->
       refs !! k1 = refs !! k2.
Proof.
  intros H1 H2 Hc He Ho.
  rewrite (get_schema_ref_inst _ _ _ _ H1), (get_schema_ref_inst _ _ _ _ H2).
  assert (instance_ref cls_name o1 = instance_ref cls_name o2) as E
    by (unfold instance_ref; by rewrite Hc, He, Ho).
  split; [by rewrite E|]. intros k1 k2 K1 K2. congruence.
Qed.

Lemma same_restrictions_same_key_witness :
  get_schema_ref ex_cls_name ex_heap_list (PInst 3)
  = get_schema_ref ex_cls_name ex_heap_list (PInst 5).
Proof.
  exact (proj1 (same_restrictions_same_key ex_cls_name ex_heap_list 3 5 _ _ ∅
                  eq_refl eq_refl eq_refl eq_refl eq_refl)).
Defined.

(** ** Literal mappings: lemmas *)

Lemma dict_update_with_get k f d v st :
  dict_get d k = Some v ->
  dict_update_with k f d st
  = match f v st with
    | Ok (v', st') => Ok (dict_set d k v', st')
    | Raise e => Raise e
    end.
Proof.
  revert st. induction d as [|[k' w] d IH]; intros st Hg; [discriminate|].
  cbn [dict_get dict_update_with dict_set] in *.
  destruct (decide (k' = k)) as [->|Hne].
  - inversion Hg; subst w. unfold bind, ret.
    destruct (f v st) as [[v' st']|]; reflexivity.
  - unfold bind at 1. rewrite (IH st Hg).
    destruct (f v st) as [[v' st']|]; [|reflexivity].
    unfold ret. destruct (decide (k' = k)); [contradiction | reflexivity].
Qed.

Lemma dict_get_set_ne d k k' v :
  k' <> k -> dict_get (dict_set d k v) k' = dict_get d k'.
Proof.
  intros Hne. induction d as [|[k0 w] d IH]; cbn [dict_set dict_get].
  - destruct (decide (k = k')); [congruence | reflexivity].
  - destruct (decide (k0 = k)) as [->|H0]; cbn [dict_get].
    + destruct (decide (k = k')); [congruence|reflexivity].
    + destruct (decide (k0 = k')); [reflexivity | exact IH].
Qed.

Lemma dict_get_set_eq d k v : dict_get (dict_set d k v) k = Some v.
Proof.
  induction d as [|[k0 w] d IH]; cbn [dict_set dict_get].
  - destruct (decide (k = k)); [reflexivity | contradiction].
  - destruct (decide (k0 = k)) as [->|H0]; cbn [dict_get].
    + destruct (decide (k = k)); [reflexivity | contradiction].
    + destruct (decide (k0 = k)); [contradiction | exact IH].
Qed.

Lemma dict_set_keys d k v w :
  dict_get d k = Some w -> map fst (dict_set d k v) = map fst d.
Proof.
  induction d as [|[k0 u] d IH]; cbn [dict_set dict_get]; [discriminate|].
  destruct (decide (k0 = k)) as [->|H0]; [reflexivity|].
  intros Hg. cbn. by rewrite IH.
Qed.

Lemma dict_map_values_cons f k v rest st :
  dict_map_values f ((k, v) :: rest) st
  = match f v st with
    | Ok (v', st1) =>
        match dict_map_values f rest st1 with
        | Ok (r, st2) => Ok ((k, v') :: r, st2)
        | Raise e => Raise e
        end
    | Raise e => Raise e
    end.
Proof.
  cbn [dict_map_values]. unfold bind, ret.
  destruct (f v st) as [[v' st1]|]; [|reflexivity].
  destruct (dict_map_values f rest st1) as [[r st2]|]; reflexivity.
Qed.

(** ** Reference resolution *)

Section Resolution.

Variable cls_name : cls -> string.
Variable get_class : string -> option cls.
Variable schema2jsonschema : state -> pyval -> option string -> bool -> pyval.

Lemma resolve_class c dump use_instances st :
  resolve_schema_dict cls_name get_class schema2jsonschema
    (PClass c) dump use_instances st
  = match refs_or_empty st !! KType (TSchema c) with
    | Some name => Ok (ref_schema name, st)
    | None =>
        Ok (schema2jsonschema st (PClass c) None dump,
            with_event st (CallConvert (PClass c) None))
    end.
Proof.
  cbn [resolve_schema_dict]. unfold resolve_schema_ref.
  unfold bind, get_state, lift. cbn.
  destruct (refs_or_empty st !! KType (TSchema c)); reflexivity.
Qed.

Lemma resolve_instance l o dump use_instances st :
  st_heap st !! l = Some o ->
  resolve_schema_dict cls_name get_class schema2jsonschema
    (PInst l) dump use_instances st
  = match refs_or_empty st !! instance_ref cls_name o with
    | Some name =>
        Ok (if o_many o then array_of (ref_schema name) else ref_schema name, st)
    | None =>
        Ok (schema2jsonschema st (PInst l) None dump,
            with_event st (CallConvert (PInst l) None))
    end.
Proof.
  intros Hl. cbn [resolve_schema_dict]. unfold resolve_schema_ref.
  unfold bind at 1. cbn [get_state]. unfold bind at 1.
  assert (lift (if use_instances then Ok (PInst l)
                else let? c := resolve_schema_cls get_class (st_heap st) (PInst l)
                     in Ok (PClass c)) st
          = Ok (if use_instances then PInst l else PClass (o_class o), st)) as ->.
  { destruct use_instances; [reflexivity|].
    cbn. by rewrite (deref_ok _ _ _ Hl). }
  unfold bind at 1. rewrite (get_schema_ref_inst _ _ _ _ Hl).
  cbn [lift]. rewrite instance_ref_truthy.
  destruct (refs_or_empty st !! instance_ref cls_name o).
  - unfold bind, lift, schema_many. rewrite (deref_ok _ _ _ Hl). cbn.
    destruct (o_many o); reflexivity.
  - reflexivity.
Qed.

Lemma resolve_name s c dump use_instances st :
  get_class s = Some c ->
  resolve_schema_dict cls_name get_class schema2jsonschema
    (PStr s) dump use_instances st
  = match refs_or_empty st !! KType TStr with
    | Some name => Ok (ref_schema name, st)
    | None =>
        Ok (schema2jsonschema st (PClass c) None dump,
            with_event st (CallConvert (PClass c) None))
    end.
Proof.
  intros Hc. cbn [resolve_schema_dict]. unfold resolve_schema_ref.
  unfold bind, get_state, lift. cbn. rewrite Hc. cbn.
  destruct (refs_or_empty st !! KType TStr); reflexivity.
Qed.

End Resolution.

(** ** Reference resolution: statements *)

(** A registered class, and an instance of it without restrictions,
    resolve to the pointer; an instance with [many] set resolves to an
    array of the pointer. *)
Lemma registered_resolves_to_pointer (cls_name : cls -> string)
    (get_class : string -> option cls)
    (schema2jsonschema : state -> pyval -> option string -> bool -> pyval)
    (c : cls) (name : string) (l : loc) (o : schema_obj)
    (dump use_instances : bool) (st : state) :
  refs_or_empty st !! KType (TSchema c) = Some name ->
  st_heap st !! l = Some o ->
  o_class o = c -> o_exclude o = [] -> o_only o = [] ->
  resolve_schema_dict cls_name get_class schema2jsonschema
    (PClass c) dump use_instances st
  = Ok (PDict [(DStr "$ref", PStr ("#/definitions/" +:+ name))], st)
  /\ resolve_schema_dict cls_name get_class schema2jsonschema
       (PInst l) dump use_instances st
     = Ok (if o_many o then
             PDict [(DStr "type", PStr "array");
                    (DStr "items",
                     PDict [(DStr "$ref", PStr ("#/definitions/" +:+ name))])]
           else PDict [(DStr "$ref", PStr ("#/definitions/" +:+ name))], st).
Proof.
  intros Hk Hl Hc He Ho. split.
  - rewrite resolve_class. by rewrite Hk.
  - rewrite (resolve_instance _ _ _ _ _ _ _ _ Hl).
    unfold instance_ref. rewrite He, Ho, Hc, Hk. reflexivity.
Qed.

(** A name string never resolves to the pointer of the class registered
    under it: its key is the type of strings, so the schema is converted
    inline, whether or not its class is registered. *)
Lemma name_string_inline (cls_name : cls -> string)
    (get_class : string -> option cls)
    (schema2jsonschema : state -> pyval -> option string -> bool -> pyval)
    (s : string) (c : cls) (dump use_instances : bool) (st : state) :
  get_class s = Some c ->
  refs_or_empty st !! KType TStr = None ->
  resolve_schema_dict cls_name get_class schema2jsonschema
    (PStr s) dump use_instances st
  = Ok (schema2jsonschema st (PClass c) None dump,
        with_event st (CallConvert (PClass c) None)).
Proof. intros Hc Hk. rewrite (resolve_name _ _ _ _ _ _ _ _ Hc). by rewrite Hk. Qed.

(** C2, at the failing input.  After [UserSchema] is declared as "User",
    the class and an instance resolve to the pointer and an instance with
    [many] set to an array of it, while the name string "UserSchema"
    resolves to the inline object descriptor. *)
Theorem name_string_resolves_inline :
  exists v st,
    ex_user_declared = Ok (v, st)
    /\ refs_or_empty st !! KType (TSchema 0) = Some "User"
    /\ ex_get_class "UserSchema" = Some 0
    /\ resolve_schema_dict ex_cls_name ex_get_class ex_schema2jsonschema
         (PClass 0) true false st
       = Ok (PDict [(DStr "$ref", PStr "#/definitions/User")], st)
    /\ resolve_schema_dict ex_cls_name ex_get_class ex_schema2jsonschema
         (PInst 2) true false st
       = Ok (PDict [(DStr "$ref", PStr "#/definitions/User")], st)
    /\ resolve_schema_dict ex_cls_name ex_get_class ex_schema2jsonschema
         (PStr "UserSchema") true false st
       = Ok (PDict [(DStr "type", PStr "object"); (DStr "properties", PDict [])],
             with_event st (CallConvert (PClass 0) None)).
Proof.
  eexists _, _. split; [vm_compute; reflexivity|].
  repeat split; vm_compute; reflexivity.
Qed.

(** C6.  A class or an instance whose key has no entry in the registry
    resolves to what the converter returns for it, and the call leaves the
    registry, the store and the naming policy as they were: the only
    effect is the recorded call of the converter. *)
Theorem unregistered_resolves_inline (cls_name : cls -> string)
    (get_class : string -> option cls)
    (schema2jsonschema : state -> pyval -> option string -> bool -> pyval)
    (schema : pyval) (key : schema_ref) (dump use_instances : bool)
    (st : state) :
  is_schema schema = true ->
  get_schema_ref cls_name (st_heap st) schema = Ok key ->
  refs_or_empty st !! key = None ->
  exists st',
    resolve_schema_dict cls_name get_class schema2jsonschema
      schema dump use_instances st
    = Ok (schema2jsonschema st schema None dump, st')
    /\ plug_refs st' = plug_refs st
    /\ st_heap st' = st_heap st
    /\ schema_name_resolver st' = schema_name_resolver st
    /\ st_trace st' = st_trace st ++ [CallConvert schema None].
Proof.
  intros Hs Hkey Hnone.
  exists (with_event st (CallConvert schema None)).
  split; [|by repeat split].
  destruct schema as [| | | | | |c|l]; try discriminate.
  - inversion Hkey; subst key. rewrite resolve_class. by rewrite Hnone.
  - apply get_schema_ref_inst_inv in Hkey as (o & Hl & ->).
    rewrite (resolve_instance _ _ _ _ _ _ _ _ Hl). by rewrite Hnone.
Qed.

Lemma unregistered_resolves_inline_witness :
  exists st',
    resolve_schema_dict ex_cls_name ex_get_class ex_schema2jsonschema
      (PInst 1) true false ex_start
    = Ok (ex_schema2jsonschema ex_start (PInst 1) None true, st')
    /\ plug_refs st' = plug_refs ex_start
    /\ st_heap st' = st_heap ex_start
    /\ schema_name_resolver st' = schema_name_resolver ex_start
    /\ st_trace st' = st_trace ex_start ++ [CallConvert (PInst 1) None].
Proof.
  apply (unregistered_resolves_inline ex_cls_name ex_get_class
           ex_schema2jsonschema (PInst 1) (KType (TSchema 1)) true false
           ex_start); reflexivity.
Defined.

(** C7.  A literal mapping that is not an array with an [items] member
    is returned as it is.  In an array with an [items] member the resolver
    is applied to that member and to nothing else: the result is the same
    mapping with the resolved value stored under [items]; every other
    member, [type] included, and the order of the keys are as before.
    What is stored under [items] is the resolution of the reference: for a
    class or an instance whose key is registered, the pointer to the
    registered name (an array of it for an instance with [many] set), with
    the state unchanged; for a class or an instance whose key is not
    registered, what the converter returns for it with [dump] set, the
    conversion being recorded. *)
Theorem literal_mapping_resolution (cls_name : cls -> string)
    (get_class : string -> option cls)
    (schema2jsonschema : state -> pyval -> option string -> bool -> pyval)
    (d : list (dkey * pyval)) (dump use_instances : bool) (st : state) :
  (type_is_array d && dict_mem d (DStr "items") = false ->
   resolve_schema_dict cls_name get_class schema2jsonschema
     (PDict d) dump use_instances st = Ok (PDict d, st))
  /\ (forall items,
        type_is_array d = true ->
        dict_get d (DStr "items") = Some items ->
        resolve_schema_dict cls_name get_class schema2jsonschema
          (PDict d) dump use_instances st
        = match resolve_schema_dict cls_name get_class schema2jsonschema
                  items true use_instances st with
          | Ok (items', st') => Ok (PDict (dict_set d (DStr "items") items'), st')
          | Raise e => Raise e
          end
        /\ forall items',
             map fst (dict_set d (DStr "items") items') = map fst d
             /\ dict_get (dict_set d (DStr "items") items') (DStr "type")
                = Some (PStr "array")
             /\ forall k, k <> DStr "items" ->
                  dict_get (dict_set d (DStr "items") items') k = dict_get d k)
  /\ (forall c,
        type_is_array d = true ->
        dict_get d (DStr "items") = Some (PClass c) ->
        resolve_schema_dict cls_name get_class schema2jsonschema
          (PDict d) dump use_instances st
        = match refs_or_empty st !! KType (TSchema c) with
          | Some name =>
              Ok (PDict (dict_set d (DStr "items")
                           (PDict [(DStr "$ref",
                                    PStr ("#/definitions/" +:+ name))])), st)
          | None =>
              Ok (PDict (dict_set d (DStr "items")
                           (schema2jsonschema st (PClass c) None true)),
                  with_event st (CallConvert (PClass c) None))
          end)
  /\ (forall l o,
        type_is_array d = true ->
        dict_get d (DStr "items") = Some (PInst l) ->
        st_heap st !! l = Some o ->
        resolve_schema_dict cls_name get_class schema2jsonschema
          (PDict d) dump use_instances st
        = match refs_or_empty st !! instance_ref cls_name o with
          | Some name =>
              Ok (PDict (dict_set d (DStr "items")
                           (if o_many o then
                              PDict [(DStr "type", PStr "array");
                                     (DStr "items",
                                      PDict [(DStr "$ref",
                                              PStr ("#/definitions/" +:+ name))])]
                            else
                              PDict [(DStr "$ref",
                                      PStr ("#/definitions/" +:+ name))])), st)
          | None =>
              Ok (PDict (dict_set d (DStr "items")
                           (schema2jsonschema st (PInst l) None true)),
                  with_event st (CallConvert (PInst l) None))
          end).
Proof.
  assert (forall items,
            type_is_array d = true ->
            dict_get d (DStr "items") = Some items ->
            resolve_schema_dict cls_name get_class schema2jsonschema
              (PDict d) dump use_instances st
            = match resolve_schema_dict cls_name get_class schema2jsonschema
                      items true use_instances st with
              | Ok (items', st') =>
                  Ok (PDict (dict_set d (DStr "items") items'), st')
              | Raise e => Raise e
              end) as Hrel.
  { intros items Ha Hi.
    cbn [resolve_schema_dict]. unfold dict_mem. rewrite Ha, Hi.
    cbn [andb]. unfold bind.
    rewrite (dict_update_with_get _ _ _ _ _ Hi).
    destruct (resolve_schema_dict _ _ _ items true use_instances st)
      as [[items' st']|]; reflexivity. }
  split; [|split; [|split]].
  - intros Hc. cbn [resolve_schema_dict]. by rewrite Hc.
  - intros items Ha Hi. split; [by apply Hrel|].
    intros items'. split; [by eapply dict_set_keys|]. split.
    + rewrite dict_get_set_ne by discriminate.
      unfold type_is_array in Ha.
      destruct (dict_get d (DStr "type")) as [[]|]; try discriminate.
      by apply bool_decide_eq_true in Ha as ->.
    + intros k Hk. by apply dict_get_set_ne.
  - intros c Ha Hi. rewrite (Hrel _ Ha Hi), resolve_class.
    destruct (refs_or_empty st !! KType (TSchema c)); reflexivity.
  - intros l o Ha Hi Hl.
    rewrite (Hrel _ Ha Hi), (resolve_instance _ _ _ _ _ _ _ _ Hl).
    destruct (refs_or_empty st !! instance_ref cls_name o); reflexivity.
Qed.

Lemma literal_mapping_resolution_witness :
  resolve_schema_dict ex_cls_name ex_get_class ex_schema2jsonschema
    (PDict [(DStr "description", PStr "pets")]) true false ex_preregistered
  = Ok (PDict [(DStr "description", PStr "pets")], ex_preregistered)
  /\ resolve_schema_dict ex_cls_name ex_get_class ex_schema2jsonschema
       (PDict [(DStr "type", PStr "array"); (DStr "items", PClass 1);
               (DStr "description", PStr "pets")])
       false false ex_preregistered
     = Ok (PDict [(DStr "type", PStr "array");
                  (DStr "items",
                   PDict [(DStr "$ref", PStr "#/definitions/Animal")]);
                  (DStr "description", PStr "pets")],
           ex_preregistered)
  /\ resolve_schema_dict ex_cls_name ex_get_class
       (fun _ _ _ dump => PBool dump)
       (PDict [(DStr "type", PStr "array"); (DStr "items", PInst 2)])
       false false ex_preregistered
     = Ok (PDict [(DStr "type", PStr "array"); (DStr "items", PBool true)],
           with_event ex_preregistered (CallConvert (PInst 2) None)).
Proof.
  split; [|split].
  - apply (literal_mapping_resolution ex_cls_name ex_get_class
             ex_schema2jsonschema [(DStr "description", PStr "pets")]
             true false ex_preregistered).
    reflexivity.
  - apply (proj1 (proj2 (proj2
             (literal_mapping_resolution ex_cls_name ex_get_class
                ex_schema2jsonschema
                [(DStr "type", PStr "array"); (DStr "items", PClass 1);
                 (DStr "description", PStr "pets")]
                false false ex_preregistered))) 1); reflexivity.
  - apply (proj2 (proj2 (proj2
             (literal_mapping_resolution ex_cls_name ex_get_class
                (fun _ _ _ dump => PBool dump)
                [(DStr "type", PStr "array"); (DStr "items", PInst 2)]
                false false ex_preregistered))) 2
             {| o_class := 0; o_exclude := []; o_only := []; o_many := false;
                o_fields := [("id", OtherField); ("pets", Nested 1);
                             ("tags", ListOf OtherField)] |});
      reflexivity.
Defined.

(** ** The operation rewriter *)

Section Operations.

Variable cls_name : cls -> string.
Variable get_class : string -> option cls.
Variable schema2jsonschema : state -> pyval -> option string -> bool -> pyval.
Variable schema2parameters : state -> cls -> pyval -> list pyval.

Lemma resolve_operation_skip operation st :
  is_dict operation = false ->
  resolve_operation cls_name get_class schema2jsonschema schema2parameters
    operation st = Ok (operation, st).
Proof. destruct operation; try discriminate; reflexivity. Qed.

Lemma resolve_operation_mapping operation st v st' :
  is_dict operation = true ->
  resolve_operation cls_name get_class schema2jsonschema schema2parameters
    operation st = Ok (v, st') ->
  is_dict v = true.
Proof.
  destruct operation as [| | | | |op| |]; try discriminate. intros _.
  cbn [resolve_operation]. intros Hrun.
  apply bind_inv in Hrun as (op1 & st1 & _ & Hrun).
  destruct (dict_get op1 (DStr "responses")) as [[| | | | |rs| |]|];
    try discriminate.
  - apply bind_inv in Hrun as (rs' & st2 & _ & Hrun).
    inversion Hrun. reflexivity.
  - inversion Hrun. reflexivity.
Qed.

End Operations.

(** C9.  The operation rewriter passes over every entry whose value is not
    a mapping: the entry raises nothing, stays where it is with the value
    it had, and the run as a whole ends, in error or with its results and
    final state, exactly as the run over the mapping-valued entries alone
    does. *)
Theorem operation_resolver_skips_non_mappings (cls_name : cls -> string)
    (get_class : string -> option cls)
    (schema2jsonschema : state -> pyval -> option string -> bool -> pyval)
    (schema2parameters : state -> cls -> pyval -> list pyval)
    (operations : list (dkey * pyval)) (st : state) :
  (forall operation st0,
     is_dict operation = false ->
     resolve_operation cls_name get_class schema2jsonschema schema2parameters
       operation st0 = Ok (operation, st0))
  /\ match schema_operation_resolver cls_name get_class schema2jsonschema
             schema2parameters operations st with
     | Ok (resolved, st') =>
         schema_operation_resolver cls_name get_class schema2jsonschema
           schema2parameters (mapping_entries operations) st
         = Ok (mapping_entries resolved, st')
         /\ map fst resolved = map fst operations
         /\ forall i k v,
              operations !! i = Some (k, v) -> is_dict v = false ->
              resolved !! i = Some (k, v)
     | Raise e =>
         schema_operation_resolver cls_name get_class schema2jsonschema
           schema2parameters (mapping_entries operations) st = Raise e
     end.
Proof.
  split; [intros; by apply resolve_operation_skip|].
  unfold schema_operation_resolver. revert st.
  induction operations as [|[k v] rest IH]; intros st.
  { cbn. repeat split. intros i k v Hi. by rewrite lookup_nil in Hi. }
  rewrite dict_map_values_cons.
  cbn [mapping_entries List.filter snd]. fold (mapping_entries rest).
  destruct (is_dict v) eqn:Hv.
  - rewrite dict_map_values_cons.
    destruct (resolve_operation _ _ _ _ v st) as [[v' st1]|e] eqn:Hop;
      [|reflexivity].
    pose proof (resolve_operation_mapping _ _ _ _ _ _ _ _ Hv Hop) as Hv'.
    specialize (IH st1).
    destruct (dict_map_values _ rest st1) as [[r st2]|e] eqn:Hrest.
    + destruct IH as (IH1 & IH2 & IH3). rewrite IH1.
      cbn [mapping_entries List.filter snd]. rewrite Hv'.
      split; [reflexivity|]. split; [cbn; by rewrite IH2|].
      intros [|i] k0 v0 Hi Hd; cbn in *.
      * inversion Hi; subst. congruence.
      * eauto.
    + by rewrite IH.
  - rewrite resolve_operation_skip by exact Hv.
    specialize (IH st).
    destruct (dict_map_values _ rest st) as [[r st2]|e] eqn:Hrest.
    + destruct IH as (IH1 & IH2 & IH3).
      cbn [mapping_entries List.filter snd]. rewrite Hv.
      split; [exact IH1|]. split; [cbn; by rewrite IH2|].
      intros [|i] k0 v0 Hi Hd; cbn in *; eauto.
    + exact IH.
Qed.

(** ** Auto-discovery: statements *)

(** C8.  When the naming policy declines the key of a nested schema that
    is not registered, the loop body ends without an error and without
    calling [spec.definition]: the registry and every object of the store
    are as before.  The key is still without an entry when the whole
    discovery ends, and a later reference to the nested schema resolves to
    the converter's inline descriptor. *)
Theorem declined_schema_stays_unregistered (cls_name : cls -> string)
    (cls_fields : cls -> list (string * field))
    (get_class : string -> option cls)
    (schema2jsonschema : state -> pyval -> option string -> bool -> pyval)
    (definition : string -> pyval -> M unit)
    (fname : string) (l : loc) (o : schema_obj) (key : schema_ref)
    (refs : gmap schema_ref string)
    (resolver : schema_ref -> option string) (st : state) :
  st_heap st !! l = Some o ->
  get_schema_ref cls_name (st_heap st) (PInst l) = Ok key ->
  plug_refs st = Some refs ->
  refs !! key = None ->
  schema_name_resolver st = Some resolver ->
  name_truthy (resolver key) = None ->
  (exists st2,
     inspect_field cls_name definition (fname, Nested l) st = Ok (tt, st2)
     /\ plug_refs st2 = plug_refs st
     /\ (forall l' o', st_heap st !! l' = Some o' -> st_heap st2 !! l' = Some o'))
  /\ (forall depth schema st',
        inspect_schema_for_auto_referencing cls_name
          (spec_definition
             (schema_definition_helper cls_name cls_fields schema2jsonschema
                depth))
          schema st = Ok (tt, st') ->
        refs_or_empty st' !! key = None
        /\ st_heap st' !! l = Some o
        /\ forall dump use_instances,
             resolve_schema_dict cls_name get_class schema2jsonschema
               (PInst l) dump use_instances st'
             = Ok (schema2jsonschema st' (PInst l) None dump,
                   with_event st' (CallConvert (PInst l) None))).
Proof.
  intros Hl Hkey Hp Hk Hr Hn.
  rewrite (get_schema_ref_inst _ _ _ _ Hl) in Hkey.
  inversion Hkey; subst key; clear Hkey. split.
  - exists (singular_target cls_name st l o).2.
    rewrite (inspect_field_nested _ _ _ _ _ _ Hl), Hp, Hk, Hr, Hn.
    split; [reflexivity|]. split; [by rewrite singular_target_refs|].
    apply singular_target_extends.
  - intros depth schema st' Hrun.
    apply (inspect_sound cls_name _
             (spec_definition_ok cls_name _
                (helper_sound cls_name cls_fields schema2jsonschema depth)))
      in Hrun as (E & D & _).
    assert (refs_or_empty st' !! instance_ref cls_name o = None) as Hnone.
    { destruct (D (instance_ref cls_name o)) as [Eq | (_ & P & _)].
      - rewrite Eq. unfold refs_or_empty. by rewrite Hp.
      - unfold policy_name in P. rewrite Hr, Hn in P. by destruct P. }
    pose proof (ext_heap _ _ E _ _ Hl) as Hl'.
    split; [exact Hnone|]. split; [exact Hl'|].
    intros dump use_instances.
    rewrite (resolve_instance _ _ _ _ _ _ _ _ Hl'). by rewrite Hnone.
Qed.

Lemma declined_schema_stays_unregistered_witness :
  exists st2,
    inspect_field ex_cls_name (fun _ _ => raise AssertionError)
      ("pets", Nested 1) ex_declining = Ok (tt, st2)
    /\ plug_refs st2 = plug_refs ex_declining
    /\ (forall l' o', st_heap ex_declining !! l' = Some o' ->
                      st_heap st2 !! l' = Some o').
Proof.
  refine (proj1 (declined_schema_stays_unregistered ex_cls_name ex_cls_fields
            ex_get_class ex_schema2jsonschema (fun _ _ => raise AssertionError)
            "pets" 1 _ (KType (TSchema 1)) ∅ (fun _ => None) ex_declining
            eq_refl eq_refl eq_refl eq_refl eq_refl eq_refl)).
Defined.

(** C10.  When the schema instance of a nested field has [many] set, is
    not registered and is named by the policy, the loop body hands
    [spec.definition] a new object, a copy of the instance whose [many] is
    false, and leaves the instance itself as it was.  When the loop body,
    and when a whole discovery, has ended, every object that was in the
    store before has the attributes it had, so the field's schema instance
    still has [many] set. *)
Theorem discovery_registers_singular_copy (cls_name : cls -> string)
    (cls_fields : cls -> list (string * field))
    (schema2jsonschema : state -> pyval -> option string -> bool -> pyval)
    (depth : nat) (fname : string) (l : loc) (o : schema_obj)
    (key : schema_ref)
    (refs : gmap schema_ref string)
    (resolver : schema_ref -> option string) (n : string) (st : state) :
  st_heap st !! l = Some o ->
  get_schema_ref cls_name (st_heap st) (PInst l) = Ok key ->
  o_many o = true ->
  plug_refs st = Some refs ->
  refs !! key = None ->
  schema_name_resolver st = Some resolver ->
  name_truthy (resolver key) = Some n ->
  let definition :=
    spec_definition
      (schema_definition_helper cls_name cls_fields schema2jsonschema depth) in
  let copy := length (st_heap st) in
  let st2 :=
    with_object (with_event st (CallResolver key)) (with_many o false) in
  inspect_field cls_name definition (fname, Nested l) st
  = definition n (PInst copy) st2
  /\ st_heap st2 !! copy = Some (with_many o false)
  /\ st_heap st2 !! l = Some o
  /\ copy <> l
  /\ (forall st',
        inspect_field cls_name definition (fname, Nested l) st = Ok (tt, st') ->
        st_heap st' !! l = Some o
        /\ st_heap st' !! copy = Some (with_many o false)
        /\ refs_or_empty st' !! key = Some n)
  /\ (forall schema s s',
        inspect_schema_for_auto_referencing cls_name definition schema s
        = Ok (tt, s') ->
        forall l' o', st_heap s !! l' = Some o' -> st_heap s' !! l' = Some o').
Proof.
  intros Hl Hkey Hm Hp Hk Hr Hn.
  rewrite (get_schema_ref_inst _ _ _ _ Hl) in Hkey.
  inversion Hkey; subst key; clear Hkey.
  intros definition copy st2.
  assert (singular_target cls_name st l o = (copy, st2)) as Ht
    by (unfold singular_target; by rewrite Hm).
  assert (inspect_field cls_name definition (fname, Nested l) st
          = definition n (PInst copy) st2) as Hstep.
  { rewrite (inspect_field_nested _ _ _ _ _ _ Hl), Hp, Hk, Hr, Hn.
    by rewrite Ht. }
  assert (st_heap st2 !! copy = Some (with_many o false)) as Hcopy
    by (cbn; by apply list_lookup_middle).
  assert (st_heap st2 !! l = Some o) as Horig
    by (cbn; by apply lookup_app_l_Some).
  assert (definition_spec cls_name definition) as Hdef
    by apply spec_definition_ok, helper_sound.
  split; [exact Hstep|]. split; [exact Hcopy|]. split; [exact Horig|].
  split; [apply lookup_lt_Some in Hl; unfold copy; lia|]. split.
  - intros st' Hrun. rewrite Hstep in Hrun.
    apply Hdef in Hrun as (key & Hkey & E & Hname & _).
    rewrite (get_schema_ref_inst _ _ _ _ Hcopy) in Hkey.
    inversion Hkey; subst key.
    split; [by apply (ext_heap _ _ E)|].
    split; [by apply (ext_heap _ _ E)|]. exact Hname.
  - intros schema s s' Hrun.
    apply (inspect_sound cls_name _ Hdef) in Hrun as (E & _).
    apply E.
Qed.

Lemma discovery_registers_singular_copy_witness :
  inspect_field ex_cls_name
    (spec_definition
       (schema_definition_helper ex_cls_name ex_cls_fields
          ex_schema2jsonschema 2))
    ("pets", Nested 1) ex_discovering
  = spec_definition
      (schema_definition_helper ex_cls_name ex_cls_fields
         ex_schema2jsonschema 2)
      "Pet" (PInst 5)
      (with_object (with_event ex_discovering (CallResolver (KType (TSchema 1))))
         {| o_class := 1; o_exclude := []; o_only := []; o_many := false;
            o_fields := [("name", OtherField); ("category", Nested 0)] |})
  /\ (forall st',
        inspect_field ex_cls_name
          (spec_definition
             (schema_definition_helper ex_cls_name ex_cls_fields
                ex_schema2jsonschema 2))
          ("pets", Nested 1) ex_discovering = Ok (tt, st') ->
        st_heap st' !! 1
        = Some {| o_class := 1; o_exclude := []; o_only := []; o_many := true;
                  o_fields := [("name", OtherField); ("category", Nested 0)] |}).
Proof.
  destruct (discovery_registers_singular_copy ex_cls_name ex_cls_fields
              ex_schema2jsonschema 2 "pets" 1 _ (KType (TSchema 1)) ∅
              ex_resolver "Pet" ex_discovering
              eq_refl eq_refl eq_refl eq_refl eq_refl eq_refl eq_refl)
    as (Hstep & _ & _ & _ & Hafter & _).
  split; [exact Hstep|].
  intros st' Hrun. exact (proj1 (Hafter st' Hrun)).
Defined.

(** ** A chain of nested schemas *)

Section Chain.

Variable cls_name : cls -> string.
Variable cls_fields : cls -> list (string * field).
Variable schema2jsonschema : state -> pyval -> option string -> bool -> pyval.

Lemma spec_definition_run (helper : string -> pyval -> M pyval) n schema st :
  spec_definition helper n schema st
  = match helper n schema (with_event st (CallDefinition n schema)) with
    | Ok (_, st') => Ok (tt, st')
    | Raise e => Raise e
    end.
Proof.
  unfold spec_definition, bind, emit, ret, with_event.
  destruct (helper n schema _) as [[? ?]|]; reflexivity.
Qed.

Lemma for_each_app {A} (xs ys : list A) (body : A -> M unit) st :
  for_each (xs ++ ys) body st
  = match for_each xs body st with
    | Ok (_, st1) => for_each ys body st1
    | Raise e => Raise e
    end.
Proof.
  revert st. induction xs as [|x xs IH]; intros st; [reflexivity|].
  cbn [app for_each]. unfold bind.
  destruct (body x st) as [[[] st1]|]; [apply IH | reflexivity].
Qed.

Lemma for_each_plain definition items st :
  all_plain items = true ->
  for_each items (inspect_field cls_name definition) st = Ok (tt, st).
Proof.
  induction items as [|[name f] items IH]; [reflexivity|].
  cbn [all_plain forallb snd]. intros [Hf Hrest]%andb_true_iff.
  cbn [for_each]. unfold bind.
  rewrite inspect_field_plain by exact Hf. by apply IH.
Qed.

Lemma inspect_instance definition l o resolver refs st :
  st_heap st !! l = Some o ->
  schema_name_resolver st = Some resolver ->
  plug_refs st = Some refs ->
  inspect_schema_for_auto_referencing cls_name definition (PInst l) st
  = for_each (o_fields o) (inspect_field cls_name definition) st.
Proof.
  intros Hl Hr Hp. unfold inspect_schema_for_auto_referencing.
  unfold bind at 1. cbn [get_state]. rewrite Hr.
  unfold bind at 1. unfold ensure_refs. rewrite Hp.
  unfold bind at 1. unfold schema_fields. by rewrite (deref_ok _ _ _ Hl).
Qed.

(** A schema without nested fields: the helper binds, converts and
    returns. *)
Lemma helper_leaf depth name l o st :
  st_heap st !! l = Some o ->
  all_plain (o_fields o) = true ->
  schema_definition_helper cls_name cls_fields schema2jsonschema (S depth)
    name (PInst l) st
  = Ok (schema2jsonschema
          (with_refs st (<[instance_ref cls_name o := name]> (refs_or_empty st)))
          (PInst l) (Some name) true,
        declared st (instance_ref cls_name o) name (PInst l)).
Proof.
  intros Hl Hplain. rewrite helper_unfold.
  rewrite (get_schema_ref_inst _ _ _ _ Hl). cbn zeta.
  cbn [instantiated fst]. unfold bound. cbn [instantiated snd].
  fold (declared st (instance_ref cls_name o) name (PInst l)).
  destruct (schema_name_resolver st) as [resolver|] eqn:Hr; [|reflexivity].
  erewrite inspect_instance; [| exact Hl | exact Hr | reflexivity].
  by rewrite for_each_plain.
Qed.

(** A schema with one nested field: the helper binds and converts, hands
    the singular form of the nested schema to [spec.definition], and ends
    in the state in which that call ends. *)
Lemma helper_one_nested depth name schema key l st1 o pre fname l' post o'
    resolver n' st v' s' :
  instantiated cls_fields st schema = (PInst l, st1) ->
  get_schema_ref cls_name (st_heap st) schema = Ok key ->
  st_heap st1 !! l = Some o ->
  o_fields o = pre ++ (fname, Nested l') :: post ->
  all_plain pre = true -> all_plain post = true ->
  st_heap st1 !! l' = Some o' ->
  instance_ref cls_name o' <> key ->
  refs_or_empty st !! instance_ref cls_name o' = None ->
  schema_name_resolver st = Some resolver ->
  name_truthy (resolver (instance_ref cls_name o')) = Some n' ->
  schema_definition_helper cls_name cls_fields schema2jsonschema depth n'
    (PInst (singular_target cls_name (declared st1 key name (PInst l)) l' o').1)
    (with_event
       (singular_target cls_name (declared st1 key name (PInst l)) l' o').2
       (CallDefinition n'
          (PInst (singular_target cls_name
                    (declared st1 key name (PInst l)) l' o').1)))
  = Ok (v', s') ->
  schema_definition_helper cls_name cls_fields schema2jsonschema (S depth)
    name schema st
  = Ok (schema2jsonschema (bound cls_fields st key name schema) (PInst l)
          (Some name) true, s').
Proof.
  intros Hi Hkey Hl Hf Hpre Hpost Hl' Hne Hnone Hr Hn Hsub.
  rewrite helper_unfold, Hkey. cbn zeta. unfold bound. rewrite Hi.
  cbn [fst snd]. rewrite Hr.
  assert (plug_refs st1 = plug_refs st) as Hp1
    by (rewrite <- (instantiated_refs cls_fields st schema); by rewrite Hi).
  assert (schema_name_resolver st1 = schema_name_resolver st) as Hr1.
  { pose proof (instantiated_extends cls_fields st schema) as E.
    rewrite Hi in E. apply E. }
  fold (declared st1 key name (PInst l)).
  set (st3 := declared st1 key name (PInst l)) in *.
  assert (plug_refs st3 = Some (<[key := name]> (refs_or_empty st))) as Hp3.
  { unfold st3, declared, refs_or_empty. cbn. by rewrite Hp1. }
  assert (schema_name_resolver st3 = Some resolver) as Hr3
    by (cbn; by rewrite Hr1).
  assert (st_heap st3 = st_heap st1) as Hh3 by reflexivity.
  erewrite inspect_instance; [| by rewrite Hh3 | exact Hr3 | exact Hp3].
  rewrite Hf, for_each_app, for_each_plain by exact Hpre.
  cbn [for_each]. unfold bind at 1.
  rewrite (inspect_field_nested cls_name _ _ _ o' st3) by (by rewrite Hh3).
  rewrite Hp3, lookup_insert_ne, Hnone, Hr3, Hn by congruence.
  rewrite spec_definition_run, Hsub.
  by rewrite for_each_plain.
Qed.

Lemma declared_refs st key name inst :
  refs_or_empty (declared st key name inst) = <[key := name]> (refs_or_empty st).
Proof. reflexivity. Qed.

Lemma declared_trace st key name inst :
  st_trace (declared st key name inst)
  = st_trace st ++ [CallConvert inst (Some name)].
Proof. reflexivity. Qed.

Lemma declared_extends st key name inst : extends st (declared st key name inst).
Proof.
  unfold declared. eapply extends_trans; [apply extends_refs | apply extends_event].
Qed.

Lemma singular_target_refs_or_empty st l o :
  refs_or_empty (singular_target cls_name st l o).2 = refs_or_empty st.
Proof. unfold refs_or_empty. by rewrite singular_target_refs. Qed.

Lemma singular_target_trace st l o :
  st_trace (singular_target cls_name st l o).2
  = st_trace st ++ [CallResolver (instance_ref cls_name o)].
Proof. unfold singular_target. by destruct (o_many o). Qed.

End Chain.

(** C4.  Let A have, among fields that discovery passes over, one nested
    field whose schema is B, let B likewise have one nested field whose
    schema is C, and let C have no nested field; let the three keys differ,
    let B and C be unregistered and let the naming policy name both.  Then,
    with three levels of calls available, registering A (given as a class
    or as an instance) succeeds; the registry afterwards is the registry
    before plus the entries of A, B and C, those of B and C under the names
    of the policy; and [spec.definition] has been called exactly once for
    B and exactly once for C, each in its singular form. *)
Theorem nested_chain_discovered (cls_name : cls -> string)
    (cls_fields : cls -> list (string * field))
    (schema2jsonschema : state -> pyval -> option string -> bool -> pyval)
    (depth : nat) (nA : string) (schema : pyval) (kA kB kC : schema_ref)
    (la lb lc : loc) (a b c : schema_obj) (st1 : state)
    (pre_a post_a pre_b post_b : list (string * field)) (fb fc : string)
    (resolver : schema_ref -> option string) (nB nC : string) (st : state) :
  get_schema_instance cls_fields schema st = Ok (PInst la, st1) ->
  get_schema_ref cls_name (st_heap st) schema = Ok kA ->
  st_heap st1 !! la = Some a ->
  st_heap st !! lb = Some b ->
  st_heap st !! lc = Some c ->
  get_schema_ref cls_name (st_heap st) (PInst lb) = Ok kB ->
  get_schema_ref cls_name (st_heap st) (PInst lc) = Ok kC ->
  o_fields a = pre_a ++ (fb, Nested lb) :: post_a ->
  all_plain pre_a = true -> all_plain post_a = true ->
  o_fields b = pre_b ++ (fc, Nested lc) :: post_b ->
  all_plain pre_b = true -> all_plain post_b = true ->
  all_plain (o_fields c) = true ->
  schema_name_resolver st = Some resolver ->
  name_truthy (resolver kB) = Some nB ->
  name_truthy (resolver kC) = Some nC ->
  kB <> kA ->
  kC <> kA ->
  kC <> kB ->
  refs_or_empty st !! kB = None ->
  refs_or_empty st !! kC = None ->
  exists v st' tb tc,
    schema_definition_helper cls_name cls_fields schema2jsonschema
      (3 + depth) nA schema st = Ok (v, st')
    /\ refs_or_empty st'
       = <[kC := nC]> (<[kB := nB]> (<[kA := nA]> (refs_or_empty st)))
    /\ refs_or_empty st' !! kB = Some nB
    /\ refs_or_empty st' !! kC = Some nC
    /\ st_heap st' !! tb = Some (with_many b false)
    /\ st_heap st' !! tc = Some (with_many c false)
    /\ st_trace st'
       = st_trace st
         ++ [CallConvert (PInst la) (Some nA);
             CallResolver kB;
             CallDefinition nB (PInst tb);
             CallConvert (PInst tb) (Some nB);
             CallResolver kC;
             CallDefinition nC (PInst tc);
             CallConvert (PInst tc) (Some nC)].
Proof.
  intros Hi HkA Hla Hlb Hlc HkB HkC.
  rewrite get_schema_instance_run in Hi.
  apply (f_equal (fun r => match r with Ok x => x | Raise _ => (PNone, st) end))
    in Hi.
  rewrite (get_schema_ref_inst _ _ _ _ Hlb) in HkB.
  rewrite (get_schema_ref_inst _ _ _ _ Hlc) in HkC.
  inversion HkB; subst kB; clear HkB. inversion HkC; subst kC; clear HkC.
  intros Hfa Hprea Hposta Hfb Hpreb Hpostb Hfc Hr HnB HnC HBA HCA HCB HrB HrC.
  assert (extends st st1) as E1.
  { pose proof (instantiated_extends cls_fields st schema) as E.
    by rewrite Hi in E. }
  assert (refs_or_empty st1 = refs_or_empty st) as R1.
  { unfold refs_or_empty.
    rewrite <- (instantiated_refs cls_fields st schema). by rewrite Hi. }
  assert (st_trace st1 = st_trace st) as T1.
  { rewrite <- (instantiated_trace cls_fields st schema). by rewrite Hi. }
  set (kB := instance_ref cls_name b) in *.
  set (kC := instance_ref cls_name c) in *.
  (* the state in which B is handed over *)
  set (sA := declared st1 kA nA (PInst la)).
  set (tb := (singular_target cls_name sA lb b).1).
  set (sB := with_event (singular_target cls_name sA lb b).2
               (CallDefinition nB (PInst tb))).
  assert (extends st sB) as EB.
  { eapply extends_trans; [exact E1|].
    eapply extends_trans; [apply declared_extends|].
    eapply extends_trans; [apply singular_target_extends | apply extends_event]. }
  assert (st_heap sB !! tb = Some (with_many b false)) as Htb.
  { apply (singular_target_lookup cls_name sA lb b). by apply (ext_heap _ _ E1). }
  (* the state in which C is handed over *)
  set (sB2 := declared sB kB nB (PInst tb)).
  set (tc := (singular_target cls_name sB2 lc c).1).
  set (sC := with_event (singular_target cls_name sB2 lc c).2
               (CallDefinition nC (PInst tc))).
  assert (extends sB sC) as EC.
  { eapply extends_trans; [apply declared_extends|].
    eapply extends_trans; [apply singular_target_extends | apply extends_event]. }
  assert (st_heap sC !! tc = Some (with_many c false)) as Htc.
  { apply (singular_target_lookup cls_name sB2 lc c). by apply (ext_heap _ _ EB). }
  set (s' := declared sC kC nC (PInst tc)).
  assert (refs_or_empty sB = <[kA := nA]> (refs_or_empty st)) as RB.
  { unfold sB. change (refs_or_empty (with_event ?s _)) with (refs_or_empty s).
    rewrite singular_target_refs_or_empty. unfold sA.
    by rewrite declared_refs, R1. }
  assert (refs_or_empty sC = <[kB := nB]> (<[kA := nA]> (refs_or_empty st)))
    as RC.
  { unfold sC. change (refs_or_empty (with_event ?s _)) with (refs_or_empty s).
    rewrite singular_target_refs_or_empty. unfold sB2.
    by rewrite declared_refs, RB. }
  exists (schema2jsonschema (bound cls_fields st kA nA schema) (PInst la)
            (Some nA) true), s', tb, tc.
  split; [|split; [|split; [|split; [|split; [|split]]]]].
  - apply (helper_one_nested cls_name cls_fields schema2jsonschema
             (2 + depth) nA schema kA la st1 a pre_a fb lb post_a b resolver nB
             st (schema2jsonschema (bound cls_fields sB kB nB (PInst tb))
                   (PInst tb) (Some nB) true) s');
      try assumption.
    { by apply (ext_heap _ _ E1). }
    fold sA. fold tb. fold sB.
    apply (helper_one_nested cls_name cls_fields schema2jsonschema
             (1 + depth) nB (PInst tb) kB tb sB (with_many b false)
             pre_b fc lc post_b c resolver nC sB
             (schema2jsonschema
                (with_refs sC (<[kC := nC]> (refs_or_empty sC)))
                (PInst tc) (Some nC) true) s');
      try assumption; try reflexivity.
    { by rewrite (get_schema_ref_inst _ _ _ _ Htb). }
    { by apply (ext_heap _ _ EB). }
    { rewrite RB. by rewrite lookup_insert_ne. }
    { rewrite (ext_resolver _ _ EB). exact Hr. }
    fold sB2. fold tc. fold sC.
    apply (helper_leaf cls_name cls_fields schema2jsonschema depth nC tc
             (with_many c false) sC); assumption.
  - unfold s'. by rewrite declared_refs, RC.
  - unfold s'. rewrite declared_refs, RC.
    rewrite lookup_insert_ne by done. apply lookup_insert_eq.
  - unfold s'. rewrite declared_refs. apply lookup_insert_eq.
  - apply (ext_heap _ _ (declared_extends sC kC nC (PInst tc))).
    by apply (ext_heap _ _ EC).
  - by apply (ext_heap _ _ (declared_extends sC kC nC (PInst tc))).
  - unfold s'. rewrite declared_trace. unfold sC. cbn [with_event st_trace].
    rewrite singular_target_trace. unfold sB2. rewrite declared_trace.
    unfold sB. cbn [with_event st_trace]. rewrite singular_target_trace.
    unfold sA. rewrite declared_trace, T1.
    rewrite <- !app_assoc. reflexivity.
Qed.

Lemma nested_chain_discovered_witness :
  exists v st' tb tc,
    schema_definition_helper ex_cls_name ex_cls_fields ex_schema2jsonschema
      3 "User" (PClass 0) ex_start = Ok (v, st')
    /\ refs_or_empty st'
       = <[KType (TSchema 2) := "Category"]>
           (<[KType (TSchema 1) := "Pet"]> (<[KType (TSchema 0) := "User"]> ∅))
    /\ refs_or_empty st' !! KType (TSchema 1) = Some "Pet"
    /\ refs_or_empty st' !! KType (TSchema 2) = Some "Category"
    /\ (o_many <$> st_heap st' !! tb) = Some false
    /\ (o_many <$> st_heap st' !! tc) = Some false
    /\ st_trace st'
       = [CallConvert (PInst 5) (Some "User");
          CallResolver (KType (TSchema 1));
          CallDefinition "Pet" (PInst tb);
          CallConvert (PInst tb) (Some "Pet");
          CallResolver (KType (TSchema 2));
          CallDefinition "Category" (PInst tc);
          CallConvert (PInst tc) (Some "Category")].
Proof.
  destruct (nested_chain_discovered ex_cls_name ex_cls_fields
              ex_schema2jsonschema 0 "User" (PClass 0) (KType (TSchema 0))
              (KType (TSchema 1)) (KType (TSchema 2))
              5 1 0 (new_instance ex_cls_fields 0) _ _
              (with_object ex_start (new_instance ex_cls_fields 0))
              [("id", OtherField)] [("tags", ListOf OtherField)]
              [("name", OtherField)] [] "pets" "category"
              ex_resolver "Pet" "Category" ex_start
              eq_refl eq_refl eq_refl eq_refl eq_refl eq_refl eq_refl eq_refl
              eq_refl eq_refl eq_refl eq_refl eq_refl eq_refl eq_refl
              eq_refl eq_refl
              ltac:(discriminate) ltac:(discriminate) ltac:(discriminate)
              eq_refl eq_refl)
    as (v & st' & tb & tc & H1 & H2 & H3 & H4 & H5 & H6 & H7).
  exists v, st', tb, tc.
  split; [exact H1|]. split; [exact H2|]. split; [exact H3|].
  split; [exact H4|]. split; [by rewrite H5|]. split; [by rewrite H6|].
  exact H7.
Defined.

(** ** Declaring a schema again *)

Section Redeclaration.

Variable cls_name : cls -> string.
Variable cls_fields : cls -> list (string * field).
Variable schema2jsonschema : state -> pyval -> option string -> bool -> pyval.

Lemma conversions_app t1 t2 :
  conversions (t1 ++ t2) = conversions t1 + conversions t2.
Proof. unfold conversions. by rewrite List.filter_app, length_app. Qed.

Lemma definitions_app t1 t2 :
  definitions (t1 ++ t2) = definitions t1 + definitions t2.
Proof. unfold definitions. by rewrite List.filter_app, length_app. Qed.

Lemma settled_mono st st' f :
  (forall l o, st_heap st !! l = Some o -> st_heap st' !! l = Some o) ->
  schema_name_resolver st' = schema_name_resolver st ->
  (forall k, is_Some (refs_or_empty st !! k) -> is_Some (refs_or_empty st' !! k)) ->
  settled cls_name st f -> settled cls_name st' f.
Proof.
  intros Hh Hr Hk [Hp | (l & o & -> & Hl & Hs)]; [by left|].
  right. exists l, o. split; [reflexivity|]. split; [auto|].
  destruct Hs as [Hs | Hs]; [left; auto|].
  right. unfold policy_name in *. by rewrite Hr.
Qed.

Lemma discovered_is_Some st st' k :
  discovered st st' k ->
  is_Some (refs_or_empty st !! k) -> is_Some (refs_or_empty st' !! k).
Proof.
  intros [E | (N & _)] Hs; [by rewrite E|]. rewrite N in Hs. by destruct Hs.
Qed.

(** After a successful pass over its fields, a schema has nothing left to
    discover. *)
Lemma first_pass_settles definition items st st' :
  definition_spec cls_name definition ->
  for_each items (inspect_field cls_name definition) st = Ok (tt, st') ->
  Forall (fun item => settled cls_name st' item.2) items.
Proof.
  intros Hdef. revert st. induction items as [|[name f] items IH]; intros st Hrun.
  { constructor. }
  cbn [for_each] in Hrun. apply bind_inv in Hrun as ([] & st1 & H1 & H2).
  pose proof (inspect_fields_sound cls_name _ Hdef _ _ _ H2) as (E2 & D2 & _).
  constructor; [|by eapply IH].
  cbn [snd].
  apply (settled_mono st1);
    [apply E2 | apply E2 | intros k; apply discovered_is_Some, D2 |].
  destruct (plain_field f) eqn:Hf; [by left|].
  destruct f as [l|[l'|c|]|]; try discriminate.
  destruct (st_heap st !! l) as [o|] eqn:Hl.
  2:{ rewrite inspect_field_dangling in H1 by exact Hl. discriminate. }
  pose proof (inspect_field_sound cls_name _ Hdef _ _ _ H1) as (E1 & _).
  right. exists l, o. split; [reflexivity|].
  split; [by apply (ext_heap _ _ E1)|].
  rewrite (inspect_field_nested _ _ _ _ _ _ Hl) in H1.
  destruct (plug_refs st) as [refs|] eqn:Hp; [|discriminate].
  destruct (refs !! instance_ref cls_name o) as [n|] eqn:Hk.
  { inversion H1; subst st1. left. unfold refs_or_empty. rewrite Hp, Hk. eauto. }
  destruct (schema_name_resolver st) as [resolver|] eqn:Hr; [|discriminate].
  destruct (name_truthy (resolver (instance_ref cls_name o))) as [n|] eqn:Hn.
  - apply Hdef in H1 as (key & Hkey & _ & Hname & _).
    rewrite singular_target_ref in Hkey by exact Hl.
    inversion Hkey; subst key. left. rewrite Hname. eauto.
  - right. unfold policy_name. rewrite (ext_resolver _ _ E1), Hr. exact Hn.
Qed.

(** A pass over settled fields registers nothing and converts nothing. *)
Lemma second_pass definition items st :
  Forall (fun item => settled cls_name st item.2) items ->
  is_Some (plug_refs st) ->
  is_Some (schema_name_resolver st) ->
  exists st',
    for_each items (inspect_field cls_name definition) st = Ok (tt, st')
    /\ plug_refs st' = plug_refs st
    /\ extends st st'
    /\ conversions (st_trace st') = conversions (st_trace st)
    /\ definitions (st_trace st') = definitions (st_trace st).
Proof.
  revert st. induction items as [|[name f] items IH]; intros st Hs Hp Hr.
  { exists st. split; [reflexivity|]. split; [reflexivity|].
    split; [apply extends_refl | auto]. }
  inversion Hs as [|? ? Hf Hrest]; subst. cbn [snd] in Hf.
  assert (exists st1,
            inspect_field cls_name definition (name, f) st = Ok (tt, st1)
            /\ plug_refs st1 = plug_refs st
            /\ extends st st1
            /\ conversions (st_trace st1) = conversions (st_trace st)
            /\ definitions (st_trace st1) = definitions (st_trace st))
    as (st1 & H1 & P1 & E1 & C1 & D1).
  { destruct Hf as [Hplain | (l & o & -> & Hl & Hset)].
    - exists st. rewrite inspect_field_plain by exact Hplain.
      split; [reflexivity|]. split; [reflexivity|].
      split; [apply extends_refl | auto].
    - rewrite (inspect_field_nested _ _ _ _ _ _ Hl).
      destruct Hp as [refs Hp]. destruct Hr as [resolver Hr].
      unfold refs_or_empty, policy_name in Hset. rewrite Hp, Hr in Hset |- *.
      destruct (refs !! instance_ref cls_name o) as [n|] eqn:Hk.
      + exists st. split; [reflexivity|]. split; [exact Hp|].
        split; [apply extends_refl | auto].
      + destruct Hset as [[? ?] | Hdecl]; [discriminate|]. rewrite Hdecl.
        exists (singular_target cls_name st l o).2.
        split; [reflexivity|].
        split; [by rewrite singular_target_refs|].
        split; [apply singular_target_extends|].
        rewrite singular_target_trace, conversions_app, definitions_app.
        cbn. split; lia. }
  destruct (IH st1) as (st' & H2 & P2 & E2 & C2 & D2).
  - eapply Forall_impl; [exact Hrest|]. intros item Hi.
    apply (settled_mono st); [apply E1 | apply E1 | | exact Hi].
    unfold refs_or_empty. by rewrite P1.
  - by rewrite P1.
  - by rewrite (ext_resolver _ _ E1).
  - exists st'. cbn [for_each]. unfold bind. rewrite H1.
    split; [exact H2|]. split; [congruence|].
    split; [eapply extends_trans; eauto|]. split; congruence.
Qed.

Lemma get_schema_ref_extends st st' schema key :
  extends st st' ->
  get_schema_ref cls_name (st_heap st) schema = Ok key ->
  get_schema_ref cls_name (st_heap st') schema = Ok key.
Proof.
  intros E. destruct schema; try (intros H; exact H).
  intros (o & Hl & ->)%get_schema_ref_inst_inv.
  apply get_schema_ref_inst. by apply (ext_heap _ _ E).
Qed.

(** The helper on a schema whose fields are settled. *)
Lemma helper_settled_run depth name schema st key l st1 o :
  get_schema_ref cls_name (st_heap st) schema = Ok key ->
  instantiated cls_fields st schema = (PInst l, st1) ->
  st_heap st1 !! l = Some o ->
  Forall (fun item => settled cls_name st item.2) (o_fields o) ->
  exists st2,
    schema_definition_helper cls_name cls_fields schema2jsonschema (S depth)
      name schema st
    = Ok (schema2jsonschema (bound cls_fields st key name schema) (PInst l)
            (Some name) true, st2)
    /\ refs_or_empty st2 = <[key := name]> (refs_or_empty st)
    /\ conversions (st_trace st2) = S (conversions (st_trace st))
    /\ definitions (st_trace st2) = definitions (st_trace st).
Proof.
  intros Hkey Hi Hl Hs. rewrite helper_unfold, Hkey. cbn zeta.
  pose proof (bound_refs cls_fields st key name schema) as Hbr.
  pose proof (bound_trace cls_fields st key name schema) as Hbt.
  pose proof (bound_extends cls_fields st key name schema) as Hbe.
  assert (st_heap (bound cls_fields st key name schema) = st_heap st1) as Hbh
    by (unfold bound; by rewrite Hi).
  assert (is_Some (plug_refs (bound cls_fields st key name schema))) as Hbp
    by (unfold bound; cbn; eauto).
  rewrite Hi. cbn [fst].
  set (st2 := bound cls_fields st key name schema) in *.
  set (st3 := with_event st2 (CallConvert (PInst l) (Some name))).
  assert (conversions (st_trace st3) = S (conversions (st_trace st))) as Hc3.
  { unfold st3. cbn [with_event st_trace].
    rewrite conversions_app, Hbt. cbn. lia. }
  assert (definitions (st_trace st3) = definitions (st_trace st)) as Hd3.
  { unfold st3. cbn [with_event st_trace].
    rewrite definitions_app, Hbt. cbn. lia. }
  destruct (schema_name_resolver st) as [resolver|] eqn:Hr.
  - destruct Hbp as [refs Hbp].
    assert (schema_name_resolver st3 = Some resolver) as Hr3
      by (unfold st3; cbn [with_event schema_name_resolver];
          rewrite (ext_resolver _ _ Hbe); exact Hr).
    erewrite inspect_instance;
      [| unfold st3; cbn [with_event st_heap]; rewrite Hbh; exact Hl
       | exact Hr3 | exact Hbp].
    destruct (second_pass
                (spec_definition
                   (schema_definition_helper cls_name cls_fields
                      schema2jsonschema depth))
                (o_fields o) st3) as (st' & H2 & P2 & E2 & C2 & D2).
    + eapply Forall_impl; [exact Hs|]. intros item Hitem.
      apply (settled_mono st); [| |  | exact Hitem].
      * intros l0 o0 H0. cbn. by apply (ext_heap _ _ Hbe).
      * cbn. apply Hbe.
      * intros k [n Hn]. change (refs_or_empty st3) with (refs_or_empty st2).
        rewrite Hbr. destruct (decide (key = k)) as [->|Hne].
        -- rewrite lookup_insert_eq. eauto.
        -- rewrite lookup_insert_ne by done. eauto.
    + cbn. eauto.
    + rewrite Hr3. eauto.
    + exists st'. rewrite H2. split; [reflexivity|].
      split; [|split; congruence].
      unfold refs_or_empty at 1. rewrite P2. exact Hbr.
  - exists st3. split; [reflexivity|]. split; [exact Hbr|]. auto.
Qed.

(** What a successful call with a naming policy leaves behind: the
    instance it worked on has nothing left to discover. *)
Lemma helper_settles depth name schema st v st' resolver :
  schema_name_resolver st = Some resolver ->
  schema_definition_helper cls_name cls_fields schema2jsonschema depth
    name schema st = Ok (v, st') ->
  exists l st1 o,
    instantiated cls_fields st schema = (PInst l, st1)
    /\ st_heap st1 !! l = Some o
    /\ Forall (fun item => settled cls_name st' item.2) (o_fields o).
Proof.
  intros Hr Hrun. destruct depth as [|depth]; [discriminate|].
  rewrite helper_unfold in Hrun.
  destruct (get_schema_ref cls_name (st_heap st) schema) as [key|] eqn:Hkey;
    [|discriminate].
  cbn zeta in Hrun. rewrite Hr in Hrun.
  destruct (inspect_schema_for_auto_referencing _ _ _ _) as [[[] st4]|] eqn:Hi;
    [|discriminate].
  inversion Hrun; subst v st4; clear Hrun.
  unfold inspect_schema_for_auto_referencing in Hi.
  apply bind_inv in Hi as (s0 & s1 & H0 & Hi).
  inversion H0; subst s0 s1; clear H0.
  cbn [with_event schema_name_resolver] in Hi.
  rewrite (ext_resolver _ _ (bound_extends cls_fields st key name schema)), Hr
    in Hi.
  apply bind_inv in Hi as ([] & s1 & H1 & Hi).
  apply bind_inv in Hi as (items & s2 & H2 & Hi).
  unfold ensure_refs in H1. cbn in H1. inversion H1; subst s1; clear H1.
  unfold schema_fields in H2.
  destruct (instantiated cls_fields st schema) as [inst st1] eqn:Hinst.
  cbn [fst] in H2. destruct inst as [| | | | | | |l]; try discriminate.
  apply rbind_inv in H2 as (o & Hl & H2). apply deref_inv in Hl.
  inversion H2; subst items s2; clear H2.
  exists l, st1, o. split; [reflexivity|].
  split; [unfold bound in Hl; rewrite Hinst in Hl; exact Hl|].
  eapply first_pass_settles; [|exact Hi].
  apply spec_definition_ok, helper_sound.
Qed.

End Redeclaration.

(** C1 as stated fails: the second declaration of
    [UserSchema] converts the schema again. *)
Lemma redeclaration_counterexample :
  exists v1 st1 v2 st2,
    schema_definition_helper ex_cls_name ex_cls_fields ex_schema2jsonschema
      3 "User" (PClass 0) ex_start = Ok (v1, st1)
    /\ refs_or_empty st1 !! KType (TSchema 0) = Some "User"
    /\ schema_definition_helper ex_cls_name ex_cls_fields ex_schema2jsonschema
         3 "User" (PClass 0) st1 = Ok (v2, st2)
    /\ conversions (st_trace st1) = 3
    /\ conversions (st_trace st2) = 4
    /\ st_trace st2 = st_trace st1 ++ [CallConvert (PInst 7) (Some "User")].
Proof.
  eexists _, _, _, _. split; [vm_compute; reflexivity|].
  split; [vm_compute; reflexivity|]. split; [vm_compute; reflexivity|].
  repeat split; vm_compute; reflexivity.
Qed.

Lemma helper_forgets_entry (cls_name : cls -> string)
    (cls_fields : cls -> list (string * field))
    (schema2jsonschema : state -> pyval -> option string -> bool -> pyval)
    (depth : nat) (name : string) (schema : pyval) (st : state)
    (key : schema_ref) :
  get_schema_ref cls_name (st_heap st) schema = Ok key ->
  schema_definition_helper cls_name cls_fields schema2jsonschema depth
    name schema st
  = schema_definition_helper cls_name cls_fields schema2jsonschema depth
      name schema (with_refs st (delete key (refs_or_empty st))).
Proof.
  intros Hkey. destruct depth as [|depth]; [reflexivity|].
  rewrite !helper_unfold. cbn [with_refs st_heap schema_name_resolver].
  rewrite Hkey. cbn zeta.
  assert (bound cls_fields (with_refs st (delete key (refs_or_empty st)))
            key name schema
          = bound cls_fields st key name schema) as ->.
  { unfold bound, with_refs.
    destruct schema; cbn; unfold refs_or_empty; cbn;
      by rewrite insert_delete_eq. }
  assert ((instantiated cls_fields
             (with_refs st (delete key (refs_or_empty st))) schema).1
          = (instantiated cls_fields st schema).1) as ->.
  { by destruct schema. }
  reflexivity.
Qed.

(** C1, amended.  The helper has no test for an existing entry.  A call
    with a schema whose key is already registered runs as the call in the
    state without that entry does, with the same result or error and the
    same final state: when it ends well the key is bound to the name it
    was given, the converter has been called again, on the instance and
    with that name, and its result is returned; under a naming policy the
    fields are walked as in a first call.  In the state that a successful
    declaration of a schema has left, a second declaration of the same
    schema, under any name and with at least one level of calls available,
    succeeds: the registry differs from the one before in that entry
    alone, the converter is called exactly once more, and the walk of the
    fields calls [spec.definition] for no schema, since every nested
    schema is registered or declined. *)
Theorem redeclaration_converts_again (cls_name : cls -> string)
    (cls_fields : cls -> list (string * field))
    (schema2jsonschema : state -> pyval -> option string -> bool -> pyval) :
  (forall depth name schema st key old,
     get_schema_ref cls_name (st_heap st) schema = Ok key ->
     refs_or_empty st !! key = Some old ->
     schema_definition_helper cls_name cls_fields schema2jsonschema depth
       name schema st
     = schema_definition_helper cls_name cls_fields schema2jsonschema depth
         name schema (with_refs st (delete key (refs_or_empty st)))
     /\ forall v st',
          schema_definition_helper cls_name cls_fields schema2jsonschema depth
            name schema st = Ok (v, st') ->
          refs_or_empty st' !! key = Some name
          /\ v = schema2jsonschema (bound cls_fields st key name schema)
                   (instantiated cls_fields st schema).1 (Some name) true
          /\ exists evs,
               st_trace st'
               = st_trace st
                 ++ CallConvert (instantiated cls_fields st schema).1
                      (Some name) :: evs)
  /\ (forall depth1 depth2 name1 name2 schema st v1 st1,
        schema_definition_helper cls_name cls_fields schema2jsonschema depth1
          name1 schema st = Ok (v1, st1) ->
        exists key st2,
          get_schema_ref cls_name (st_heap st1) schema = Ok key
          /\ refs_or_empty st1 !! key = Some name1
          /\ schema_definition_helper cls_name cls_fields schema2jsonschema
               (S depth2) name2 schema st1
             = Ok (schema2jsonschema (bound cls_fields st1 key name2 schema)
                     (instantiated cls_fields st1 schema).1 (Some name2) true,
                   st2)
          /\ refs_or_empty st2 = <[key := name2]> (refs_or_empty st1)
          /\ conversions (st_trace st2) = S (conversions (st_trace st1))
          /\ definitions (st_trace st2) = definitions (st_trace st1)).
Proof.
  split.
  { intros depth name schema st key old Hkey Hold.
    split; [by apply helper_forgets_entry|].
    intros v st' Hrun.
    destruct (helper_sound cls_name cls_fields schema2jsonschema depth
                _ _ _ _ _ Hrun) as (key' & Hkey' & _ & Hname & _).
    assert (key' = key) as -> by congruence.
    split; [exact Hname|].
    destruct (helper_converts cls_name cls_fields schema2jsonschema
                _ _ _ _ _ _ Hrun) as (key' & evs & Hkey2 & Hv & Ht).
    assert (key' = key) as -> by congruence.
    split; [exact Hv|]. by exists evs. }
  intros depth1 depth2 name1 name2 schema st v1 st1 Hrun.
  destruct (helper_sound cls_name cls_fields schema2jsonschema depth1
              _ _ _ _ _ Hrun) as (key & Hkey & E & Hname & _).
  pose proof (get_schema_ref_extends cls_name _ _ _ _ E Hkey) as Hkey1.
  exists key.
  destruct (schema_name_resolver st) as [resolver|] eqn:Hr.
  - destruct (helper_settles cls_name cls_fields schema2jsonschema
                _ _ _ _ _ _ _ Hr Hrun) as (l & sa & o & Hi & Hl & Hs).
    assert (exists l2 sb o2,
              instantiated cls_fields st1 schema = (PInst l2, sb)
              /\ st_heap sb !! l2 = Some o2 /\ o_fields o2 = o_fields o)
      as (l2 & sb & o2 & Hi2 & Hl2 & Hf2).
    { destruct schema as [| | | | | |c|l0]; try discriminate.
      - cbn in Hi. inversion Hi; subst l sa; clear Hi.
        cbn in Hl. rewrite list_lookup_middle in Hl by reflexivity.
        inversion Hl; subst o.
        eexists _, _, _. split; [reflexivity|].
        split; [cbn; by apply list_lookup_middle | reflexivity].
      - cbn in Hi. inversion Hi; subst l0 sa; clear Hi.
        exists l, st1, o. split; [reflexivity|].
        split; [by apply (ext_heap _ _ E) | reflexivity]. }
    rewrite <- Hf2 in Hs.
    destruct (helper_settled_run cls_name cls_fields schema2jsonschema
                depth2 name2 schema st1 key l2 sb o2 Hkey1 Hi2 Hl2 Hs)
      as (st2 & H2 & R2 & C2 & D2).
    exists st2. rewrite Hi2. cbn [fst]. auto 10.
  - rewrite helper_unfold, Hkey1. cbn zeta.
    rewrite (ext_resolver _ _ E), Hr.
    eexists. split; [reflexivity|]. split; [exact Hname|].
    split; [reflexivity|]. cbn [with_event st_trace].
    change (refs_or_empty (with_event ?s _)) with (refs_or_empty s).
    rewrite bound_refs, conversions_app, definitions_app, bound_trace.
    cbn. split; [reflexivity|]. split; lia.
Qed.

Lemma redeclaration_converts_again_witness :
  (exists v1 st1 v2 st2,
     schema_definition_helper ex_cls_name ex_cls_fields ex_schema2jsonschema
       3 "User" (PClass 0) ex_start = Ok (v1, st1)
     /\ refs_or_empty st1 !! KType (TSchema 0) = Some "User"
     /\ schema_definition_helper ex_cls_name ex_cls_fields ex_schema2jsonschema
          1 "Account" (PClass 0) st1 = Ok (v2, st2)
     /\ refs_or_empty st2
        = <[KType (TSchema 0) := "Account"]> (refs_or_empty st1)
     /\ conversions (st_trace st2) = S (conversions (st_trace st1))
     /\ definitions (st_trace st1) = 2
     /\ definitions (st_trace st2) = 2)
  /\ schema_definition_helper ex_cls_name ex_cls_fields ex_schema2jsonschema
       1 "Pet" (PClass 1) ex_preregistered = Raise RecursionError
  /\ (exists v st',
        schema_definition_helper ex_cls_name ex_cls_fields ex_schema2jsonschema
          2 "Pet" (PClass 1) ex_preregistered = Ok (v, st')
        /\ refs_or_empty st' !! KType (TSchema 1) = Some "Pet"
        /\ refs_or_empty st' !! KType (TSchema 2) = Some "Category").
Proof.
  split; [|split].
  - destruct (schema_definition_helper ex_cls_name ex_cls_fields
                ex_schema2jsonschema 3 "User" (PClass 0) ex_start)
      as [[v1 st1]|e] eqn:Hrun; [|vm_compute in Hrun; discriminate].
    destruct (proj2 (redeclaration_converts_again ex_cls_name ex_cls_fields
                       ex_schema2jsonschema)
                3 0 "User" "Account" (PClass 0) ex_start v1 st1 Hrun)
      as (key & st2 & Hkey & Hname & H2 & R2 & C2 & D2).
    inversion Hkey; subst key.
    eexists v1, st1, _, st2. split; [reflexivity|]. split; [exact Hname|].
    split; [exact H2|]. split; [exact R2|]. split; [exact C2|].
    assert (definitions (st_trace st1) = 2) as D1.
    { vm_compute in Hrun. inversion Hrun. reflexivity. }
    split; [exact D1|]. by rewrite D2.
  - rewrite (proj1 (proj1 (redeclaration_converts_again ex_cls_name
                             ex_cls_fields ex_schema2jsonschema)
                      1 "Pet" (PClass 1) ex_preregistered (KType (TSchema 1))
                      "Animal" eq_refl eq_refl)).
    vm_compute. reflexivity.
  - destruct (schema_definition_helper ex_cls_name ex_cls_fields
                ex_schema2jsonschema 2 "Pet" (PClass 1) ex_preregistered)
      as [[v st']|e] eqn:Hrun; [|vm_compute in Hrun; discriminate].
    destruct (proj2 (proj1 (redeclaration_converts_again ex_cls_name
                              ex_cls_fields ex_schema2jsonschema)
                       2 "Pet" (PClass 1) ex_preregistered (KType (TSchema 1))
                       "Animal" eq_refl eq_refl) v st' Hrun) as (Hn & _ & _).
    exists v, st'. split; [reflexivity|]. split; [exact Hn|].
    vm_compute in Hrun. inversion Hrun. reflexivity.
Defined.

Lemma operation_resolver_skips_non_mappings_witness :
  resolve_operation ex_cls_name ex_get_class ex_schema2jsonschema
    ex_schema2parameters (PStr "deprecated") ex_start
  = Ok (PStr "deprecated", ex_start)
  /\ schema_operation_resolver ex_cls_name ex_get_class ex_schema2jsonschema
       ex_schema2parameters
       [(DStr "x-note", PStr "deprecated");
        (DStr "get",
         PDict [(DStr "responses",
                 PDict [(DInt 200, PDict [(DStr "schema", PInst 0)])])])]
       ex_discovering
     = Ok ([(DStr "x-note", PStr "deprecated");
            (DStr "get",
             PDict [(DStr "responses",
                     PDict [(DInt 200,
                             PDict [(DStr "schema",
                                     PDict [(DStr "type", PStr "object");
                                            (DStr "properties", PDict [])])])])])],
           with_event ex_discovering (CallConvert (PInst 0) None)).
Proof.
  split.
  - apply (proj1 (operation_resolver_skips_non_mappings ex_cls_name
                    ex_get_class ex_schema2jsonschema ex_schema2parameters
                    [] ex_start)).
    reflexivity.
  - reflexivity.
Defined.

(** ** Declarations: further statements *)

(** X1.  Without a naming policy the declaration of a schema class, or
    of a schema instance of the store, with at least one level of calls
    available always succeeds and does not look at the fields: the key is
    bound to the name, the converter is called once, on the instance and
    in a state where the key is already bound, and nothing else changes.
    The statement is about schema classes and instances, on which the
    converter returns. *)
Theorem declaration_without_policy (cls_name : cls -> string)
    (cls_fields : cls -> list (string * field))
    (schema2jsonschema : state -> pyval -> option string -> bool -> pyval)
    (depth : nat) (name : string) (schema : pyval) (key : schema_ref)
    (st : state) :
  is_schema schema = true ->
  schema_name_resolver st = None ->
  get_schema_ref cls_name (st_heap st) schema = Ok key ->
  exists inst st1 st2 st',
    get_schema_instance cls_fields schema st = Ok (inst, st1)
    /\ schema_definition_helper cls_name cls_fields schema2jsonschema
         (S depth) name schema st
       = Ok (schema2jsonschema st2 inst (Some name) true, st')
    /\ refs_or_empty st2 = <[key := name]> (refs_or_empty st)
    /\ st_heap st2 = st_heap st1
    /\ plug_refs st' = Some (<[key := name]> (refs_or_empty st))
    /\ st_heap st' = st_heap st1
    /\ st_trace st' = st_trace st ++ [CallConvert inst (Some name)].
Proof.
  intros _ Hr Hkey.
  exists (instantiated cls_fields st schema).1,
         (instantiated cls_fields st schema).2,
         (bound cls_fields st key name schema).
  eexists. rewrite get_schema_instance_run, helper_unfold, Hkey. cbn zeta.
  rewrite Hr. split; [by destruct (instantiated cls_fields st schema)|].
  split; [reflexivity|]. split; [apply bound_refs|].
  split; [reflexivity|].
  split; [cbn; unfold refs_or_empty; by rewrite instantiated_refs|].
  split; [reflexivity|].
  cbn [with_event st_trace]. by rewrite bound_trace.
Qed.

Lemma declaration_without_policy_witness :
  exists st',
    schema_definition_helper ex_cls_name ex_cls_fields ex_schema2jsonschema
      1 "Account" (PInst 5) ex_list_state_plain
    = Ok (PDict [(DStr "type", PStr "object"); (DStr "properties", PDict [])],
          st')
    /\ plug_refs st' = Some {[ KType (TSchema 0) := "Account" ]}
    /\ st_trace st' = [CallConvert (PInst 5) (Some "Account")].
Proof.
  destruct (declaration_without_policy ex_cls_name ex_cls_fields
              ex_schema2jsonschema 0 "Account" (PInst 5) (KType (TSchema 0))
              ex_list_state_plain eq_refl eq_refl eq_refl)
    as (inst & st1 & st2 & st' & Hi & Hrun & _ & _ & Hp & _ & Ht).
  inversion Hi; subst inst st1.
  exists st'. split; [exact Hrun|]. split; [exact Hp | exact Ht].
Defined.

(** X2.  A successful declaration binds its own key to the given name
    and renames nothing else: every other key that was registered is
    registered under the same name afterwards. *)
Theorem declaration_keeps_other_entries (cls_name : cls -> string)
    (cls_fields : cls -> list (string * field))
    (schema2jsonschema : state -> pyval -> option string -> bool -> pyval)
    (depth : nat) (name : string) (schema : pyval) (st : state)
    (v : pyval) (st' : state) :
  schema_definition_helper cls_name cls_fields schema2jsonschema depth
    name schema st = Ok (v, st') ->
  exists key,
    get_schema_ref cls_name (st_heap st) schema = Ok key
    /\ refs_or_empty st' !! key = Some name
    /\ forall k n, k <> key ->
         refs_or_empty st !! k = Some n -> refs_or_empty st' !! k = Some n.
Proof.
  intros Hrun.
  apply (helper_sound cls_name cls_fields schema2jsonschema) in Hrun
    as (key & Hkey & _ & Hname & Hothers).
  exists key. split; [exact Hkey|]. split; [exact Hname|].
  intros k n Hk Hn. destruct (Hothers k Hk) as [E | (N & _)]; congruence.
Qed.

Lemma declaration_keeps_other_entries_witness :
  exists v st',
    schema_definition_helper ex_cls_name ex_cls_fields ex_schema2jsonschema
      3 "User" (PClass 0) ex_preregistered = Ok (v, st')
    /\ refs_or_empty st' !! KType (TSchema 0) = Some "User"
    /\ refs_or_empty st' !! KType (TSchema 1) = Some "Animal".
Proof.
  destruct (schema_definition_helper ex_cls_name ex_cls_fields
              ex_schema2jsonschema 3 "User" (PClass 0) ex_preregistered)
    as [[v st']|e] eqn:Hrun; [|vm_compute in Hrun; discriminate].
  exists v, st'. split; [reflexivity|].
  destruct (declaration_keeps_other_entries _ _ _ _ _ _ _ _ _ Hrun)
    as (key & Hkey & Hname & Hothers).
  inversion Hkey; subst key. split; [exact Hname|].
  apply Hothers; [discriminate | reflexivity].
Defined.

(** X3.  An entry that a successful declaration adds for a key other
    than its own carries the name that the naming policy returns for that
    key, and that name is not empty. *)
Theorem discovered_names_come_from_policy (cls_name : cls -> string)
    (cls_fields : cls -> list (string * field))
    (schema2jsonschema : state -> pyval -> option string -> bool -> pyval)
    (depth : nat) (name : string) (schema : pyval) (key : schema_ref)
    (st : state) (v : pyval) (st' : state) (k : schema_ref) (n : string) :
  schema_definition_helper cls_name cls_fields schema2jsonschema depth
    name schema st = Ok (v, st') ->
  get_schema_ref cls_name (st_heap st) schema = Ok key ->
  k <> key ->
  refs_or_empty st !! k = None ->
  refs_or_empty st' !! k = Some n ->
  exists resolver,
    schema_name_resolver st = Some resolver
    /\ resolver k = Some n
    /\ n <> "".
Proof.
  intros Hrun Hkey Hk Hnone Hsome.
  apply (helper_sound cls_name cls_fields schema2jsonschema) in Hrun
    as (key' & Hkey' & _ & _ & Hothers).
  assert (key' = key) as -> by congruence.
  destruct (Hothers k Hk) as [E | (_ & _ & E)]; [congruence|].
  rewrite Hsome in E. unfold policy_name in E.
  destruct (schema_name_resolver st) as [resolver|]; [|discriminate].
  exists resolver. split; [reflexivity|].
  unfold name_truthy in E. destruct (resolver k) as [s|]; [|discriminate].
  unfold str_truthy in E. destruct (bool_decide (s = "")) eqn:Hs;
    cbn in E; [discriminate|].
  apply bool_decide_eq_false in Hs. inversion E; subst. auto.
Qed.

Lemma discovered_names_come_from_policy_witness :
  exists resolver,
    schema_name_resolver ex_start = Some resolver
    /\ resolver (KType (TSchema 2)) = Some "Category"
    /\ "Category" <> "".
Proof.
  destruct (schema_definition_helper ex_cls_name ex_cls_fields
              ex_schema2jsonschema 3 "User" (PClass 0) ex_start)
    as [[v st']|e] eqn:Hrun; [|vm_compute in Hrun; discriminate].
  apply (discovered_names_come_from_policy ex_cls_name ex_cls_fields
           ex_schema2jsonschema 3 "User" (PClass 0) (KType (TSchema 0))
           ex_start v st' (KType (TSchema 2)) "Category" Hrun eq_refl).
  - discriminate.
  - reflexivity.
  - vm_compute in Hrun. inversion Hrun. reflexivity.
Defined.

(** X4.  Declaring a schema and then resolving the same class or instance
    is a round trip: the resolver returns the pointer to the declared
    name, inside an array descriptor when the reference is an instance
    with [many] set, and leaves the state as it is. *)
Theorem declared_schema_resolves_to_pointer (cls_name : cls -> string)
    (cls_fields : cls -> list (string * field))
    (get_class : string -> option cls)
    (schema2jsonschema : state -> pyval -> option string -> bool -> pyval)
    (depth : nat) (name : string) (schema : pyval) (st : state)
    (v : pyval) (st' : state) (dump use_instances : bool) :
  is_schema schema = true ->
  schema_definition_helper cls_name cls_fields schema2jsonschema depth
    name schema st = Ok (v, st') ->
  exists many,
    schema_many (st_heap st') schema = Ok many
    /\ resolve_schema_dict cls_name get_class schema2jsonschema
         schema dump use_instances st'
       = Ok (if many : bool then
               PDict [(DStr "type", PStr "array");
                      (DStr "items",
                       PDict [(DStr "$ref", PStr ("#/definitions/" +:+ name))])]
             else PDict [(DStr "$ref", PStr ("#/definitions/" +:+ name))], st').
Proof.
  intros Hs Hrun.
  apply (helper_sound cls_name cls_fields schema2jsonschema) in Hrun
    as (key & Hkey & E & Hname & _).
  destruct schema as [| | | | | |c|l]; try discriminate.
  - inversion Hkey; subst key. exists false. split; [reflexivity|].
    rewrite resolve_class. by rewrite Hname.
  - apply get_schema_ref_inst_inv in Hkey as (o & Hl & ->).
    pose proof (ext_heap _ _ E _ _ Hl) as Hl'.
    exists (o_many o). split; [cbn; by rewrite (deref_ok _ _ _ Hl')|].
    rewrite (resolve_instance _ _ _ _ _ _ _ _ Hl'). by rewrite Hname.
Qed.

Lemma declared_schema_resolves_to_pointer_witness :
  exists v st',
    schema_definition_helper ex_cls_name ex_cls_fields ex_schema2jsonschema
      1 "UserList" (PInst 5) ex_heap_list_state = Ok (v, st')
    /\ resolve_schema_dict ex_cls_name ex_get_class ex_schema2jsonschema
         (PInst 5) true false st'
       = Ok (PDict [(DStr "type", PStr "array");
                    (DStr "items",
                     PDict [(DStr "$ref", PStr "#/definitions/UserList")])],
             st').
Proof.
  destruct (schema_definition_helper ex_cls_name ex_cls_fields
              ex_schema2jsonschema 1 "UserList" (PInst 5) ex_heap_list_state)
    as [[v st']|e] eqn:Hrun; [|vm_compute in Hrun; discriminate].
  exists v, st'. split; [reflexivity|].
  destruct (declared_schema_resolves_to_pointer ex_cls_name ex_cls_fields
              ex_get_class ex_schema2jsonschema 1 "UserList" (PInst 5)
              ex_heap_list_state v st' true false eq_refl Hrun)
    as (many & Hmany & Hres).
  vm_compute in Hrun. inversion Hrun; subst v st'.
  inversion Hmany; subst many. exact Hres.
Defined.

(** ** Discovery: further statements *)

Section DiscoveryFacts.

Variable cls_name : cls -> string.
Variable cls_fields : cls -> list (string * field).
Variable schema2jsonschema : state -> pyval -> option string -> bool -> pyval.

(** A loop that ends well has run its body well on every item. *)
Lemma for_each_ok_inv {A} (items : list A) (body : A -> M unit) st st' item :
  for_each items body st = Ok (tt, st') ->
  item ∈ items ->
  exists s s', body item s = Ok (tt, s').
Proof.
  revert st. induction items as [|x items IH]; intros st Hrun Hin.
  { by apply elem_of_nil in Hin. }
  cbn [for_each] in Hrun. apply bind_inv in Hrun as ([] & st1 & H1 & H2).
  apply elem_of_cons in Hin as [->|Hin]; eauto.
Qed.

(** The fields over which a successful declaration with a naming policy
    has run its loop. *)
Lemma helper_walks_fields depth name schema st v st' resolver :
  schema_name_resolver st = Some resolver ->
  schema_definition_helper cls_name cls_fields schema2jsonschema depth
    name schema st = Ok (v, st') ->
  exists l st1 o s,
    get_schema_instance cls_fields schema st = Ok (PInst l, st1)
    /\ st_heap st1 !! l = Some o
    /\ for_each (o_fields o)
         (inspect_field cls_name
            (spec_definition
               (schema_definition_helper cls_name cls_fields schema2jsonschema
                  (pred depth)))) s
       = Ok (tt, st').
Proof.
  intros Hr Hrun. destruct depth as [|depth]; [discriminate|].
  rewrite helper_unfold in Hrun.
  destruct (get_schema_ref cls_name (st_heap st) schema) as [key|] eqn:Hkey;
    [|discriminate].
  cbn zeta in Hrun. rewrite Hr in Hrun.
  destruct (inspect_schema_for_auto_referencing _ _ _ _) as [[[] st4]|] eqn:Hi;
    [|discriminate].
  inversion Hrun; subst v st4; clear Hrun.
  unfold inspect_schema_for_auto_referencing in Hi.
  apply bind_inv in Hi as (s0 & s1 & H0 & Hi).
  inversion H0; subst s0 s1; clear H0.
  cbn [with_event schema_name_resolver] in Hi.
  rewrite (ext_resolver _ _ (bound_extends cls_fields st key name schema)), Hr
    in Hi.
  apply bind_inv in Hi as ([] & s1 & H1 & Hi).
  apply bind_inv in Hi as (items & s2 & H2 & Hi).
  unfold schema_fields in H2.
  rewrite get_schema_instance_run.
  destruct (instantiated cls_fields st schema) as [inst st1] eqn:Hinst.
  cbn [fst] in H2. destruct inst as [| | | | | | |l]; try discriminate.
  apply rbind_inv in H2 as (o & Hl & H2). apply deref_inv in Hl.
  inversion H2; subst items s2; clear H2.
  exists l, st1, o, s1. split; [reflexivity|]. split; [|exact Hi].
  unfold ensure_refs in H1. cbn in H1. inversion H1; subst s1.
  unfold bound in Hl. rewrite Hinst in Hl. exact Hl.
Qed.

Lemma get_schema_ref_raise h schema e :
  get_schema_ref cls_name h schema = Raise e -> e = InvalidReference.
Proof.
  destruct schema; try discriminate. cbn. unfold deref.
  destruct (h !! l); cbn.
  - destruct (str_truthy _); discriminate.
  - intros H. by inversion H.
Qed.

Section Raises.

Variable definition : string -> pyval -> M unit.
Hypothesis definition_ok : definition_spec cls_name definition.
Hypothesis definition_raises :
  forall n schema s e,
    definition n schema s = Raise e -> declaration_error e = true.

Lemma inspect_field_raise item st e :
  is_Some (plug_refs st) ->
  is_Some (schema_name_resolver st) ->
  inspect_field cls_name definition item st = Raise e ->
  declaration_error e = true.
Proof.
  intros [refs Hp] [resolver Hr] Hrun. destruct item as [name f].
  destruct (plain_field f) eqn:Hf.
  { rewrite inspect_field_plain in Hrun by exact Hf. discriminate. }
  destruct f as [l|[l'|c|]|]; try discriminate.
  2:{ rewrite inspect_field_list_of_nested in Hrun. by inversion Hrun. }
  destruct (st_heap st !! l) as [o|] eqn:Hl.
  2:{ rewrite inspect_field_dangling in Hrun by exact Hl. by inversion Hrun. }
  rewrite (inspect_field_nested _ _ _ _ _ _ Hl), Hp, Hr in Hrun.
  destruct (refs !! instance_ref cls_name o); [discriminate|].
  destruct (name_truthy _); [|discriminate].
  by apply definition_raises in Hrun.
Qed.

Lemma inspect_fields_raise items st e :
  is_Some (plug_refs st) ->
  is_Some (schema_name_resolver st) ->
  for_each items (inspect_field cls_name definition) st = Raise e ->
  declaration_error e = true.
Proof.
  revert st. induction items as [|item items IH]; intros st Hp Hr Hrun.
  { discriminate. }
  cbn [for_each] in Hrun. unfold bind in Hrun.
  destruct (inspect_field cls_name definition item st) as [[[] st1]|e1] eqn:H1.
  - apply (inspect_field_sound cls_name _ definition_ok) in H1 as (E & _ & S).
    apply (IH st1); [auto | by rewrite (ext_resolver _ _ E) | exact Hrun].
  - inversion Hrun; subst e1. by eapply inspect_field_raise.
Qed.

Lemma inspect_raise schema st e :
  is_Some (schema_name_resolver st) ->
  inspect_schema_for_auto_referencing cls_name definition schema st = Raise e ->
  declaration_error e = true.
Proof.
  intros [resolver Hr] Hrun. unfold inspect_schema_for_auto_referencing in Hrun.
  unfold bind at 1 in Hrun. cbn [get_state] in Hrun. rewrite Hr in Hrun.
  unfold bind at 1 in Hrun.
  destruct (ensure_refs_run st) as (st1 & H1 & E1 & _ & P1 & _).
  rewrite H1 in Hrun. unfold bind at 1 in Hrun.
  destruct (schema_fields schema st1) as [[items s2]|e2] eqn:H2.
  - assert (s2 = st1) as ->.
    { unfold schema_fields in H2. destruct schema; try discriminate.
      destruct (deref _ _); inversion H2; reflexivity. }
    apply (inspect_fields_raise items st1);
      [by rewrite P1 | by rewrite (ext_resolver _ _ E1), Hr | exact Hrun].
  - inversion Hrun; subst e2. unfold schema_fields in H2.
    destruct schema; try (by inversion H2).
    unfold deref in H2. destruct (st_heap st1 !! l); cbn in H2; by inversion H2.
Qed.

End Raises.

Lemma helper_raise depth name schema st e :
  schema_definition_helper cls_name cls_fields schema2jsonschema depth
    name schema st = Raise e ->
  declaration_error e = true.
Proof.
  revert name schema st e.
  induction depth as [|depth IH]; intros name schema st e Hrun.
  { by inversion Hrun. }
  rewrite helper_unfold in Hrun.
  destruct (get_schema_ref cls_name (st_heap st) schema) as [key|e0] eqn:Hkey.
  2:{ inversion Hrun; subst e0. by rewrite (get_schema_ref_raise _ _ _ Hkey). }
  cbn zeta in Hrun.
  destruct (schema_name_resolver st) as [resolver|] eqn:Hr; [|discriminate].
  destruct (inspect_schema_for_auto_referencing _ _ _ _) as [[[] st4]|e1] eqn:Hi;
    [discriminate|].
  inversion Hrun; subst e1.
  eapply inspect_raise; [| | | exact Hi].
  - apply spec_definition_ok, helper_sound.
  - intros n sch s e' Hdef. rewrite spec_definition_run in Hdef.
    destruct (schema_definition_helper _ _ _ depth n sch _) as [[? ?]|e2] eqn:H2;
      [discriminate|].
    inversion Hdef; subst e2. by eapply IH.
  - cbn [with_event schema_name_resolver].
    rewrite (ext_resolver _ _ (bound_extends cls_fields st key name schema)).
    rewrite Hr. eauto.
Qed.

End DiscoveryFacts.

(** X5.  After a successful declaration under a naming policy, every
    nested field of the declared instance is settled: its schema is an
    object of the store whose key is registered, unless the policy declines
    that key. *)
Theorem nested_fields_settled_after_declaration (cls_name : cls -> string)
    (cls_fields : cls -> list (string * field))
    (schema2jsonschema : state -> pyval -> option string -> bool -> pyval)
    (depth : nat) (name : string) (schema : pyval) (st : state)
    (v : pyval) (st' : state) (resolver : schema_ref -> option string) :
  schema_name_resolver st = Some resolver ->
  schema_definition_helper cls_name cls_fields schema2jsonschema depth
    name schema st = Ok (v, st') ->
  exists l st1 o,
    get_schema_instance cls_fields schema st = Ok (PInst l, st1)
    /\ st_heap st1 !! l = Some o
    /\ forall fname l',
         (fname, Nested l') ∈ o_fields o ->
         exists key',
           get_schema_ref cls_name (st_heap st') (PInst l') = Ok key'
           /\ (is_Some (refs_or_empty st' !! key')
               \/ name_truthy (resolver key') = None).
Proof.
  intros Hr Hrun.
  destruct (helper_settles cls_name cls_fields schema2jsonschema
              _ _ _ _ _ _ _ Hr Hrun) as (l & st1 & o & Hi & Hl & Hs).
  apply (helper_sound cls_name cls_fields schema2jsonschema) in Hrun
    as (_ & _ & E & _).
  exists l, st1, o. rewrite get_schema_instance_run, Hi.
  split; [reflexivity|]. split; [exact Hl|].
  intros fname l' Hin.
  rewrite Forall_forall in Hs. specialize (Hs _ Hin). cbn [snd] in Hs.
  destruct Hs as [Hplain | (l0 & o0 & Heq & Hl0 & Hset)]; [discriminate|].
  inversion Heq; subst l0.
  exists (instance_ref cls_name o0).
  split; [by apply get_schema_ref_inst|].
  unfold policy_name in Hset. by rewrite (ext_resolver _ _ E), Hr in Hset.
Qed.

Lemma nested_fields_settled_after_declaration_witness :
  exists v st' key',
    schema_definition_helper ex_cls_name ex_cls_fields ex_schema2jsonschema
      3 "User" (PInst 3) ex_start = Ok (v, st')
    /\ get_schema_ref ex_cls_name (st_heap st') (PInst 1) = Ok key'
    /\ (is_Some (refs_or_empty st' !! key')
        \/ name_truthy (ex_resolver key') = None).
Proof.
  destruct (schema_definition_helper ex_cls_name ex_cls_fields
              ex_schema2jsonschema 3 "User" (PInst 3) ex_start)
    as [[v st']|e] eqn:Hrun; [|vm_compute in Hrun; discriminate].
  destruct (nested_fields_settled_after_declaration ex_cls_name ex_cls_fields
              ex_schema2jsonschema 3 "User" (PInst 3) ex_start v st'
              ex_resolver eq_refl Hrun) as (l & st1 & o & Hi & Hl & Hall).
  inversion Hi; subst l st1. inversion Hl; subst o.
  destruct (Hall "pets" 1) as (key' & Hkey' & Hset).
  { cbn. rewrite !elem_of_cons. auto. }
  exists v, st', key'. auto.
Defined.

(** X6.  Under a naming policy, the declaration of a schema one of whose
    fields is a [fields.List] of nested schemas never succeeds, whatever
    the registry holds and however many levels of calls are available:
    discovery reads [field.schema] on the list field, which has a
    [container] and no [schema]. *)
Theorem list_of_nested_stops_declaration (cls_name : cls -> string)
    (cls_fields : cls -> list (string * field))
    (schema2jsonschema : state -> pyval -> option string -> bool -> pyval)
    (depth : nat) (name : string) (schema : pyval) (st st1 : state)
    (resolver : schema_ref -> option string)
    (l : loc) (o : schema_obj) (fname : string) (l' : loc) :
  schema_name_resolver st = Some resolver ->
  get_schema_instance cls_fields schema st = Ok (PInst l, st1) ->
  st_heap st1 !! l = Some o ->
  (fname, ListOf (Nested l')) ∈ o_fields o ->
  exists e,
    schema_definition_helper cls_name cls_fields schema2jsonschema depth
      name schema st = Raise e
    /\ declaration_error e = true.
Proof.
  intros Hr Hi Hl Hin.
  destruct (schema_definition_helper cls_name cls_fields schema2jsonschema
              depth name schema st) as [[v st']|e] eqn:Hrun.
  - exfalso.
    destruct (helper_walks_fields cls_name cls_fields schema2jsonschema
                _ _ _ _ _ _ _ Hr Hrun) as (l2 & st2 & o2 & s & Hi2 & Hl2 & Hloop).
    rewrite Hi in Hi2. inversion Hi2; subst l2 st2.
    rewrite Hl in Hl2. inversion Hl2; subst o2.
    destruct (for_each_ok_inv _ _ _ _ _ Hloop Hin) as (s1 & s2 & Hstep).
    rewrite inspect_field_list_of_nested in Hstep. discriminate.
  - exists e. split; [reflexivity|]. by eapply helper_raise.
Qed.

Lemma list_of_nested_stops_declaration_witness :
  exists e,
    schema_definition_helper ex_cls_name ex_cls_fields ex_schema2jsonschema
      4 "User" (PInst 5) ex_list_state = Raise e
    /\ declaration_error e = true.
Proof.
  apply (list_of_nested_stops_declaration ex_cls_name ex_cls_fields
           ex_schema2jsonschema 4 "User" (PInst 5) ex_list_state ex_list_state
           ex_resolver 5 _ "pets" 1 eq_refl eq_refl eq_refl).
  cbn. rewrite !elem_of_cons. auto.
Defined.



(** ** Termination of discovery *)

Section Termination.

Variable cls_name : cls -> string.
Variable cls_fields : cls -> list (string * field).
Variable schema2jsonschema : state -> pyval -> option string -> bool -> pyval.

Lemma elem_of_heap_keys h k :
  k ∈ heap_keys cls_name h
  <-> exists l o, h !! l = Some o /\ k = instance_ref cls_name o.
Proof.
  unfold heap_keys. rewrite elem_of_list_to_set, list_elem_of_fmap. split.
  - intros (o & -> & Hin). apply list_elem_of_lookup in Hin as [l Hl]. eauto.
  - intros (l & o & Hl & ->). exists o. split; [reflexivity|].
    apply list_elem_of_lookup. eauto.
Qed.

Lemma same_objects_refl st : same_objects st st.
Proof.
  intros l o Hl. exists l, o. split; [exact Hl|]. by destruct o.
Qed.

Lemma same_objects_trans st1 st2 st3 :
  same_objects st1 st2 -> same_objects st2 st3 -> same_objects st1 st3.
Proof.
  intros H12 H23 l3 o3 Hl3.
  destruct (H23 _ _ Hl3) as (l2 & o2 & Hl2 & E3).
  destruct (H12 _ _ Hl2) as (l1 & o1 & Hl1 & E2).
  exists l1, o1. split; [exact Hl1|]. rewrite E3, E2. reflexivity.
Qed.

Lemma same_objects_heap st st' :
  st_heap st' = st_heap st -> same_objects st st'.
Proof.
  intros E l o Hl. rewrite E in Hl. exact (same_objects_refl st _ _ Hl).
Qed.

Lemma same_objects_keys st st' :
  same_objects st st' ->
  heap_keys cls_name (st_heap st') ⊆ heap_keys cls_name (st_heap st).
Proof.
  intros Hso k. rewrite !elem_of_heap_keys. intros (l' & o' & Hl' & ->).
  destruct (Hso _ _ Hl') as (l & o & Hl & ->). exists l, o. auto.
Qed.

Lemma extends_length st st' :
  extends st st' -> length (st_heap st) <= length (st_heap st').
Proof.
  intros E. destruct (decide (length (st_heap st) <= length (st_heap st')))
    as [|Hgt]; [assumption|].
  destruct (lookup_lt_is_Some_2 (st_heap st) (length (st_heap st'))) as [o Ho];
    [lia|].
  apply (ext_heap _ _ E) in Ho. apply lookup_lt_Some in Ho. lia.
Qed.

Lemma wf_fields_mono n m items :
  n <= m -> wf_fields n items = true -> wf_fields m items = true.
Proof.
  intros Hnm. unfold wf_fields. rewrite !forallb_forall.
  intros H item Hin. specialize (H item Hin).
  destruct item as [name [l|[l'|c|]|]]; cbn in *; try done.
  apply bool_decide_eq_true in H. apply bool_decide_eq_true. lia.
Qed.

Lemma grows_refl st : grows st st.
Proof.
  split; [apply extends_refl|]. split; [apply same_objects_refl|]. auto.
Qed.

Lemma grows_trans st1 st2 st3 : grows st1 st2 -> grows st2 st3 -> grows st1 st3.
Proof.
  intros (E1 & S1 & D1 & P1) (E2 & S2 & D2 & P2).
  split; [eapply extends_trans; eauto|].
  split; [eapply same_objects_trans; eauto|].
  split; [set_solver | auto].
Qed.

Lemma grows_wf st st' :
  grows st st' -> wf_heap (st_heap st) -> wf_heap (st_heap st').
Proof.
  intros (E & S & _) Hwf l' o' Hl'.
  destruct (S _ _ Hl') as (l & o & Hl & ->). cbn [with_many o_fields].
  eapply wf_fields_mono; [apply extends_length, E | by eapply Hwf].
Qed.

Lemma grows_pending st st' :
  grows st st' -> pending cls_name st' <= pending cls_name st.
Proof.
  intros (_ & S & D & _). unfold pending. apply subseteq_size.
  pose proof (same_objects_keys _ _ S). set_solver.
Qed.

Lemma singular_target_grows st l o :
  st_heap st !! l = Some o -> grows st (singular_target cls_name st l o).2.
Proof.
  intros Hl. split; [apply singular_target_extends|]. split.
  - unfold singular_target. destruct (o_many o) eqn:Hm; cbn [snd].
    + intros l' o' Hl'. cbn in Hl'.
      apply lookup_app_Some in Hl' as [Hl' | [_ Hl']].
      * exact (same_objects_refl st _ _ Hl').
      * apply list_lookup_singleton_Some in Hl' as [_ <-].
        exists l, o. split; [exact Hl | reflexivity].
    + by apply same_objects_heap.
  - rewrite singular_target_refs_or_empty, singular_target_refs. auto.
Qed.

Lemma grows_event st e : grows st (with_event st e).
Proof.
  split; [apply extends_event|]. split; [by apply same_objects_heap | auto].
Qed.

(** The loop, given that declarations one level down end well. *)
Lemma inspect_fields_total depth :
  (forall name l o st,
      wf_heap (st_heap st) ->
      st_heap st !! l = Some o ->
      size (heap_keys cls_name (st_heap st)
            ∖ ({[instance_ref cls_name o]} ∪ dom (refs_or_empty st))) < depth ->
      exists v st',
        schema_definition_helper cls_name cls_fields schema2jsonschema depth
          name (PInst l) st = Ok (v, st')
        /\ grows st st') ->
  forall items st,
    wf_heap (st_heap st) ->
    wf_fields (length (st_heap st)) items = true ->
    is_Some (plug_refs st) ->
    is_Some (schema_name_resolver st) ->
    pending cls_name st <= depth ->
    exists st',
      for_each items
        (inspect_field cls_name
           (spec_definition
              (schema_definition_helper cls_name cls_fields schema2jsonschema
                 depth))) st
      = Ok (tt, st')
      /\ grows st st'.
Proof.
  intros Hhelper items.
  induction items as [|[name f] items IH]; intros st Hwf Hfields Hp Hr Hpend.
  { exists st. split; [reflexivity | apply grows_refl]. }
  cbn [wf_fields forallb snd] in Hfields.
  apply andb_true_iff in Hfields as [Hf Hrest]. fold (wf_fields (length (st_heap st)) items) in Hrest.
  assert (exists st1,
            inspect_field cls_name
              (spec_definition
                 (schema_definition_helper cls_name cls_fields
                    schema2jsonschema depth)) (name, f) st = Ok (tt, st1)
            /\ grows st st1) as (st1 & H1 & G1).
  { destruct (plain_field f) eqn:Hplain.
    { exists st. rewrite inspect_field_plain by exact Hplain.
      split; [reflexivity | apply grows_refl]. }
    destruct f as [l|[l'|c|]|]; try discriminate.
    cbn in Hf. apply bool_decide_eq_true in Hf.
    destruct (lookup_lt_is_Some_2 _ _ Hf) as [o Hl].
    rewrite (inspect_field_nested _ _ _ _ _ _ Hl).
    destruct Hp as [refs Hp]. destruct Hr as [resolver Hr]. rewrite Hp, Hr.
    destruct (refs !! instance_ref cls_name o) as [n|] eqn:Hk.
    { exists st. split; [reflexivity | apply grows_refl]. }
    pose proof (singular_target_grows st l o Hl) as Gt.
    destruct (name_truthy (resolver (instance_ref cls_name o))) as [n|] eqn:Hn.
    2:{ eexists. split; [reflexivity | exact Gt]. }
    rewrite spec_definition_run.
    set (tgt := (singular_target cls_name st l o).1) in *.
    set (s2 := with_event (singular_target cls_name st l o).2
                 (CallDefinition n (PInst tgt))).
    assert (grows st s2) as G2
      by (eapply grows_trans; [exact Gt | apply grows_event]).
    destruct (Hhelper n tgt (with_many o false) s2) as (v & st1 & Hrun & G3).
    - by apply (grows_wf st).
    - apply (singular_target_lookup cls_name st l o Hl).
    - rewrite instance_ref_with_many.
      eapply Nat.lt_le_trans; [|exact Hpend]. unfold pending.
      apply subset_size.
      pose proof (same_objects_keys _ _ (proj1 (proj2 G2))) as Hkeys.
      assert (refs_or_empty s2 = refs_or_empty st) as ->
        by apply singular_target_refs_or_empty.
      assert (instance_ref cls_name o ∈ heap_keys cls_name (st_heap st))
        by (apply elem_of_heap_keys; eauto).
      assert (instance_ref cls_name o ∉ dom (refs_or_empty st)).
      { rewrite not_elem_of_dom. unfold refs_or_empty. by rewrite Hp. }
      set_solver.
    - exists st1. rewrite Hrun. split; [reflexivity|].
      eapply grows_trans; eauto. }
  destruct (IH st1) as (st' & H2 & G2).
  - by apply (grows_wf st).
  - eapply wf_fields_mono; [|exact Hrest]. apply extends_length, G1.
  - apply G1, Hp.
  - rewrite (ext_resolver _ _ (proj1 G1)). exact Hr.
  - pose proof (grows_pending _ _ G1). lia.
  - exists st'. cbn [for_each]. unfold bind. rewrite H1.
    split; [exact H2 | eapply grows_trans; eauto].
Qed.

Lemma helper_total depth :
  forall name schema key l st1 o st,
    instantiated cls_fields st schema = (PInst l, st1) ->
    get_schema_ref cls_name (st_heap st) schema = Ok key ->
    wf_heap (st_heap st1) ->
    st_heap st1 !! l = Some o ->
    size (heap_keys cls_name (st_heap st1)
          ∖ ({[key]} ∪ dom (refs_or_empty st))) < depth ->
    exists v st',
      schema_definition_helper cls_name cls_fields schema2jsonschema depth
        name schema st = Ok (v, st')
      /\ grows st1 st'.
Proof.
  induction depth as [|depth IH];
    intros name schema key l st1 o st Hi Hkey Hwf Hl Hsize; [lia|].
  rewrite helper_unfold, Hkey. cbn zeta. unfold bound. rewrite Hi.
  cbn [fst snd].
  assert (refs_or_empty st1 = refs_or_empty st) as Hre.
  { unfold refs_or_empty.
    rewrite <- (instantiated_refs cls_fields st schema). by rewrite Hi. }
  assert (schema_name_resolver st1 = schema_name_resolver st) as Hres.
  { pose proof (instantiated_extends cls_fields st schema) as E.
    rewrite Hi in E. apply E. }
  fold (declared st1 key name (PInst l)).
  set (st3 := declared st1 key name (PInst l)).
  assert (grows st1 st3) as G3.
  { split; [apply declared_extends|]. split; [by apply same_objects_heap|].
    split; [|intros _; cbn; eauto].
    unfold st3. rewrite declared_refs, dom_insert_L. set_solver. }
  destruct (schema_name_resolver st) as [resolver|] eqn:Hr.
  2:{ eexists _, _. split; [reflexivity | exact G3]. }
  erewrite inspect_instance; [| exact Hl | exact Hres | reflexivity].
  destruct (inspect_fields_total depth) with (items := o_fields o) (st := st3)
    as (st' & Hloop & G).
  - intros n l0 o0 s Hwf0 Hl0 Hsize0.
    apply (IH n (PInst l0) (instance_ref cls_name o0) l0 s o0 s);
      [reflexivity | by apply get_schema_ref_inst | assumption..].
  - exact Hwf.
  - by apply (Hwf l o).
  - cbn. eauto.
  - cbn. rewrite Hres. eauto.
  - unfold pending, st3. rewrite declared_refs, dom_insert_L, Hre.
    cbn [declared with_event with_refs st_heap]. lia.
  - exists (schema2jsonschema
              (with_refs st1 (<[key:=name]> (refs_or_empty st1)))
              (PInst l) (Some name) true), st'.
    rewrite Hloop. split; [reflexivity | eapply grows_trans; eauto].
Qed.

End Termination.

(** X8.  On a store in which every nested field refers to an object and
    no field is a list of nested schemas, a declaration that is given more
    levels of calls than there are unregistered keys in the store succeeds,
    with or without a naming policy, also when schemas nest each other in
    a cycle: a key is bound before the fields of its schema are walked, and
    a bound key is not declared again. *)
Theorem discovery_terminates (cls_name : cls -> string)
    (cls_fields : cls -> list (string * field))
    (schema2jsonschema : state -> pyval -> option string -> bool -> pyval)
    (depth : nat) (name : string) (schema : pyval) (l : loc)
    (o : schema_obj) (st st1 : state) :
  get_schema_instance cls_fields schema st = Ok (PInst l, st1) ->
  st_heap st1 !! l = Some o ->
  wf_heap (st_heap st1) ->
  pending cls_name st < depth ->
  exists v st',
    schema_definition_helper cls_name cls_fields schema2jsonschema depth
      name schema st = Ok (v, st').
Proof.
  intros Hi Hl Hwf Hpend. rewrite get_schema_instance_run in Hi.
  apply (f_equal (fun r => match r with Ok x => x | Raise _ => (PNone, st) end))
    in Hi. cbn in Hi.
  assert (exists key,
            get_schema_ref cls_name (st_heap st) schema = Ok key
            /\ heap_keys cls_name (st_heap st1) ∖ {[key]}
               ⊆ heap_keys cls_name (st_heap st)) as (key & Hkey & Hsub).
  { destruct schema as [| | | | | |c|l0]; try discriminate.
    - exists (KType (TSchema c)). split; [reflexivity|].
      cbn in Hi. inversion Hi; subst l st1.
      intros k [Hk Hne]%elem_of_difference.
      apply elem_of_heap_keys in Hk as (l' & o' & Hl' & ->).
      cbn in Hl'. apply lookup_app_Some in Hl' as [Hl' | [_ Hl']].
      + apply elem_of_heap_keys. eauto.
      + apply list_lookup_singleton_Some in Hl' as [_ <-].
        exfalso. apply Hne. apply elem_of_singleton. reflexivity.
    - cbn in Hi. inversion Hi; subst l0 st1.
      exists (instance_ref cls_name o).
      split; [by apply get_schema_ref_inst | set_solver]. }
  destruct (helper_total cls_name cls_fields schema2jsonschema depth
              name schema key l st1 o st Hi Hkey Hwf Hl) as (v & st' & Hrun & _).
  - eapply Nat.le_lt_trans; [|exact Hpend]. unfold pending.
    apply subseteq_size. set_solver.
  - eauto.
Qed.

Lemma discovery_terminates_witness :
  exists v st',
    schema_definition_helper ex_cls_name ex_cls_fields ex_schema2jsonschema
      3 "Author" (PInst 0) ex_cyclic = Ok (v, st').
Proof.
  apply (discovery_terminates ex_cls_name ex_cls_fields ex_schema2jsonschema
           3 "Author" (PInst 0) 0 _ ex_cyclic ex_cyclic eq_refl eq_refl).
  - intros [|[|l]] o Hl; inversion Hl; reflexivity.
  - vm_compute. lia.
Defined.

(** ** Resolution: further statements *)

(** Induction on a value through the members of lists and mappings. *)
Lemma pyval_nested_ind (P : pyval -> Prop) :
  P PNone ->
  (forall b, P (PBool b)) ->
  (forall n, P (PInt n)) ->
  (forall s, P (PStr s)) ->
  (forall xs, Forall P xs -> P (PList xs)) ->
  (forall d, Forall (fun kv => P kv.2) d -> P (PDict d)) ->
  (forall c, P (PClass c)) ->
  (forall l, P (PInst l)) ->
  forall v, P v.
Proof.
  intros HNone HBool HInt HStr HList HDict HClass HInst.
  fix IH 1. intros [ | b | n | s | xs | d | c | l ].
  - exact HNone.
  - apply HBool.
  - apply HInt.
  - apply HStr.
  - apply HList. induction xs as [|x xs IHxs]; constructor;
      [apply IH | exact IHxs].
  - apply HDict. induction d as [|[k w] d IHd]; constructor;
      [apply IH | exact IHd].
  - apply HClass.
  - apply HInst.
Qed.

Lemma dict_get_Forall (P : pyval -> Prop) d k v :
  Forall (fun kv => P kv.2) d -> dict_get d k = Some v -> P v.
Proof.
  induction 1 as [|[k' w] d Hw _ IH]; cbn [dict_get]; [discriminate|].
  destruct (decide (k' = k)); [|exact IH].
  intros H. inversion H; subst. exact Hw.
Qed.

Lemma same_registry_refl st : same_registry st st.
Proof. by repeat split. Qed.

Lemma same_registry_trans st1 st2 st3 :
  same_registry st1 st2 -> same_registry st2 st3 -> same_registry st1 st3.
Proof. intros (P1 & H1 & R1) (P2 & H2 & R2). repeat split; congruence. Qed.

Lemma same_registry_event st e : same_registry st (with_event st e).
Proof. by repeat split. Qed.

Lemma dict_update_with_none k f d st :
  dict_get d k = None -> dict_update_with k f d st = Ok (d, st).
Proof.
  induction d as [|[k' w] d IH]; [reflexivity|].
  cbn [dict_get dict_update_with].
  destruct (decide (k' = k)); [discriminate|].
  intros Hg. unfold bind. by rewrite (IH Hg).
Qed.

Lemma dict_map_values_frame (R : state -> state -> Prop) f d st r st' :
  (forall s, R s s) ->
  (forall s1 s2 s3, R s1 s2 -> R s2 s3 -> R s1 s3) ->
  (forall v s v' s', f v s = Ok (v', s') -> R s s') ->
  dict_map_values f d st = Ok (r, st') -> R st st'.
Proof.
  intros Hrefl Htrans Hf. revert st r.
  induction d as [|[k v] d IH]; intros st r Hrun.
  { inversion Hrun. apply Hrefl. }
  rewrite dict_map_values_cons in Hrun.
  destruct (f v st) as [[v' st1]|] eqn:H1; [|discriminate].
  destruct (dict_map_values f d st1) as [[r' st2]|] eqn:H2; [|discriminate].
  inversion Hrun; subst. eauto.
Qed.

Section ResolutionFacts.

Variable cls_name : cls -> string.
Variable get_class : string -> option cls.
Variable schema2jsonschema : state -> pyval -> option string -> bool -> pyval.
Variable schema2parameters : state -> cls -> pyval -> list pyval.

Lemma resolve_schema_ref_frame schema dump use_instances st r st' :
  resolve_schema_ref cls_name get_class schema2jsonschema
    schema dump use_instances st = Ok (r, st') ->
  same_registry st st'.
Proof.
  unfold resolve_schema_ref. intros Hrun.
  apply bind_inv in Hrun as (s0 & s1 & H0 & Hrun).
  inversion H0; subst s0 s1; clear H0.
  apply bind_inv in Hrun as (scls & s1 & H1 & Hrun).
  apply lift_inv in H1 as [_ ->].
  apply bind_inv in Hrun as (key & s1 & H1 & Hrun).
  apply lift_inv in H1 as [_ ->].
  destruct (refs_or_empty st !! _) as [name|].
  - apply bind_inv in Hrun as (many & s1 & H1 & Hrun).
    apply lift_inv in H1 as [_ ->].
    destruct many; inversion Hrun; subst; apply same_registry_refl.
  - apply bind_inv in Hrun as ([] & s1 & H1 & Hrun).
    inversion H1; subst s1. inversion Hrun; subst.
    apply (same_registry_event st).
Qed.

Lemma resolve_schema_dict_frame schema :
  forall dump use_instances st r st',
    resolve_schema_dict cls_name get_class schema2jsonschema
      schema dump use_instances st = Ok (r, st') ->
    same_registry st st'.
Proof.
  induction schema as [ | b | n | s | xs _ | d IH | c | l ]
    using pyval_nested_ind; intros dump use_instances st r st' Hrun;
    try (by apply resolve_schema_ref_frame in Hrun).
  cbn [resolve_schema_dict] in Hrun.
  destruct (type_is_array d && dict_mem d (DStr "items")) eqn:Ha.
  2:{ inversion Hrun; subst. apply same_registry_refl. }
  apply andb_true_iff in Ha as [_ Hm]. unfold dict_mem in Hm.
  destruct (dict_get d (DStr "items")) as [items|] eqn:Hi; [|discriminate].
  apply bind_inv in Hrun as (d' & s1 & H1 & Hrun).
  inversion Hrun; subst; clear Hrun.
  rewrite (dict_update_with_get _ _ _ _ _ Hi) in H1.
  destruct (resolve_schema_dict _ _ _ items true use_instances st)
    as [[items' s2]|] eqn:H2; [|discriminate].
  inversion H1; subst.
  pose proof (dict_get_Forall
                (fun v => forall dump use_instances st r st',
                   resolve_schema_dict cls_name get_class schema2jsonschema
                     v dump use_instances st = Ok (r, st') ->
                   same_registry st st') _ _ _ IH Hi) as Hitems.
  by eapply Hitems.
Qed.

Lemma resolve_parameter_frame parameter st r st' :
  resolve_parameter get_class schema2parameters parameter st = Ok (r, st') ->
  same_registry st st'.
Proof.
  destruct parameter as [| | | | |p| |]; try discriminate.
  cbn [resolve_parameter].
  destruct (is_dict _).
  { intros H. inversion H; subst. apply same_registry_refl. }
  intros Hrun. apply bind_inv in Hrun as (s0 & s1 & H0 & Hrun).
  inversion H0; subst s0 s1; clear H0.
  apply bind_inv in Hrun as (c & s1 & H1 & Hrun).
  apply lift_inv in H1 as [_ ->].
  destruct (dict_get p (DStr "in")).
  - apply bind_inv in Hrun as ([] & s1 & H1 & Hrun).
    inversion H1; subst s1. inversion Hrun; subst.
    apply (same_registry_event st).
  - inversion Hrun; subst. apply same_registry_refl.
Qed.

Lemma resolve_parameters_loop_frame parameters st r st' :
  resolve_parameters_loop get_class schema2parameters parameters st
  = Ok (r, st') ->
  same_registry st st'.
Proof.
  revert st r. induction parameters as [|p ps IH]; intros st r Hrun.
  { inversion Hrun; subst. apply same_registry_refl. }
  cbn [resolve_parameters_loop] in Hrun.
  apply bind_inv in Hrun as (r1 & s1 & H1 & Hrun).
  apply bind_inv in Hrun as (r2 & s2 & H2 & Hrun).
  inversion Hrun; subst.
  eapply same_registry_trans; [by eapply resolve_parameter_frame | eauto].
Qed.

Lemma resolve_parameters_frame parameters st r st' :
  resolve_parameters get_class schema2parameters parameters st = Ok (r, st') ->
  same_registry st st'.
Proof.
  unfold resolve_parameters. intros Hrun.
  apply bind_inv in Hrun as (ps & s1 & H1 & Hrun).
  apply lift_inv in H1 as [_ ->].
  apply bind_inv in Hrun as (r1 & s1 & H1 & Hrun).
  inversion Hrun; subst. by eapply resolve_parameters_loop_frame.
Qed.

Lemma dict_update_with_frame k f d st r st' :
  (forall v s v' s', f v s = Ok (v', s') -> same_registry s s') ->
  dict_update_with k f d st = Ok (r, st') -> same_registry st st'.
Proof.
  intros Hf Hrun. destruct (dict_get d k) as [v|] eqn:Hg.
  - rewrite (dict_update_with_get _ _ _ _ _ Hg) in Hrun.
    destruct (f v st) as [[v' s']|] eqn:H1; [|discriminate].
    inversion Hrun; subst. eauto.
  - rewrite dict_update_with_none in Hrun by exact Hg.
    inversion Hrun; subst. apply same_registry_refl.
Qed.

Lemma resolve_response_frame response st r st' :
  resolve_response cls_name get_class schema2jsonschema response st
  = Ok (r, st') ->
  same_registry st st'.
Proof.
  destruct response as [| | |s|xs|d| |]; try discriminate; cbn [resolve_response].
  - destruct (str_contains _ _); [discriminate|].
    intros H; inversion H; subst. apply same_registry_refl.
  - destruct (list_contains_str _ _); [discriminate|].
    intros H; inversion H; subst. apply same_registry_refl.
  - destruct (dict_mem d (DStr "schema")).
    + intros Hrun. apply bind_inv in Hrun as (d' & s1 & H1 & Hrun).
      inversion Hrun; subst.
      eapply dict_update_with_frame; [|exact H1].
      intros v s v' s' Hv. cbn beta in Hv.
      exact (resolve_schema_dict_frame _ _ _ _ _ _ Hv).
    + intros H; inversion H; subst. apply same_registry_refl.
Qed.

Lemma resolve_operation_frame operation st r st' :
  resolve_operation cls_name get_class schema2jsonschema schema2parameters
    operation st = Ok (r, st') ->
  same_registry st st'.
Proof.
  destruct operation as [| | | | |op| |];
    try (intros H; inversion H; subst; apply same_registry_refl).
  cbn [resolve_operation]. intros Hrun.
  apply bind_inv in Hrun as (op1 & s1 & H1 & Hrun).
  assert (same_registry st s1) as R1.
  { destruct (dict_mem op (DStr "parameters")).
    - eapply dict_update_with_frame; [|exact H1].
      intros v s v' s' Hv. by eapply resolve_parameters_frame.
    - inversion H1; subst. apply same_registry_refl. }
  destruct (dict_get op1 (DStr "responses")) as [[| | | | |rs| |]|];
    try discriminate.
  - apply bind_inv in Hrun as (rs' & s2 & H2 & Hrun).
    inversion Hrun; subst.
    eapply same_registry_trans; [exact R1|].
    eapply (dict_map_values_frame same_registry); [| | |exact H2].
    + apply same_registry_refl.
    + apply same_registry_trans.
    + intros v s v' s' Hv. by eapply resolve_response_frame.
  - inversion Hrun; subst. exact R1.
Qed.

End ResolutionFacts.

(** X9.  The rewriting of operations only reads the registry: when
    [schema_operation_resolver], and when [resolve_schema_dict] on any
    value, ends well, the registry, the store of schema objects and the
    naming policy are what they were; no schema is registered while
    references are resolved. *)
Theorem rewriting_reads_only (cls_name : cls -> string)
    (get_class : string -> option cls)
    (schema2jsonschema : state -> pyval -> option string -> bool -> pyval)
    (schema2parameters : state -> cls -> pyval -> list pyval)
    (st : state) :
  (forall operations resolved st',
     schema_operation_resolver cls_name get_class schema2jsonschema
       schema2parameters operations st = Ok (resolved, st') ->
     plug_refs st' = plug_refs st /\ st_heap st' = st_heap st
     /\ schema_name_resolver st' = schema_name_resolver st)
  /\ (forall schema dump use_instances r st',
        resolve_schema_dict cls_name get_class schema2jsonschema
          schema dump use_instances st = Ok (r, st') ->
        plug_refs st' = plug_refs st /\ st_heap st' = st_heap st
        /\ schema_name_resolver st' = schema_name_resolver st).
Proof.
  split.
  - intros operations resolved st' Hrun.
    eapply (dict_map_values_frame same_registry); [| | |exact Hrun].
    + apply same_registry_refl.
    + apply same_registry_trans.
    + intros v s v' s' Hv. by eapply resolve_operation_frame.
  - intros schema dump use_instances r st' Hrun.
    by eapply resolve_schema_dict_frame.
Qed.

Lemma rewriting_reads_only_witness :
  exists resolved st',
    schema_operation_resolver ex_cls_name ex_get_class ex_schema2jsonschema
      ex_schema2parameters
      [(DStr "get",
        PDict [(DStr "responses",
                PDict [(DInt 200, PDict [(DStr "schema", PClass 0)])])])]
      ex_discovering = Ok (resolved, st')
    /\ plug_refs st' = plug_refs ex_discovering
    /\ st_heap st' = st_heap ex_discovering.
Proof.
  destruct (schema_operation_resolver ex_cls_name ex_get_class
              ex_schema2jsonschema ex_schema2parameters
              [(DStr "get",
                PDict [(DStr "responses",
                        PDict [(DInt 200, PDict [(DStr "schema", PClass 0)])])])]
              ex_discovering) as [[resolved st']|e] eqn:Hrun;
    [|vm_compute in Hrun; discriminate].
  exists resolved, st'. split; [reflexivity|].
  destruct (proj1 (rewriting_reads_only ex_cls_name ex_get_class
                     ex_schema2jsonschema ex_schema2parameters ex_discovering)
              _ _ _ Hrun) as (Hp & Hh & _).
  split; [exact Hp | exact Hh].
Defined.

Lemma dict_update_with_ext k f g d st :
  (forall v, dict_get d k = Some v -> forall s, f v s = g v s) ->
  dict_update_with k f d st = dict_update_with k g d st.
Proof.
  intros Hfg. destruct (dict_get d k) as [v|] eqn:Hg.
  - rewrite !(dict_update_with_get _ _ _ _ _ Hg). by rewrite (Hfg v eq_refl).
  - by rewrite !dict_update_with_none.
Qed.

(** X10.  The argument [use_instances] of [resolve_schema_dict] has no
    effect: for every value, flag [dump] and state, the call with
    [use_instances] set and the call with it unset end in the same way,
    with the same result and state. *)
Theorem use_instances_has_no_effect (cls_name : cls -> string)
    (get_class : string -> option cls)
    (schema2jsonschema : state -> pyval -> option string -> bool -> pyval)
    (schema : pyval) :
  forall (dump u1 u2 : bool) (st : state),
    resolve_schema_dict cls_name get_class schema2jsonschema schema dump u1 st
    = resolve_schema_dict cls_name get_class schema2jsonschema schema dump u2 st.
Proof.
  induction schema as [ | b | n | s | xs _ | d IH | c | l ]
    using pyval_nested_ind; intros dump u1 u2 st; try reflexivity.
  - cbn [resolve_schema_dict].
    destruct (type_is_array d && dict_mem d (DStr "items")); [|reflexivity].
    unfold bind.
    rewrite (dict_update_with_ext (DStr "items")
               (fun items => resolve_schema_dict cls_name get_class
                               schema2jsonschema items true u1)
               (fun items => resolve_schema_dict cls_name get_class
                               schema2jsonschema items true u2)); [reflexivity|].
    intros v Hv s.
    exact (dict_get_Forall
             (fun v => forall dump u1 u2 st,
                resolve_schema_dict cls_name get_class schema2jsonschema
                  v dump u1 st
                = resolve_schema_dict cls_name get_class schema2jsonschema
                    v dump u2 st) _ _ _ IH Hv true u1 u2 s).
  - destruct (st_heap st !! l) as [o|] eqn:Hl.
    + by rewrite !(resolve_instance _ _ _ _ _ _ _ _ Hl).
    + cbn [resolve_schema_dict]. unfold resolve_schema_ref, bind, get_state, lift.
      cbn. unfold deref. rewrite Hl. by destruct u1, u2.
Qed.

Lemma resolve_array_of (cls_name : cls -> string)
    (get_class : string -> option cls)
    (schema2jsonschema : state -> pyval -> option string -> bool -> pyval)
    (items : pyval) (dump use_instances : bool) (st : state) :
  resolve_schema_dict cls_name get_class schema2jsonschema
    (array_of items) dump use_instances st
  = match resolve_schema_dict cls_name get_class schema2jsonschema
            items true use_instances st with
    | Ok (items', st') => Ok (array_of items', st')
    | Raise e => Raise e
    end.
Proof.
  unfold array_of at 1. cbn [resolve_schema_dict].
  change (type_is_array _ && dict_mem _ _) with true. cbn match.
  unfold bind.
  rewrite (dict_update_with_get (DStr "items") _ _ items) by reflexivity.
  destruct (resolve_schema_dict _ _ _ items true use_instances st)
    as [[items' st']|]; reflexivity.
Qed.

(** X11.  Array descriptors are resolved to any depth: a reference inside
    [n + 1] array descriptors is resolved in place and the descriptors
    around it are kept.  A class or an instance whose key is registered
    becomes the pointer to the registered name (an array of it for an
    instance with [many] set) and the state is unchanged; one whose key is
    not registered becomes what the converter returns for it.  The
    converter is then called with [dump] set, whatever [dump] the caller
    passed: the flag is not handed on to [items]. *)
Theorem nested_arrays_are_resolved (cls_name : cls -> string)
    (get_class : string -> option cls)
    (schema2jsonschema : state -> pyval -> option string -> bool -> pyval)
    (n : nat) (dump use_instances : bool) (st : state) :
  (forall schema,
     resolve_schema_dict cls_name get_class schema2jsonschema
       (nest (S n) schema) dump use_instances st
     = match resolve_schema_dict cls_name get_class schema2jsonschema
               schema true use_instances st with
       | Ok (r, st') => Ok (nest (S n) r, st')
       | Raise e => Raise e
       end)
  /\ (forall c,
        resolve_schema_dict cls_name get_class schema2jsonschema
          (nest (S n) (PClass c)) dump use_instances st
        = match refs_or_empty st !! KType (TSchema c) with
          | Some name => Ok (nest (S n) (ref_schema name), st)
          | None =>
              Ok (nest (S n) (schema2jsonschema st (PClass c) None true),
                  with_event st (CallConvert (PClass c) None))
          end)
  /\ (forall l o,
        st_heap st !! l = Some o ->
        resolve_schema_dict cls_name get_class schema2jsonschema
          (nest (S n) (PInst l)) dump use_instances st
        = match refs_or_empty st !! instance_ref cls_name o with
          | Some name =>
              Ok (nest (S n) (if o_many o then array_of (ref_schema name)
                              else ref_schema name), st)
          | None =>
              Ok (nest (S n) (schema2jsonschema st (PInst l) None true),
                  with_event st (CallConvert (PInst l) None))
          end).
Proof.
  assert (forall schema,
            resolve_schema_dict cls_name get_class schema2jsonschema
              (nest (S n) schema) dump use_instances st
            = match resolve_schema_dict cls_name get_class schema2jsonschema
                      schema true use_instances st with
              | Ok (r, st') => Ok (nest (S n) r, st')
              | Raise e => Raise e
              end) as Hrel.
  { intros schema. revert dump. induction n as [|m IH]; intros dump.
    - apply resolve_array_of.
    - change (nest (S (S m)) schema) with (array_of (nest (S m) schema)).
      rewrite resolve_array_of, IH.
      destruct (resolve_schema_dict _ _ _ schema true use_instances st)
        as [[r st']|]; reflexivity. }
  split; [exact Hrel|]. split.
  - intros c. rewrite Hrel, resolve_class.
    destruct (refs_or_empty st !! KType (TSchema c)); reflexivity.
  - intros l o Hl. rewrite Hrel, (resolve_instance _ _ _ _ _ _ _ _ Hl).
    destruct (refs_or_empty st !! instance_ref cls_name o); reflexivity.
Qed.

Lemma nested_arrays_are_resolved_witness :
  resolve_schema_dict ex_cls_name ex_get_class ex_schema2jsonschema
    (PDict [(DStr "type", PStr "array");
            (DStr "items",
             PDict [(DStr "type", PStr "array"); (DStr "items", PClass 1)])])
    false false ex_preregistered
  = Ok (PDict [(DStr "type", PStr "array");
               (DStr "items",
                PDict [(DStr "type", PStr "array");
                       (DStr "items",
                        PDict [(DStr "$ref",
                                PStr "#/definitions/Animal")])])],
        ex_preregistered)
  /\ resolve_schema_dict ex_cls_name ex_get_class
       (fun _ _ _ dump => PBool dump)
       (PDict [(DStr "type", PStr "array");
               (DStr "items",
                PDict [(DStr "type", PStr "array"); (DStr "items", PInst 2)])])
       false false ex_preregistered
     = Ok (PDict [(DStr "type", PStr "array");
                  (DStr "items",
                   PDict [(DStr "type", PStr "array");
                          (DStr "items", PBool true)])],
           with_event ex_preregistered (CallConvert (PInst 2) None)).
Proof.
  split.
  - apply (proj1 (proj2 (nested_arrays_are_resolved ex_cls_name ex_get_class
                           ex_schema2jsonschema 1 false false
                           ex_preregistered)) 1).
  - apply (proj2 (proj2 (nested_arrays_are_resolved ex_cls_name ex_get_class
                           (fun _ _ _ dump => PBool dump) 1 false false
                           ex_preregistered)) 2
             {| o_class := 0; o_exclude := []; o_only := []; o_many := false;
                o_fields := [("id", OtherField); ("pets", Nested 1);
                             ("tags", ListOf OtherField)] |}).
    reflexivity.
Defined.

(** X12.  What the resolver returns for a registered class or instance
    is a fixed point of the resolver: resolving the returned pointer, or
    array of the pointer, again returns it unchanged and leaves the state
    as it is, so that rewriting a resolved reference twice changes
    nothing. *)
Theorem resolved_pointer_is_fixed (cls_name : cls -> string)
    (get_class : string -> option cls)
    (schema2jsonschema : state -> pyval -> option string -> bool -> pyval)
    (schema : pyval) (key : schema_ref) (name : string)
    (dump use_instances : bool) (st : state) :
  is_schema schema = true ->
  get_schema_ref cls_name (st_heap st) schema = Ok key ->
  refs_or_empty st !! key = Some name ->
  exists r,
    resolve_schema_dict cls_name get_class schema2jsonschema
      schema dump use_instances st = Ok (r, st)
    /\ forall dump' use_instances' st',
         resolve_schema_dict cls_name get_class schema2jsonschema
           r dump' use_instances' st' = Ok (r, st').
Proof.
  intros Hs Hkey Hname.
  assert (forall dump' use_instances' st',
            resolve_schema_dict cls_name get_class schema2jsonschema
              (ref_schema name) dump' use_instances' st'
            = Ok (ref_schema name, st')) as Hptr by reflexivity.
  assert (forall dump' use_instances' st',
            resolve_schema_dict cls_name get_class schema2jsonschema
              (array_of (ref_schema name)) dump' use_instances' st'
            = Ok (array_of (ref_schema name), st')) as Harr.
  { intros. by rewrite resolve_array_of, Hptr. }
  destruct schema as [| | | | | |c|l]; try discriminate.
  - inversion Hkey; subst key. exists (ref_schema name).
    rewrite resolve_class, Hname. auto.
  - apply get_schema_ref_inst_inv in Hkey as (o & Hl & ->).
    exists (if o_many o then array_of (ref_schema name) else ref_schema name).
    rewrite (resolve_instance _ _ _ _ _ _ _ _ Hl), Hname.
    split; [reflexivity|]. by destruct (o_many o).
Qed.

Lemma resolved_pointer_is_fixed_witness :
  exists r,
    resolve_schema_dict ex_cls_name ex_get_class ex_schema2jsonschema
      (PInst 1) true false ex_preregistered = Ok (r, ex_preregistered)
    /\ forall dump' use_instances' st',
         resolve_schema_dict ex_cls_name ex_get_class ex_schema2jsonschema
           r dump' use_instances' st' = Ok (r, st').
Proof.
  apply (resolved_pointer_is_fixed ex_cls_name ex_get_class
           ex_schema2jsonschema (PInst 1) (KType (TSchema 1)) "Animal"
           true false ex_preregistered); reflexivity.
Defined.

(** X13.  The two ways of writing a list of a registered schema agree: the
    literal array descriptor whose [items] is the class, and an instance of
    the class without restrictions and with [many] set, resolve to the same
    array of the pointer. *)
Theorem array_literal_agrees_with_many (cls_name : cls -> string)
    (get_class : string -> option cls)
    (schema2jsonschema : state -> pyval -> option string -> bool -> pyval)
    (c : cls) (name : string) (l : loc) (o : schema_obj)
    (dump dump' use_instances use_instances' : bool) (st : state) :
  refs_or_empty st !! KType (TSchema c) = Some name ->
  st_heap st !! l = Some o ->
  o_class o = c -> o_exclude o = [] -> o_only o = [] -> o_many o = true ->
  resolve_schema_dict cls_name get_class schema2jsonschema
    (PDict [(DStr "type", PStr "array"); (DStr "items", PClass c)])
    dump use_instances st
  = resolve_schema_dict cls_name get_class schema2jsonschema
      (PInst l) dump' use_instances' st
  /\ resolve_schema_dict cls_name get_class schema2jsonschema
       (PInst l) dump' use_instances' st
     = Ok (PDict [(DStr "type", PStr "array");
                  (DStr "items",
                   PDict [(DStr "$ref", PStr ("#/definitions/" +:+ name))])],
           st).
Proof.
  intros Hk Hl Hc He Ho Hm.
  assert (resolve_schema_dict cls_name get_class schema2jsonschema
            (PInst l) dump' use_instances' st
          = Ok (array_of (ref_schema name), st)) as Hinst.
  { rewrite (resolve_instance _ _ _ _ _ _ _ _ Hl).
    unfold instance_ref. by rewrite He, Ho, Hc, Hk, Hm. }
  split; [|exact Hinst]. rewrite Hinst.
  change (PDict [(DStr "type", PStr "array"); (DStr "items", PClass c)])
    with (array_of (PClass c)).
  by rewrite resolve_array_of, resolve_class, Hk.
Qed.

Lemma array_literal_agrees_with_many_witness :
  resolve_schema_dict ex_cls_name ex_get_class ex_schema2jsonschema
    (PDict [(DStr "type", PStr "array"); (DStr "items", PClass 1)])
    true false ex_preregistered
  = resolve_schema_dict ex_cls_name ex_get_class ex_schema2jsonschema
      (PInst 1) true false ex_preregistered.
Proof.
  exact (proj1 (array_literal_agrees_with_many ex_cls_name ex_get_class
                  ex_schema2jsonschema 1 "Animal" 1 _ true true false false
                  ex_preregistered
                  eq_refl eq_refl eq_refl eq_refl eq_refl eq_refl)).
Defined.

Lemma dict_map_values_ok_inv f d st r st' k v :
  dict_map_values f d st = Ok (r, st') ->
  (k, v) ∈ d ->
  exists s v' s', f v s = Ok (v', s').
Proof.
  revert st r. induction d as [|[k0 v0] d IH]; intros st r Hrun Hin.
  { by apply elem_of_nil in Hin. }
  rewrite dict_map_values_cons in Hrun.
  destruct (f v0 st) as [[v1 st1]|] eqn:H1; [|discriminate].
  destruct (dict_map_values f d st1) as [[r' st2]|] eqn:H2; [|discriminate].
  inversion Hrun; subst.
  apply elem_of_cons in Hin as [Heq|Hin].
  - inversion Heq; subst. exists st, v1, st1. exact H1.
  - exact (IH st1 r' H2 Hin).
Qed.

Lemma resolve_unknown_name (cls_name : cls -> string)
    (get_class : string -> option cls)
    (schema2jsonschema : state -> pyval -> option string -> bool -> pyval)
    (s : string) (dump use_instances : bool) (st : state) :
  get_class s = None ->
  resolve_schema_dict cls_name get_class schema2jsonschema
    (PStr s) dump use_instances st = Raise RegistryError.
Proof.
  intros Hnone. cbn [resolve_schema_dict].
  unfold resolve_schema_ref, bind, get_state, lift. cbn. by rewrite Hnone.
Qed.

(** X14.  A name that the class registry does not know is not recovered
    from: resolving it raises a registry error whatever the plugin's
    registry holds, and a rewriting of operations that ends well has found
    a class for every response schema that is given by name. *)
Theorem unknown_names_fail_the_rewrite (cls_name : cls -> string)
    (get_class : string -> option cls)
    (schema2jsonschema : state -> pyval -> option string -> bool -> pyval)
    (schema2parameters : state -> cls -> pyval -> list pyval) :
  (forall s dump use_instances st,
     get_class s = None ->
     resolve_schema_dict cls_name get_class schema2jsonschema
       (PStr s) dump use_instances st = Raise RegistryError)
  /\ (forall operations st resolved st' k op responses code r s,
        schema_operation_resolver cls_name get_class schema2jsonschema
          schema2parameters operations st = Ok (resolved, st') ->
        (k, PDict op) ∈ operations ->
        dict_get op (DStr "responses") = Some (PDict responses) ->
        (code, PDict r) ∈ responses ->
        dict_get r (DStr "schema") = Some (PStr s) ->
        is_Some (get_class s)).
Proof.
  split; [intros; by apply resolve_unknown_name|].
  intros operations st resolved st' k op responses code r s Hrun Hop Hresp Hr Hs.
  destruct (dict_map_values_ok_inv _ _ _ _ _ _ _ Hrun Hop) as (s0 & v' & s1 & H0).
  cbn [resolve_operation] in H0.
  apply bind_inv in H0 as (op1 & s2 & H1 & H0).
  assert (dict_get op1 (DStr "responses") = Some (PDict responses)) as Hresp1.
  { unfold dict_mem in H1.
    destruct (dict_get op (DStr "parameters")) as [ps|] eqn:Hps.
    - rewrite (dict_update_with_get _ _ _ _ _ Hps) in H1.
      destruct (resolve_parameters _ _ ps s0) as [[ps' s3]|]; [|discriminate].
      inversion H1; subst. by rewrite dict_get_set_ne.
    - inversion H1; subst. exact Hresp. }
  rewrite Hresp1 in H0.
  apply bind_inv in H0 as (rs' & s3 & H2 & _).
  destruct (dict_map_values_ok_inv _ _ _ _ _ _ _ H2 Hr) as (s4 & r' & s5 & H3).
  cbn [resolve_response] in H3. unfold dict_mem in H3. rewrite Hs in H3.
  apply bind_inv in H3 as (r2 & s6 & H4 & _).
  rewrite (dict_update_with_get _ _ _ _ _ Hs) in H4.
  destruct (get_class s) as [c|] eqn:Hc; [eauto|].
  rewrite resolve_unknown_name in H4 by exact Hc. discriminate.
Qed.

Lemma unknown_names_fail_the_rewrite_witness :
  schema_operation_resolver ex_cls_name ex_get_class ex_schema2jsonschema
    ex_schema2parameters
    [(DStr "get",
      PDict [(DStr "responses",
              PDict [(DInt 200, PDict [(DStr "schema", PStr "OrderSchema")])])])]
    ex_discovering = Raise RegistryError.
Proof.
  destruct (schema_operation_resolver ex_cls_name ex_get_class
              ex_schema2jsonschema ex_schema2parameters
              [(DStr "get",
                PDict [(DStr "responses",
                        PDict [(DInt 200,
                                PDict [(DStr "schema", PStr "OrderSchema")])])])]
              ex_discovering) as [[resolved st']|e] eqn:Hrun.
  - exfalso.
    destruct (proj2 (unknown_names_fail_the_rewrite ex_cls_name ex_get_class
                       ex_schema2jsonschema ex_schema2parameters)
                _ _ _ _ (DStr "get")
                [(DStr "responses",
                  PDict [(DInt 200,
                          PDict [(DStr "schema", PStr "OrderSchema")])])]
                [(DInt 200, PDict [(DStr "schema", PStr "OrderSchema")])]
                (DInt 200) [(DStr "schema", PStr "OrderSchema")]
                "OrderSchema" Hrun)
      as [c Hc].
    + apply elem_of_cons. by left.
    + reflexivity.
    + apply elem_of_cons. by left.
    + reflexivity.
    + discriminate.
  - vm_compute in Hrun. inversion Hrun. reflexivity.
Defined.

(** ** Parameters *)

Section Parameters.

Variable get_class : string -> option cls.
Variable schema2parameters : state -> cls -> pyval -> list pyval.

Lemma resolve_parameters_loop_app xs ys st :
  resolve_parameters_loop get_class schema2parameters (xs ++ ys) st
  = match resolve_parameters_loop get_class schema2parameters xs st with
    | Ok (r1, st1) =>
        match resolve_parameters_loop get_class schema2parameters ys st1 with
        | Ok (r2, st2) => Ok (r1 ++ r2, st2)
        | Raise e => Raise e
        end
    | Raise e => Raise e
    end.
Proof.
  revert st. induction xs as [|x xs IH]; intros st.
  - cbn. destruct (resolve_parameters_loop _ _ ys st) as [[r2 st2]|]; reflexivity.
  - cbn [app resolve_parameters_loop]. unfold bind.
    destruct (resolve_parameter _ _ x st) as [[r0 st0]|]; [|reflexivity].
    rewrite IH.
    destruct (resolve_parameters_loop _ _ xs st0) as [[r1 st1]|]; [|reflexivity].
    unfold ret.
    destruct (resolve_parameters_loop _ _ ys st1) as [[r2 st2]|]; [|reflexivity].
    by rewrite app_assoc.
Qed.

Lemma resolve_parameter_passes parameter st :
  passes_through parameter = true ->
  resolve_parameter get_class schema2parameters parameter st
  = Ok ([parameter], st).
Proof.
  destruct parameter as [| | | | |p| |]; try discriminate.
  cbn [passes_through resolve_parameter].
  destruct (dict_get p (DStr "schema")) as [schema|]; cbn [from_option id].
  - intros ->. reflexivity.
  - reflexivity.
Qed.

Lemma resolve_parameters_loop_pass parameters st :
  forallb passes_through parameters = true ->
  resolve_parameters_loop get_class schema2parameters parameters st
  = Ok (parameters, st).
Proof.
  revert st. induction parameters as [|p ps IH]; intros st; [reflexivity|].
  cbn [forallb]. intros [Hp Hps]%andb_true_iff.
  cbn [resolve_parameters_loop]. unfold bind.
  rewrite resolve_parameter_passes by exact Hp. by rewrite (IH st Hps).
Qed.

End Parameters.

(** X15.  Parameters that carry no schema reference pass through
    [resolve_parameters] untouched: when every parameter is a mapping
    without a [schema] member, or with a [schema] that is itself a mapping,
    the result is the same list in the same order and the state is
    unchanged. *)
Theorem plain_parameters_pass_through (get_class : string -> option cls)
    (schema2parameters : state -> cls -> pyval -> list pyval)
    (parameters : list pyval) (st : state) :
  forallb passes_through parameters = true ->
  resolve_parameters get_class schema2parameters (PList parameters) st
  = Ok (PList parameters, st).
Proof.
  intros Hp. unfold resolve_parameters, bind, lift. cbn [py_iter].
  by rewrite resolve_parameters_loop_pass.
Qed.

Lemma plain_parameters_pass_through_witness :
  resolve_parameters ex_get_class ex_schema2parameters
    (PList [PDict [(DStr "name", PStr "id"); (DStr "in", PStr "path")];
            PDict [(DStr "in", PStr "body");
                   (DStr "schema", PDict [(DStr "type", PStr "string")])]])
    ex_start
  = Ok (PList [PDict [(DStr "name", PStr "id"); (DStr "in", PStr "path")];
               PDict [(DStr "in", PStr "body");
                      (DStr "schema", PDict [(DStr "type", PStr "string")])]],
        ex_start).
Proof.
  apply (plain_parameters_pass_through ex_get_class ex_schema2parameters).
  reflexivity.
Defined.

(** X16.  A parameter whose [schema] is a schema reference and which has
    an [in] member is replaced, at its place in the list, by the parameters
    that [swagger.schema2parameters] returns for the class of the reference
    and the value of [in]; the parameters before and after it, when they
    carry no reference, keep their order around the expansion. *)
Theorem schema_parameter_expands_in_place
    (get_class : string -> option cls)
    (schema2parameters : state -> cls -> pyval -> list pyval)
    (before after : list pyval) (p : list (dkey * pyval))
    (schema default_in : pyval) (c : cls) (st : state) :
  forallb passes_through before = true ->
  forallb passes_through after = true ->
  dict_get p (DStr "schema") = Some schema ->
  is_dict schema = false ->
  resolve_schema_cls get_class (st_heap st) schema = Ok c ->
  dict_get p (DStr "in") = Some default_in ->
  resolve_parameters get_class schema2parameters
    (PList (before ++ PDict p :: after)) st
  = Ok (PList (before ++ schema2parameters st c default_in ++ after),
        with_event st (CallParameters c default_in)).
Proof.
  intros Hb Ha Hs Hd Hc Hin.
  unfold resolve_parameters, bind at 1, lift. cbn [py_iter].
  unfold bind at 1.
  rewrite resolve_parameters_loop_app, resolve_parameters_loop_pass by exact Hb.
  cbn [resolve_parameters_loop]. unfold bind at 1.
  assert (resolve_parameter get_class schema2parameters (PDict p) st
          = Ok (schema2parameters st c default_in,
                with_event st (CallParameters c default_in))) as ->.
  { cbn [resolve_parameter]. rewrite Hs. cbn [from_option id]. rewrite Hd.
    unfold bind, get_state, lift. rewrite Hc, Hin. reflexivity. }
  unfold bind at 1. rewrite resolve_parameters_loop_pass by exact Ha.
  reflexivity.
Qed.

Lemma schema_parameter_expands_in_place_witness :
  resolve_parameters ex_get_class ex_schema2parameters
    (PList [PDict [(DStr "name", PStr "page"); (DStr "in", PStr "query")];
            PDict [(DStr "in", PStr "query"); (DStr "schema", PStr "PetSchema")];
            PDict [(DStr "name", PStr "token"); (DStr "in", PStr "header")]])
    ex_start
  = Ok (PList [PDict [(DStr "name", PStr "page"); (DStr "in", PStr "query")];
               PDict [(DStr "in", PStr "query"); (DStr "name", PStr "id")];
               PDict [(DStr "name", PStr "token"); (DStr "in", PStr "header")]],
        with_event ex_start (CallParameters 1 (PStr "query"))).
Proof.
  apply (schema_parameter_expands_in_place ex_get_class
           ex_schema2parameters
           [PDict [(DStr "name", PStr "page"); (DStr "in", PStr "query")]]
           [PDict [(DStr "name", PStr "token"); (DStr "in", PStr "header")]]
           [(DStr "in", PStr "query"); (DStr "schema", PStr "PetSchema")]
           (PStr "PetSchema") (PStr "query") 1 ex_start); reflexivity.
Defined.

(** X17.  A parameter whose [schema] is a schema reference and which has
    no [in] member is kept as it is, but only after the class of the
    reference has been looked up: when the reference is a name that the
    class registry does not know, [resolve_parameters] raises a registry
    error, with or without an [in] member. *)
Theorem parameter_without_location (get_class : string -> option cls)
    (schema2parameters : state -> cls -> pyval -> list pyval)
    (p : list (dkey * pyval)) (schema : pyval) (st : state) :
  dict_get p (DStr "schema") = Some schema ->
  is_dict schema = false ->
  (forall c,
     resolve_schema_cls get_class (st_heap st) schema = Ok c ->
     dict_get p (DStr "in") = None ->
     resolve_parameters get_class schema2parameters (PList [PDict p]) st
     = Ok (PList [PDict p], st))
  /\ (forall s,
        schema = PStr s -> get_class s = None ->
        resolve_parameters get_class schema2parameters (PList [PDict p]) st
        = Raise RegistryError).
Proof.
  intros Hs Hd. split.
  - intros c Hc Hin. unfold resolve_parameters, bind, lift. cbn [py_iter].
    cbn [resolve_parameters_loop resolve_parameter]. rewrite Hs. cbn [from_option id].
    rewrite Hd. unfold bind, get_state, lift. rewrite Hc, Hin. reflexivity.
  - intros s -> Hnone. unfold resolve_parameters, bind, lift. cbn [py_iter].
    cbn [resolve_parameters_loop resolve_parameter]. rewrite Hs. cbn [from_option id].
    cbn [is_dict]. unfold bind, get_state, lift. cbn [resolve_schema_cls].
    by rewrite Hnone.
Qed.

Lemma parameter_without_location_witness :
  resolve_parameters ex_get_class ex_schema2parameters
    (PList [PDict [(DStr "schema", PClass 1)]]) ex_start
  = Ok (PList [PDict [(DStr "schema", PClass 1)]], ex_start)
  /\ resolve_parameters ex_get_class ex_schema2parameters
       (PList [PDict [(DStr "schema", PStr "OrderSchema")]]) ex_start
     = Raise RegistryError.
Proof.
  split.
  - apply (proj1 (parameter_without_location ex_get_class ex_schema2parameters
                    [(DStr "schema", PClass 1)] (PClass 1) ex_start
                    eq_refl eq_refl) 1); reflexivity.
  - apply (proj2 (parameter_without_location ex_get_class ex_schema2parameters
                    [(DStr "schema", PStr "OrderSchema")] (PStr "OrderSchema")
                    ex_start eq_refl eq_refl) "OrderSchema"); reflexivity.
Defined.

(** ** Operations without schemas, and the shape of rewritten operations *)

Lemma dict_set_same d k v : dict_get d k = Some v -> dict_set d k v = d.
Proof.
  induction d as [|[k0 w] d IH]; cbn [dict_get dict_set]; [discriminate|].
  destruct (decide (k0 = k)) as [->|H0].
  - intros H. inversion H. reflexivity.
  - intros H. by rewrite IH.
Qed.

Lemma dict_map_values_id (p : pyval -> bool) f d st :
  (forall v s, p v = true -> f v s = Ok (v, s)) ->
  forallb (fun kv => p kv.2) d = true ->
  dict_map_values f d st = Ok (d, st).
Proof.
  intros Hf. induction d as [|[k v] d IH]; [reflexivity|].
  cbn [forallb snd]. intros [Hv Hd]%andb_true_iff.
  rewrite dict_map_values_cons, (Hf v st Hv), (IH Hd). reflexivity.
Qed.

Lemma dict_update_with_kept k f d st d' st' :
  dict_update_with k f d st = Ok (d', st') -> kept_except [k] d d'.
Proof.
  intros Hrun. destruct (dict_get d k) as [v|] eqn:Hg.
  - rewrite (dict_update_with_get _ _ _ _ _ Hg) in Hrun.
    destruct (f v st) as [[v' s]|]; [|discriminate].
    inversion Hrun; subst. split.
    + by apply dict_set_keys with v.
    + intros m Hm. apply dict_get_set_ne.
      intros ->. apply Hm, elem_of_cons. by left.
  - rewrite dict_update_with_none in Hrun by exact Hg.
    inversion Hrun; subst. by split.
Qed.

Lemma dict_map_values_pointwise f d st d' st' :
  dict_map_values f d st = Ok (d', st') ->
  map fst d' = map fst d
  /\ forall j k v, d !! j = Some (k, v) ->
       exists v' s s', d' !! j = Some (k, v') /\ f v s = Ok (v', s').
Proof.
  revert st d'. induction d as [|[k0 v0] d IH]; intros st d' Hrun.
  - inversion Hrun; subst. split; [reflexivity|]. intros j k v Hj.
    by rewrite lookup_nil in Hj.
  - rewrite dict_map_values_cons in Hrun.
    destruct (f v0 st) as [[v1 st1]|] eqn:H1; [|discriminate].
    destruct (dict_map_values f d st1) as [[r st2]|] eqn:H2; [|discriminate].
    inversion Hrun; subst. destruct (IH _ _ H2) as [Hk Hp]. split.
    + cbn. by rewrite Hk.
    + intros [|j] k v Hj; cbn in Hj.
      * inversion Hj; subst. exists v1, st, st1. by split.
      * exact (Hp j k v Hj).
Qed.

Section Shape.

Variable cls_name : cls -> string.
Variable get_class : string -> option cls.
Variable schema2jsonschema : state -> pyval -> option string -> bool -> pyval.
Variable schema2parameters : state -> cls -> pyval -> list pyval.

Lemma resolve_response_plain response st :
  plain_response response = true ->
  resolve_response cls_name get_class schema2jsonschema response st
  = Ok (response, st).
Proof.
  destruct response as [| | | | |r| |]; try discriminate.
  cbn [plain_response resolve_response].
  intros ->%negb_true_iff. reflexivity.
Qed.

Lemma resolve_operation_plain operation st :
  plain_operation operation = true ->
  resolve_operation cls_name get_class schema2jsonschema schema2parameters
    operation st = Ok (operation, st).
Proof.
  destruct operation as [| | | | |op| |]; try reflexivity.
  cbn [plain_operation resolve_operation].
  intros [Hp Hr]%andb_true_iff. apply negb_true_iff in Hp. rewrite Hp.
  unfold bind at 1. cbn [ret].
  destruct (dict_get op (DStr "responses")) as [[| | | | |rs| |]|] eqn:Hg;
    try discriminate; [|reflexivity].
  unfold bind.
  rewrite (dict_map_values_id plain_response _ _ _
             (fun v s => resolve_response_plain v s) Hr).
  cbn [ret]. by rewrite (dict_set_same _ _ _ Hg).
Qed.

Lemma resolve_response_kept r st v st' :
  resolve_response cls_name get_class schema2jsonschema (PDict r) st
  = Ok (v, st') ->
  exists r', v = PDict r' /\ kept_except [DStr "schema"] r r'.
Proof.
  cbn [resolve_response]. destruct (dict_mem r (DStr "schema")).
  - intros (r' & s & Hu & Hret)%bind_inv. inversion Hret; subst.
    exists r'. split; [reflexivity|]. exact (dict_update_with_kept _ _ _ _ _ _ Hu).
  - intros Hret. inversion Hret; subst. exists r. by split.
Qed.

Lemma resolve_operation_kept op st v st' :
  resolve_operation cls_name get_class schema2jsonschema schema2parameters
    (PDict op) st = Ok (v, st') ->
  exists op', v = PDict op'
    /\ kept_except [DStr "parameters"; DStr "responses"] op op'
    /\ forall responses,
         dict_get op (DStr "responses") = Some (PDict responses) ->
         exists responses',
           dict_get op' (DStr "responses") = Some (PDict responses')
           /\ map fst responses' = map fst responses
           /\ forall j code r,
                responses !! j = Some (code, PDict r) ->
                exists r', responses' !! j = Some (code, PDict r')
                           /\ kept_except [DStr "schema"] r r'.
Proof.
  cbn [resolve_operation]. intros (op1 & s1 & H1 & Hrun)%bind_inv.
  assert (kept_except [DStr "parameters"] op op1) as [Hk1 Hg1].
  { destruct (dict_mem op (DStr "parameters")).
    - exact (dict_update_with_kept _ _ _ _ _ _ H1).
    - inversion H1; subst. by split. }
  assert (dict_get op1 (DStr "responses") = dict_get op (DStr "responses"))
    as Hresp.
  { apply Hg1. rewrite elem_of_cons, elem_of_nil. intros [?|[]]. discriminate. }
  destruct (dict_get op1 (DStr "responses")) as [[| | | | |rs| |]|] eqn:Hg;
    try discriminate.
  - apply bind_inv in Hrun as (rs' & s2 & Hm & Hret). inversion Hret; subst.
    eexists. split; [reflexivity|]. split; [split|].
    + by rewrite (dict_set_keys _ _ _ _ Hg).
    + intros m Hm'. rewrite dict_get_set_ne.
      * apply Hg1. intros Hin. apply Hm'.
        apply elem_of_cons in Hin as [->|Hin]; [|by apply elem_of_nil in Hin].
        apply elem_of_cons. by left.
      * intros ->. apply Hm'. rewrite !elem_of_cons. tauto.
    + intros responses Hr. rewrite <- Hresp in Hr. inversion Hr; subst.
      exists rs'. split; [apply dict_get_set_eq|].
      destruct (dict_map_values_pointwise _ _ _ _ _ Hm) as [Hk Hp].
      split; [exact Hk|]. intros j code r Hj.
      destruct (Hp j code (PDict r) Hj) as (v' & s & s' & Hj' & Hv).
      destruct (resolve_response_kept _ _ _ _ Hv) as (r' & -> & Hkept).
      eauto.
  - inversion Hrun; subst. exists op1. split; [reflexivity|]. split; [split|].
    + exact Hk1.
    + intros m Hm'. apply Hg1. intros Hin. apply Hm'.
      apply elem_of_cons in Hin as [->|Hin]; [|by apply elem_of_nil in Hin].
      apply elem_of_cons. by left.
    + intros responses Hr. rewrite <- Hresp in Hr. discriminate.
Qed.

End Shape.

(** X18.  Operations that mention no schema are left as they are: when
    every operation is not a mapping, or a mapping without [parameters]
    whose responses are mappings without a [schema] member, the rewriter
    returns the operations unchanged, raises nothing, and leaves the state
    as it was, so no class is looked up and no converter is called. *)
Theorem plain_operations_unchanged (cls_name : cls -> string)
    (get_class : string -> option cls)
    (schema2jsonschema : state -> pyval -> option string -> bool -> pyval)
    (schema2parameters : state -> cls -> pyval -> list pyval)
    (operations : list (dkey * pyval)) (st : state) :
  forallb (fun kv => plain_operation kv.2) operations = true ->
  schema_operation_resolver cls_name get_class schema2jsonschema
    schema2parameters operations st = Ok (operations, st).
Proof.
  intros Hp. unfold schema_operation_resolver.
  apply (dict_map_values_id plain_operation); [|exact Hp].
  intros v s Hv. by apply resolve_operation_plain.
Qed.

Lemma plain_operations_unchanged_witness :
  schema_operation_resolver ex_cls_name ex_get_class ex_schema2jsonschema
    ex_schema2parameters
    [(DStr "get",
      PDict [(DStr "description", PStr "Get a user");
             (DStr "responses",
              PDict [(DInt 200, PDict [(DStr "description", PStr "A user")])])]);
     (DStr "x-note", PStr "internal")]
    ex_declining
  = Ok ([(DStr "get",
          PDict [(DStr "description", PStr "Get a user");
                 (DStr "responses",
                  PDict [(DInt 200,
                          PDict [(DStr "description", PStr "A user")])])]);
         (DStr "x-note", PStr "internal")],
        ex_declining).
Proof.
  apply (plain_operations_unchanged ex_cls_name ex_get_class
           ex_schema2jsonschema ex_schema2parameters).
  reflexivity.
Defined.

(** X19.  A rewriting that ends well keeps the shape of the operations:
    the operations have the same keys in the same order; a mapping
    operation stays a mapping with the same member keys in the same order
    and the same value under every member other than [parameters] and
    [responses]; its responses keep their status codes in order; and each
    response mapping keeps its member keys and every member other than
    [schema]. *)
Theorem rewriting_keeps_shape (cls_name : cls -> string)
    (get_class : string -> option cls)
    (schema2jsonschema : state -> pyval -> option string -> bool -> pyval)
    (schema2parameters : state -> cls -> pyval -> list pyval)
    (operations resolved : list (dkey * pyval)) (st st' : state) :
  schema_operation_resolver cls_name get_class schema2jsonschema
    schema2parameters operations st = Ok (resolved, st') ->
  map fst resolved = map fst operations
  /\ forall i k op,
       operations !! i = Some (k, PDict op) ->
       exists op',
         resolved !! i = Some (k, PDict op')
         /\ kept_except [DStr "parameters"; DStr "responses"] op op'
         /\ forall responses,
              dict_get op (DStr "responses") = Some (PDict responses) ->
              exists responses',
                dict_get op' (DStr "responses") = Some (PDict responses')
                /\ map fst responses' = map fst responses
                /\ forall j code r,
                     responses !! j = Some (code, PDict r) ->
                     exists r', responses' !! j = Some (code, PDict r')
                                /\ kept_except [DStr "schema"] r r'.
Proof.
  intros Hrun. unfold schema_operation_resolver in Hrun.
  destruct (dict_map_values_pointwise _ _ _ _ _ Hrun) as [Hk Hp].
  split; [exact Hk|]. intros i k op Hi.
  destruct (Hp i k (PDict op) Hi) as (v' & s & s' & Hi' & Hv).
  destruct (resolve_operation_kept _ _ _ _ _ _ _ _ Hv) as (op' & -> & Hkept & Hr).
  exists op'. auto.
Qed.

Lemma rewriting_keeps_shape_witness :
  exists resolved st',
    schema_operation_resolver ex_cls_name ex_get_class ex_schema2jsonschema
      ex_schema2parameters
      [(DStr "get",
        PDict [(DStr "description", PStr "Get a pet");
               (DStr "responses",
                PDict [(DInt 200,
                        PDict [(DStr "description", PStr "A pet");
                               (DStr "schema", PStr "PetSchema")])]);
               (DStr "tags", PList [PStr "pets"])])]
      ex_start = Ok (resolved, st')
    /\ map fst resolved = [DStr "get"]
    /\ exists op',
         resolved !! 0 = Some (DStr "get", PDict op')
         /\ dict_get op' (DStr "tags") = Some (PList [PStr "pets"]).
Proof.
  destruct (schema_operation_resolver ex_cls_name ex_get_class
              ex_schema2jsonschema ex_schema2parameters
              [(DStr "get",
                PDict [(DStr "description", PStr "Get a pet");
                       (DStr "responses",
                        PDict [(DInt 200,
                                PDict [(DStr "description", PStr "A pet");
                                       (DStr "schema", PStr "PetSchema")])]);
                       (DStr "tags", PList [PStr "pets"])])]
              ex_start) as [[resolved st']|e] eqn:Hrun;
    [|vm_compute in Hrun; discriminate].
  exists resolved, st'. split; [reflexivity|].
  destruct (rewriting_keeps_shape ex_cls_name ex_get_class ex_schema2jsonschema
              ex_schema2parameters _ _ _ _ Hrun) as [Hk Hp].
  split; [exact Hk|].
  destruct (Hp 0 (DStr "get") _ eq_refl) as (op' & H0 & [_ Hg] & _).
  exists op'. split; [exact H0|].
  rewrite Hg; [reflexivity|].
  rewrite !elem_of_cons, elem_of_nil. intros [?|[?|[]]]; discriminate.
Defined.

(** ** Keys that coincide *)

Lemma joined_nil_inv elems : joined elems = "" -> elems = [].
Proof. destruct elems; [reflexivity | discriminate]. Qed.

Lemma joined_underscore a b rest :
  joined ((a +:+ "_" +:+ b) :: rest) = joined (a :: b :: rest).
Proof.
  cbn [joined]. by rewrite !string_app_assoc.
Qed.

Lemma instance_ref_joined (cls_name : cls -> string) (o1 o2 : schema_obj) :
  restricted o1 = true ->
  cls_name (o_class o1) = cls_name (o_class o2) ->
  joined (o_exclude o1) = joined (o_exclude o2) ->
  joined (o_only o1) = joined (o_only o2) ->
  instance_ref cls_name o1 = instance_ref cls_name o2.
Proof.
  unfold restricted, instance_ref. intros Hr Hc He Ho.
  destruct (o_exclude o1) as [|x1 e1] eqn:He1,
           (o_exclude o2) as [|x2 e2] eqn:He2; try discriminate;
  destruct (o_only o1) as [|y1 n1] eqn:Hn1,
           (o_only o2) as [|y2 n2] eqn:Hn2; try discriminate;
  rewrite ?Hc, ?He, ?Ho; reflexivity.
Qed.

(** X20.  The identity key of a restricted instance is made of the name of
    its class and of the field names joined by underscores, and nothing
    else: two restricted instances get the same key, and resolve to the
    same registered definition, as soon as their classes have the same
    [__name__] and their [exclude] and [only] names join to the same
    strings, also when the classes differ or when one instance excludes
    the single field [a_b] and the other the two fields [a] and [b]. *)
Theorem restricted_keys_coincide (cls_name : cls -> string)
    (get_class : string -> option cls)
    (schema2jsonschema : state -> pyval -> option string -> bool -> pyval)
    (st : state) (l1 l2 : loc) (o1 o2 : schema_obj) :
  st_heap st !! l1 = Some o1 ->
  st_heap st !! l2 = Some o2 ->
  restricted o1 = true ->
  cls_name (o_class o1) = cls_name (o_class o2) ->
  joined (o_exclude o1) = joined (o_exclude o2) ->
  joined (o_only o1) = joined (o_only o2) ->
  get_schema_ref cls_name (st_heap st) (PInst l1)
  = get_schema_ref cls_name (st_heap st) (PInst l2)
  /\ (forall name dump use_instances,
        refs_or_empty st !! instance_ref cls_name o1 = Some name ->
        resolve_schema_dict cls_name get_class schema2jsonschema
          (PInst l2) dump use_instances st
        = Ok (if o_many o2 then array_of (ref_schema name)
              else ref_schema name, st))
  /\ (forall a b rest,
        joined ((a +:+ "_" +:+ b) :: rest) = joined (a :: b :: rest)).
Proof.
  intros H1 H2 Hr Hc He Ho.
  pose proof (instance_ref_joined cls_name o1 o2 Hr Hc He Ho) as Hk.
  split; [|split].
  - rewrite (get_schema_ref_inst _ _ _ _ H1), (get_schema_ref_inst _ _ _ _ H2).
    by rewrite Hk.
  - intros name dump use_instances Hreg.
    rewrite (resolve_instance _ _ _ _ _ _ _ _ H2), <- Hk, Hreg. reflexivity.
  - apply joined_underscore.
Qed.

Lemma restricted_keys_coincide_witness :
  get_schema_ref ex_cls_name
    (ex_heap ++ [ {| o_class := 0; o_exclude := ["id_email"]; o_only := [];
                     o_many := false; o_fields := [] |} ]) (PInst 3)
  = get_schema_ref ex_cls_name
      (ex_heap ++ [ {| o_class := 0; o_exclude := ["id_email"]; o_only := [];
                       o_many := false; o_fields := [] |} ]) (PInst 5).
Proof.
  apply (restricted_keys_coincide ex_cls_name ex_get_class ex_schema2jsonschema
           {| st_heap := ex_heap ++
                [ {| o_class := 0; o_exclude := ["id_email"]; o_only := [];
                     o_many := false; o_fields := [] |} ];
              plug_refs := None; schema_name_resolver := None;
              st_trace := [] |}
           3 5
           {| o_class := 0; o_exclude := ["id"; "email"]; o_only := [];
              o_many := false; o_fields := [("pets", Nested 1)] |}
           {| o_class := 0; o_exclude := ["id_email"]; o_only := [];
              o_many := false; o_fields := [] |});
    reflexivity.
Defined.

(** ** The path helper: statements *)

(** X21.  The path helper reads the docstring of the view only when it is
    given no operations or an empty mapping: operations that are given and
    not empty are the operations of the path, whatever the view and its
    docstring; otherwise the operations are those of the docstring of the
    view; and no path is built, and the helper returns nothing, exactly
    when neither source gives a non-empty mapping, so [Path] is never
    called with an empty mapping. *)
Theorem path_helper_sources (path : Type) (Path : list (dkey * pyval) -> path)
    (load_operations_from_docstring :
       option string -> option (list (dkey * pyval)))
    (v : option view) (operations : option (list (dkey * pyval))) :
  let docstring_operations :=
    match v with
    | Some v => load_operations_from_docstring (view_doc v)
    | None => None
    end in
  (mapping_truthy operations = true ->
   forall other_load other_view,
     schema_path_helper path Path other_load other_view operations
     = Path <$> operations)
  /\ (mapping_truthy operations = false ->
      mapping_truthy docstring_operations = true ->
      schema_path_helper path Path load_operations_from_docstring v operations
      = Path <$> docstring_operations)
  /\ (schema_path_helper path Path load_operations_from_docstring v operations
      = None
      <-> mapping_truthy operations = false
          /\ mapping_truthy docstring_operations = false)
  /\ (forall p,
        schema_path_helper path Path load_operations_from_docstring v operations
        = Some p ->
        exists item rest, p = Path (item :: rest)).
Proof.
  cbn zeta. unfold schema_path_helper. repeat split.
  - intros Ht other_load other_view. rewrite Ht.
    destruct operations as [[|item rest]|]; try discriminate. reflexivity.
  - intros Hf Ht. rewrite Hf.
    destruct v as [w|]; [|discriminate].
    destruct (load_operations_from_docstring (view_doc w)) as [[|item rest]|];
      try discriminate. reflexivity.
  - destruct (mapping_truthy operations) eqn:Ht; [|reflexivity].
    destruct operations as [[|item rest]|]; discriminate.
  - destruct (mapping_truthy operations) eqn:Ht.
    + destruct operations as [[|item rest]|]; discriminate.
    + destruct v as [w|]; [|reflexivity].
      destruct (load_operations_from_docstring (view_doc w))
        as [[|item rest]|]; try reflexivity. discriminate.
  - intros [Hf Hd]. rewrite Hf.
    destruct v as [w|]; [|reflexivity].
    destruct (load_operations_from_docstring (view_doc w))
      as [[|item rest]|]; try reflexivity. discriminate.
  - intros p.
    destruct (mapping_truthy operations) eqn:Ht.
    + destruct operations as [[|item rest]|]; try discriminate.
      intros H; inversion H. eauto.
    + destruct v as [w|]; [|discriminate].
      destruct (load_operations_from_docstring (view_doc w))
        as [[|item rest]|]; try discriminate.
      intros H; inversion H. eauto.
Qed.

Lemma path_helper_sources_witness :
  schema_path_helper (list (dkey * pyval)) id ex_load
    (Some {| view_doc := Some "Get a user endpoint." |})
    (Some [(DStr "put", PDict [])])
  = Some [(DStr "put", PDict [])]
  /\ schema_path_helper (list (dkey * pyval)) id ex_load
       (Some {| view_doc := Some "Get a user endpoint." |}) (Some [])
     = Some [(DStr "get",
              PDict [(DStr "description", PStr "from docstring")])].
Proof.
  split.
  - apply (proj1 (path_helper_sources (list (dkey * pyval)) id ex_load
                    None (Some [(DStr "put", PDict [])])) eq_refl).
  - apply (proj1 (proj2 (path_helper_sources (list (dkey * pyval)) id ex_load
                           (Some {| view_doc := Some "Get a user endpoint." |})
                           (Some []))) eq_refl eq_refl).
Defined.

(** ** Declaration followed by resolution of the nested schemas *)

(** X22.  After a successful declaration under a naming policy, the
    schema of every [fields.Nested] field of the declared instance that
    the policy names is referenced, not inlined: its key is registered,
    and resolving the field's schema in the final state gives the pointer
    to the registered name (an array of it when the nested schema has
    [many] set), without calling the converter. *)
Theorem nested_fields_resolve_to_pointers (cls_name : cls -> string)
    (cls_fields : cls -> list (string * field))
    (get_class : string -> option cls)
    (schema2jsonschema : state -> pyval -> option string -> bool -> pyval)
    (depth : nat) (name : string) (schema : pyval) (st : state)
    (v : pyval) (st' : state) (resolver : schema_ref -> option string) :
  schema_name_resolver st = Some resolver ->
  schema_definition_helper cls_name cls_fields schema2jsonschema depth
    name schema st = Ok (v, st') ->
  exists l st1 o,
    get_schema_instance cls_fields schema st = Ok (PInst l, st1)
    /\ st_heap st1 !! l = Some o
    /\ forall fname l',
         (fname, Nested l') ∈ o_fields o ->
         exists o',
           st_heap st' !! l' = Some o'
           /\ (is_Some (name_truthy (resolver (instance_ref cls_name o'))) ->
               exists n,
                 refs_or_empty st' !! instance_ref cls_name o' = Some n
                 /\ forall dump use_instances,
                      resolve_schema_dict cls_name get_class schema2jsonschema
                        (PInst l') dump use_instances st'
                      = Ok (if o_many o' then array_of (ref_schema n)
                            else ref_schema n, st')).
Proof.
  intros Hr Hrun.
  destruct (helper_settles cls_name cls_fields schema2jsonschema
              _ _ _ _ _ _ _ Hr Hrun) as (l & st1 & o & Hi & Hl & Hs).
  apply (helper_sound cls_name cls_fields schema2jsonschema) in Hrun
    as (_ & _ & E & _).
  exists l, st1, o. rewrite get_schema_instance_run, Hi.
  split; [reflexivity|]. split; [exact Hl|].
  intros fname l' Hin.
  rewrite Forall_forall in Hs. specialize (Hs _ Hin). cbn [snd] in Hs.
  destruct Hs as [Hplain | (l0 & o0 & Heq & Hl0 & Hset)]; [discriminate|].
  inversion Heq; subst l0.
  exists o0. split; [exact Hl0|]. intros Hnamed.
  unfold policy_name in Hset. rewrite (ext_resolver _ _ E), Hr in Hset.
  destruct Hset as [[n Hn] | Hdecl].
  - exists n. split; [exact Hn|]. intros dump use_instances.
    by rewrite (resolve_instance _ _ _ _ _ _ _ _ Hl0), Hn.
  - rewrite Hdecl in Hnamed. by destruct Hnamed.
Qed.

Lemma nested_fields_resolve_to_pointers_witness :
  exists v st' n,
    schema_definition_helper ex_cls_name ex_cls_fields ex_schema2jsonschema
      3 "User" (PInst 3) ex_start = Ok (v, st')
    /\ resolve_schema_dict ex_cls_name ex_get_class ex_schema2jsonschema
         (PInst 1) true false st'
       = Ok (array_of (ref_schema n), st').
Proof.
  destruct (schema_definition_helper ex_cls_name ex_cls_fields
              ex_schema2jsonschema 3 "User" (PInst 3) ex_start)
    as [[v st']|e] eqn:Hrun; [|vm_compute in Hrun; discriminate].
  destruct (nested_fields_resolve_to_pointers ex_cls_name ex_cls_fields
              ex_get_class ex_schema2jsonschema 3 "User" (PInst 3) ex_start
              v st' ex_resolver eq_refl Hrun)
    as (l & st1 & o & Hi & Hl & Hall).
  inversion Hi; subst l st1. inversion Hl; subst o.
  destruct (Hall "pets" 1) as (o' & Hl' & Hres).
  { cbn. rewrite !elem_of_cons. auto. }
  assert (o' = {| o_class := 1; o_exclude := []; o_only := []; o_many := true;
                  o_fields := [("name", OtherField); ("category", Nested 0)] |})
    as ->.
  { vm_compute in Hrun. inversion Hrun; subst st'. cbn in Hl'.
    by inversion Hl'. }
  destruct Hres as (n & _ & Hn); [by eexists|].
  exists v, st', n. split; [reflexivity|]. apply Hn.
Defined.
